(** * Link Magico v5.0.1: the universal web extractor of [server_v6.js]

    A shallow embedding of class [UniversalWebExtractor] (strategy selection,
    the four fetch strategies, the fallback orchestration with its cache, the
    field extractor and the default record), and the properties its
    specification states about them; then the conversational engine, the
    deep links and the routes of the server around it.

    JavaScript strings are sequences of UTF-16 code units; [String.length],
    [substring], [includes], [trim] and regular expressions without the [u]
    flag all work on code units, so a string is a [list N] here. *)

From Stdlib Require Import String Ascii NArith ZArith List Lia Bool.
From stdpp Require Import base option list gmap.
Import ListNotations.

Local Open Scope N_scope.

(** ** JavaScript strings *)

Abbreviation jsstring := (list N).

(** Source literals are written as UTF-8 text and decoded to code units. *)
Fixpoint utf16_of_utf8 (bs : list N) : jsstring :=
  match bs with
  | [] => []
  | b :: r =>
    if b <? 128 then b :: utf16_of_utf8 r
    else if b <? 224 then
      match r with
      | b2 :: r' => ((b - 192) * 64 + (b2 - 128)) :: utf16_of_utf8 r'
      | _ => []
      end
    else if b <? 240 then
      match r with
      | b2 :: b3 :: r' =>
        ((b - 224) * 4096 + (b2 - 128) * 64 + (b3 - 128)) :: utf16_of_utf8 r'
      | _ => []
      end
    else
      match r with
      | b2 :: b3 :: b4 :: r' =>
        let cp := (b - 240) * 262144 + (b2 - 128) * 4096
                  + (b3 - 128) * 64 + (b4 - 128) in
        let v := cp - 65536 in
        (55296 + v / 1024) :: (56320 + v mod 1024) :: utf16_of_utf8 r'
      | _ => []
      end
  end.

Definition js (s : string) : jsstring :=
  utf16_of_utf8 (map (fun a => N_of_ascii a) (list_ascii_of_string s)).

(** [!s] on a string: only the empty string is falsy. *)
Definition truthy (s : jsstring) : bool :=
  match s with [] => false | _ => true end.

(** [a || b] where [a] may be [undefined]. *)
Definition or_else (a : option jsstring) (b : jsstring) : jsstring :=
  match a with
  | Some s => if truthy s then s else b
  | None => b
  end.

(** [a || b] where both may be [undefined]; the result is tested for
    truthiness by the caller. *)
Definition or_undef (a b : option jsstring) : option jsstring :=
  match a with
  | Some s => if truthy s then a else b
  | None => b
  end.

Fixpoint startsWith (s p : jsstring) {struct p} : bool :=
  match p with
  | [] => true
  | a :: p' =>
    match s with
    | b :: s' => (a =? b) && startsWith s' p'
    | [] => false
    end
  end.

(** [s.includes(sub)] *)
Fixpoint includes (s sub : jsstring) : bool :=
  startsWith s sub ||
  match s with
  | [] => false
  | _ :: t => includes t sub
  end.

(** Some entry of the list [sites] is a substring of [domain]. *)
Definition contains_any (domain : jsstring) (sites : list jsstring) : Prop :=
  exists site pre post, site ∈ sites /\ domain = pre ++ site ++ post.

(** [s.substring(0, n)] *)
Definition substring0 (n : nat) (s : jsstring) : jsstring := take n s.

(** WhiteSpace and LineTerminator code units of ECMAScript: what [trim]
    strips and what [\s] matches. *)
Definition is_space (c : N) : bool :=
  ((9 <=? c) && (c <=? 13)) || (c =? 32) || (c =? 160) || (c =? 5760)
  || ((8192 <=? c) && (c <=? 8202)) || (c =? 8232) || (c =? 8233)
  || (c =? 8239) || (c =? 8287) || (c =? 12288) || (c =? 65279).

Definition is_digit (c : N) : bool := (48 <=? c) && (c <=? 57).
Definition is_upper (c : N) : bool := (65 <=? c) && (c <=? 90).
Definition is_lower (c : N) : bool := (97 <=? c) && (c <=? 122).
Definition is_alpha (c : N) : bool := is_upper c || is_lower c.
Definition one_of (s : string) (c : N) : bool :=
  existsb (N.eqb c) (js s).

Fixpoint trimStart (s : jsstring) : jsstring :=
  match s with
  | c :: t => if is_space c then trimStart t else s
  | [] => []
  end.

Definition trimEnd (s : jsstring) : jsstring := rev (trimStart (rev s)).

Definition trim (s : jsstring) : jsstring := trimEnd (trimStart s).

(** [Array.prototype.includes] on an array of strings. *)
Definition array_includes (l : list jsstring) (x : jsstring) : bool :=
  bool_decide (x ∈ l).

(** The lowering of ASCII letters.  [String.prototype.toLowerCase] agrees
    with it on every string of ASCII code units. *)
Definition asciiLowerCase (s : jsstring) : jsstring :=
  map (fun c => if is_upper c then c + 32 else c) s.

(** ** Regular expressions

    The patterns of the source use character classes, sequence,
    alternation and greedy bounded or unbounded repetition, with no flags.
    [matches r s] lists, in the order a backtracking matcher explores them,
    what is left of [s] after each way [r] can match a prefix of it. *)

Inductive regex : Type :=
| Class (p : N -> bool)
| Seq (a b : regex)
| Alt (a b : regex)
| Repeat (lo : nat) (hi : option nat) (a : regex).

(** Greedy repetition of a matcher [m]: another iteration is tried first
    (when the upper bound allows it), stopping is tried after (when the lower
    bound is met).  An iteration has to consume input. *)
Definition stop_here (lo : nat) (s : jsstring) : list jsstring :=
  match lo with O => [s] | S _ => [] end.

Fixpoint iterate (m : jsstring -> list jsstring) (lo : nat) (hi : option nat)
    (fuel : nat) (s : jsstring) : list jsstring :=
  let stop := stop_here lo s in
  match fuel with
  | O => stop
  | S f =>
    match hi with
    | Some O => stop
    | _ =>
      flat_map
        (fun s' =>
           if (length s' <? length s)%nat
           then iterate m (pred lo) (pred <$> hi) f s'
           else [])
        (m s) ++ stop
    end
  end.

Fixpoint matches (r : regex) (s : jsstring) : list jsstring :=
  match r with
  | Class p =>
    match s with
    | c :: t => if p c then [t] else []
    | [] => []
    end
  | Seq a b => flat_map (matches b) (matches a s)
  | Alt a b => matches a s ++ matches b s
  | Repeat lo hi a => iterate (matches a) lo hi (length s) s
  end.

(** [s.match(r)] for a pattern without the [g] flag: the first match at the
    leftmost position where there is one; the result is the matched text
    ([m[0]]), [None] is [null]. *)
Fixpoint regex_match (r : regex) (s : jsstring) : option jsstring :=
  match matches r s with
  | rest :: _ => Some (take (length s - length rest) s)
  | [] =>
    match s with
    | [] => None
    | _ :: t => regex_match r t
    end
  end.

Definition Chr (c : string) : regex := Class (one_of c).
Definition Star (a : regex) : regex := Repeat 0 None a.
Definition Plus (a : regex) : regex := Repeat 1 None a.
Definition Opt (a : regex) : regex := Repeat 0 (Some 1%nat) a.
Fixpoint Seqs (l : list regex) : regex :=
  match l with
  | [] => Repeat 0 (Some 0%nat) (Class (fun _ => false))
  | [a] => a
  | a :: l' => Seq a (Seqs l')
  end.

Definition ws : regex := Class is_space.
Definition digit : regex := Class is_digit.
Definition sep : regex := Chr ".,".

(** [/R\$\s*\d{1,3}(?:[.,]\d{3})*(?:[.,]\d{2})?|USD\s*\d+[.,]?\d*|\$\s*\d+[.,]?\d*/] *)
Definition price_regex : regex :=
  Alt (Seqs [Chr "R"; Chr "$"; Star ws; Repeat 1 (Some 3%nat) digit;
             Star (Seq sep (Repeat 3 (Some 3%nat) digit));
             Opt (Seq sep (Repeat 2 (Some 2%nat) digit))])
 (Alt (Seqs [Chr "U"; Chr "S"; Chr "D"; Star ws; Plus digit; Opt sep; Star digit])
      (Seqs [Chr "$"; Star ws; Plus digit; Opt sep; Star digit])).

Definition email_local (c : N) : bool :=
  is_alpha c || is_digit c || one_of "._%+-" c.
Definition email_domain (c : N) : bool :=
  is_alpha c || is_digit c || one_of ".-" c.

(** [/[a-zA-Z0-9._%+-]+@[a-zA-Z0-9.-]+\.[a-zA-Z]{2,}/] *)
Definition email_regex : regex :=
  Seqs [Plus (Class email_local); Chr "@"; Plus (Class email_domain);
        Chr "."; Repeat 2 None (Class is_alpha)].

(** [/\(\d{2}\)\s*\d{4,5}-?\d{4}|\d{2}\s*\d{4,5}-?\d{4}/] *)
Definition phone_regex : regex :=
  Alt (Seqs [Chr "("; Repeat 2 (Some 2%nat) digit; Chr ")"; Star ws;
             Repeat 4 (Some 5%nat) digit; Opt (Chr "-");
             Repeat 4 (Some 4%nat) digit])
      (Seqs [Repeat 2 (Some 2%nat) digit; Star ws;
             Repeat 4 (Some 5%nat) digit; Opt (Chr "-");
             Repeat 4 (Some 4%nat) digit]).

(** The amount of the specification's example, [R$ 199,90]. *)
Definition sample_price : jsstring := Eval vm_compute in js "R$ 199,90".

(** ** The content record *)

Record Image : Type := { src : jsstring; alt : jsstring }.

Record Contact : Type := { email : option jsstring; phone : option jsstring }.

Record ContentRecord : Type := {
  url : jsstring;
  title : jsstring;
  description : jsstring;
  price : jsstring;
  benefits : list jsstring;
  testimonials : list jsstring;
  cta : jsstring;
  images : list Image;
  videos : list jsstring;
  contact : Contact;
  metadata : list (jsstring * jsstring);
  extractionMethod : option jsstring
}.

Definition set_extractionMethod (r : ContentRecord) (m : jsstring) : ContentRecord :=
  {| url := url r; title := title r; description := description r;
     price := price r; benefits := benefits r; testimonials := testimonials r;
     cta := cta r; images := images r; videos := videos r;
     contact := contact r; metadata := metadata r;
     extractionMethod := Some m |}.

(** A JavaScript computation that returns or throws. *)
Inductive result (A : Type) : Type :=
| Ok (a : A)
| Throw (e : jsstring).
Arguments Ok {A} a.
Arguments Throw {A} e.

(** ** What the libraries provide

    [cheerio] (the parser and its selector engine), the WHATWG [URL] class
    and the Unicode case mapping are libraries of the platform; the
    extractor is modelled over any implementation of them.  [query html sel]
    is [cheerio.load(html)(sel)], the matched elements in document order;
    [url_hostname u] is [new URL(u).hostname] and [url_href s base] is
    [new URL(s, base).href], [None] when the constructor throws. *)
Class Platform : Type := {
  Elem : Type;
  query : jsstring -> jsstring -> list Elem;
  el_attr : Elem -> jsstring -> option jsstring;
  el_text : Elem -> jsstring;
  el_find : Elem -> jsstring -> list Elem;
  url_hostname : jsstring -> option jsstring;
  url_href : jsstring -> jsstring -> option jsstring;
  toLowerCase : jsstring -> jsstring
}.

Definition dq : jsstring := [34].

Definition titleSelectors : list jsstring :=
  [ js "h1:not(:contains(" ++ dq ++ js "404" ++ dq ++ js ")):not(:contains("
      ++ dq ++ js "Error" ++ dq ++ js ")):not(:contains(" ++ dq
      ++ js "Página não encontrada" ++ dq ++ js "))";
    js ".main-title, .product-title, .headline, .title";
    js "[class*=" ++ dq ++ js "title" ++ dq ++ js "]:not(:contains(" ++ dq
      ++ js "Error" ++ dq ++ js "))";
    js "meta[property=" ++ dq ++ js "og:title" ++ dq ++ js "]";
    js "meta[name=" ++ dq ++ js "twitter:title" ++ dq ++ js "]";
    js "title" ].

Definition descSelectors : list jsstring :=
  [ js ".product-description p:first-child";
    js ".description p:first-child";
    js ".summary, .lead, .intro";
    js "meta[name=" ++ dq ++ js "description" ++ dq ++ js "]";
    js "meta[property=" ++ dq ++ js "og:description" ++ dq ++ js "]";
    js "p:not(:contains(" ++ dq ++ js "cookie" ++ dq ++ js ")):not(:contains("
      ++ dq ++ js "política" ++ dq ++ js ")):not(:empty)" ].

Definition priceSelectors : list jsstring :=
  [ js ".price, .valor, .preco, .cost, .amount";
    js "[class*=" ++ dq ++ js "price" ++ dq ++ js "], [class*=" ++ dq
      ++ js "valor" ++ dq ++ js "], [class*=" ++ dq ++ js "preco" ++ dq ++ js "]" ].

Definition benefitSelectors : list jsstring :=
  [ js ".benefits li, .vantagens li, .features li";
    js "ul li:contains(" ++ dq ++ js "✓" ++ dq ++ js "), ul li:contains(" ++ dq
      ++ js "✅" ++ dq ++ js ")";
    js "li:contains(" ++ dq ++ js "Transforme" ++ dq ++ js "), li:contains("
      ++ dq ++ js "Alcance" ++ dq ++ js "), li:contains(" ++ dq ++ js "Aprenda"
      ++ dq ++ js ")" ].

Definition testimonialSelectors : list jsstring :=
  [ js ".testimonials, .depoimentos, .reviews";
    js "*:contains(" ++ dq ++ js "recomendo" ++ dq ++ js "), *:contains(" ++ dq
      ++ js "excelente" ++ dq ++ js "), *:contains(" ++ dq ++ js "funcionou"
      ++ dq ++ js ")" ].

Definition ctaSelectors : list jsstring :=
  [ js "a:contains(" ++ dq ++ js "COMPRAR" ++ dq ++ js "), button:contains("
      ++ dq ++ js "COMPRAR" ++ dq ++ js ")";
    js "a:contains(" ++ dq ++ js "QUERO" ++ dq ++ js "), button:contains("
      ++ dq ++ js "QUERO" ++ dq ++ js ")";
    js ".buy-button, .call-to-action, .btn-primary" ].

Definition videoSelector : jsstring :=
  js "video, iframe[src*=" ++ dq ++ js "youtube" ++ dq ++ js "], iframe[src*="
    ++ dq ++ js "vimeo" ++ dq ++ js "]".

Definition metaProperty (name : string) : jsstring :=
  js "meta[property=" ++ dq ++ js name ++ dq ++ js "]".
Definition metaName (name : string) : jsstring :=
  js "meta[name=" ++ dq ++ js name ++ dq ++ js "]".

(** ** The field extractor: [processExtractedHTML] *)

Section FieldExtractor.
Context `{P : Platform}.

(** [for (const selector of sels) { const element = $(selector).first();
    if (element.length) { ... if (accepted) { field = ...; break; } } }] *)
Fixpoint first_accepted (html : jsstring) (sels : list jsstring)
    (accept : Elem -> option jsstring) : jsstring :=
  match sels with
  | [] => []
  | sel :: rest =>
    match query html sel with
    | element :: _ =>
      match accept element with
      | Some v => v
      | None => first_accepted html rest accept
      end
    | [] => first_accepted html rest accept
    end
  end.

Definition accept_title (element : Elem) : option jsstring :=
  let title := or_else (el_attr element (js "content")) (el_text element) in
  if truthy title && (5 <? length (trim title))%nat
     && negb (includes (toLowerCase title) (js "error"))
  then Some (trim title) else None.

Definition accept_description (element : Elem) : option jsstring :=
  let description := or_else (el_attr element (js "content")) (el_text element) in
  if truthy description && (50 <? length (trim description))%nat
  then Some (substring0 500 (trim description)) else None.

Definition accept_cta (element : Elem) : option jsstring :=
  let cta := trim (el_text element) in
  if truthy cta && (3 <? length cta)%nat && (length cta <? 100)%nat
  then Some cta else None.

(** The [each] callback of the price loop, with the price found so far; the
    boolean is [false] for [return false], which ends the iteration over the
    elements. *)
Definition price_step (price : jsstring) (element : Elem) : jsstring * bool :=
  let text := trim (el_text element) in
  match regex_match price_regex text with
  | Some m => if negb (truthy price) then (m, false) else (price, true)
  | None => (price, true)
  end.

Fixpoint price_each (els : list Elem) (price : jsstring) : jsstring :=
  match els with
  | [] => price
  | element :: rest =>
    let '(price', continue) := price_step price element in
    if continue then price_each rest price' else price'
  end.

Fixpoint price_loop (html : jsstring) (sels : list jsstring) (price : jsstring)
    : jsstring :=
  match sels with
  | [] => price
  | selector :: rest =>
    let price' := price_each (query html selector) price in
    if truthy price' then price' else price_loop html rest price'
  end.

(** The specification's reading of the price rule: the first match of the
    pattern among the elements taken in order. *)
Definition first_price (els : list Elem) : option jsstring :=
  head (omap (fun element => regex_match price_regex (trim (el_text element))) els).

(** The callback shared by the benefits and the testimonials loops:
    [if (text && text.length > lo && text.length < hi && acc.length < cap)
       { if (!acc.includes(text)) acc.push(text); }] *)
Definition collect_step (lo hi cap : nat) (acc : list jsstring) (el : Elem)
    : list jsstring :=
  let text := trim (el_text el) in
  if truthy text && (lo <? length text)%nat && (length text <? hi)%nat
     && (length acc <? cap)%nat
  then if array_includes acc text then acc else acc ++ [text]
  else acc.

Fixpoint collect_loop (lo hi cap : nat) (html : jsstring) (sels : list jsstring)
    (acc : list jsstring) : list jsstring :=
  match sels with
  | [] => acc
  | selector :: rest =>
    let acc' := fold_left (collect_step lo hi cap) (query html selector) acc in
    if (cap <=? length acc')%nat then acc' else collect_loop lo hi cap html rest acc'
  end.

(** [$('img').each(...)]: [new URL(src, finalUrl)] throws on a source it
    cannot resolve, which ends the whole function. *)
Fixpoint images_each (imgs : list Elem) (finalUrl : jsstring) (acc : list Image)
    : result (list Image) :=
  match imgs with
  | [] => Ok acc
  | img :: rest =>
    let alt := or_else (el_attr img (js "alt")) [] in
    match el_attr img (js "src") with
    | Some s =>
      if truthy s && negb (includes s (js "data:")) && (length acc <? 10)%nat
      then
        if startsWith s (js "http")
        then images_each rest finalUrl (acc ++ [{| src := s; alt := alt |}])
        else
          match url_href s finalUrl with
          | Some href =>
            images_each rest finalUrl (acc ++ [{| src := href; alt := alt |}])
          | None => Throw (js "Invalid URL")
          end
      else images_each rest finalUrl acc
    | None => images_each rest finalUrl acc
    end
  end.

(** [$(video).find('source').attr('src')]: the attribute of the first
    element found. *)
Definition source_src (video : Elem) : option jsstring :=
  match el_find video (js "source") with
  | s :: _ => el_attr s (js "src")
  | [] => None
  end.

Definition videos_step (acc : list jsstring) (video : Elem) : list jsstring :=
  match or_undef (el_attr video (js "src")) (source_src video) with
  | Some s => if truthy s && (length acc <? 5)%nat then acc ++ [s] else acc
  | None => acc
  end.

(** [$(sel).attr('content') || ''] *)
Definition meta_content (html sel : jsstring) : jsstring :=
  match query html sel with
  | e :: _ => or_else (el_attr e (js "content")) []
  | [] => []
  end.

Definition processExtractedHTML (html finalUrl : jsstring) : result ContentRecord :=
  let title := first_accepted html titleSelectors accept_title in
  let description := first_accepted html descSelectors accept_description in
  let price := price_loop html priceSelectors [] in
  let benefits := collect_loop 10 200 8 html benefitSelectors [] in
  let testimonials := collect_loop 20 300 5 html testimonialSelectors [] in
  let cta := first_accepted html ctaSelectors accept_cta in
  match images_each (query html (js "img")) finalUrl [] with
  | Throw e => Throw e
  | Ok images =>
    let videos := fold_left videos_step (query html videoSelector) [] in
    Ok {| url := finalUrl;
          title := title;
          description := description;
          price := price;
          benefits := benefits;
          testimonials := testimonials;
          cta := cta;
          images := images;
          videos := videos;
          contact := {| email := regex_match email_regex html;
                        phone := regex_match phone_regex html |};
          metadata :=
            [ (js "ogTitle", meta_content html (metaProperty "og:title"));
              (js "ogDescription", meta_content html (metaProperty "og:description"));
              (js "ogImage", meta_content html (metaProperty "og:image"));
              (js "keywords", meta_content html (metaName "keywords"));
              (js "author", meta_content html (metaName "author")) ];
          extractionMethod := None |}
  end.

End FieldExtractor.

(** ** The default record: [getDefaultData] *)

Definition getDefaultData (url : jsstring) : ContentRecord :=
  {| url := url;
     title := js "Produto Incrível - Transforme Sua Vida Hoje!";
     description := js "Descubra este produto revolucionário que vai transformar completamente sua vida! Milhares de pessoas já alcançaram resultados extraordinários.";
     price := js "Oferta especial - Consulte o preço na página";
     benefits :=
       [ js "Resultados comprovados em tempo recorde";
         js "Suporte especializado 24/7";
         js "Garantia total de satisfação";
         js "Método exclusivo e inovador";
         js "Transformação completa garantida" ];
     testimonials :=
       [ js "Produto excelente, mudou minha vida completamente!";
         js "Recomendo para todos, resultados incríveis!";
         js "Funcionou perfeitamente, superou minhas expectativas!" ];
     cta := js "QUERO TRANSFORMAR MINHA VIDA AGORA!";
     images := [];
     videos := [];
     contact := {| email := None; phone := None |};
     metadata := [];
     extractionMethod := Some (js "fallback") |}.

(** ** Effects: the network, the browsers, the clock and the cache

    Every awaited library call returns or throws, and may change the world
    outside the process.  [World] is that outside; the calls are oracles over
    it.  [clock] is [Date.now()].  The calls of the logger and the random
    pick of a user agent, which is only passed along to the library, are left
    out.  A call of [extractData] is followed from its start to its end: what
    other requests do at its [await]s is not modelled. *)

Inductive Engine : Type := Puppeteer | Playwright.

Inductive BrowserOp : Type :=
| Launch | NewContext | NewPage | SetUserAgent | SetViewport
| SetRequestInterception | OnRequest | Route
| Goto (url : jsstring) | WaitForTimeout (ms : Z)
| Content | Url | Close.

Inductive Call : Type :=
| AxiosGet (url : jsstring)
| CloudscraperGet (url : jsstring)
| Browser (e : Engine) (op : BrowserOp).

Class Runtime : Type := {
  World : Type;
  axios_get : jsstring -> World -> result (jsstring * option jsstring) * World;
  cloudscraper_get : jsstring -> World -> result jsstring * World;
  browser_call : Engine -> BrowserOp -> World -> result unit * World;
  page_content : Engine -> World -> result jsstring * World;
  page_url : Engine -> World -> result jsstring * World;
  clock : World -> Z
}.

(** [{ success: true, html, finalUrl }] or [{ success: false, error }] *)
Inductive FetchResult : Type :=
| Fetched (html finalUrl : jsstring)
| Failed (error : jsstring).

Definition success (r : FetchResult) : bool :=
  match r with Fetched _ _ => true | Failed _ => false end.

Record CacheEntry : Type := { data : ContentRecord; timestamp : Z }.

Definition CACHE_TTL : Z := 3600000.

Definition is_ok {A} (r : result A) : bool :=
  match r with Ok _ => true | Throw _ => false end.

Section Extractor.
Context `{P : Platform} `{R : Runtime}.

(** The state a call runs in: the outside world, the module-level
    [dataCache], the local variable [browser] of the browser strategy that
    is running ([true] once it holds a browser), and the library calls made
    so far, each with whether it returned. *)
Record State : Type := {
  world : World;
  dataCache : gmap jsstring CacheEntry;
  browser : bool;
  trace : list (Call * bool)
}.

Definition M (A : Type) : Type := State -> result A * State.

Definition ret {A} (a : A) : M A := fun s => (Ok a, s).

Definition bind {A B} (m : M A) (k : A -> M B) : M B :=
  fun s =>
    match m s with
    | (Ok a, s') => k a s'
    | (Throw e, s') => (Throw e, s')
    end.

Definition throw {A} (e : jsstring) : M A := fun s => (Throw e, s).

(** A computation that touches nothing. *)
Definition lift {A} (r : result A) : M A := fun s => (r, s).

(** [try { m } catch (error) { h error.message }] *)
Definition try_catch {A} (m : M A) (h : jsstring -> M A) : M A :=
  fun s =>
    match m s with
    | (Ok a, s') => (Ok a, s')
    | (Throw e, s') => h e s'
    end.

(** [try { m } finally { f }]: [f] runs on every way out of [m]; when [f]
    throws, its exception replaces the outcome of [m]. *)
Definition finally {A} (m : M A) (f : M unit) : M A :=
  fun s =>
    let '(r, s') := m s in
    match f s' with
    | (Ok _, s'') => (r, s'')
    | (Throw e, s'') => (Throw e, s'')
    end.

Notation "x <- m ;; k" := (bind m (fun x => k))
  (at level 100, m at next level, right associativity).
Notation "m ;;; k" := (bind m (fun _ => k))
  (at level 100, right associativity).

(** [await call]: ask the oracle and record the call. *)
Definition await {A} (c : Call) (oracle : World -> result A * World) : M A :=
  fun s =>
    let '(r, w) := oracle (world s) in
    (r, {| world := w; dataCache := dataCache s; browser := browser s;
           trace := trace s ++ [(c, is_ok r)] |}).

Definition set_browser (b : bool) : M unit :=
  fun s =>
    (Ok tt, {| world := world s; dataCache := dataCache s; browser := b;
               trace := trace s |}).

Definition get_browser : M bool := fun s => (Ok (browser s), s).

Definition now : M Z := fun s => (Ok (clock (world s)), s).

Definition cache_get (key : jsstring) : M (option CacheEntry) :=
  fun s => (Ok (dataCache s !! key), s).

(** [dataCache.set(key, e)] *)
Definition stored (s : State) (key : jsstring) (e : CacheEntry) : State :=
  {| world := world s; dataCache := <[key := e]> (dataCache s);
     browser := browser s; trace := trace s |}.

Definition cache_set (key : jsstring) (e : CacheEntry) : M unit :=
  fun s => (Ok tt, stored s key e).

(** A state that differs from [s] by the world, the [browser] variable and
    calls added to the trace; the cache is the same. *)
Definition after (s : State) (w : World) (b : bool) (t : list (Call * bool))
    : State :=
  {| world := w; dataCache := dataCache s; browser := b; trace := trace s ++ t |}.

(** *** Strategy selection *)

Definition jsHeavySites : list jsstring :=
  [ js "facebook.com"; js "instagram.com"; js "linkedin.com"; js "twitter.com";
    js "x.com"; js "tiktok.com"; js "youtube.com"; js "pinterest.com";
    js "snapchat.com" ].

Definition cloudflareSites : list jsstring :=
  [ js "shopify.com"; js "wordpress.com"; js "wix.com"; js "squarespace.com" ].

Definition botBlockingSites : list jsstring :=
  [ js "amazon.com"; js "ebay.com"; js "mercadolivre.com"; js "aliexpress.com";
    js "booking.com"; js "airbnb.com" ].

(** The function is [async] but awaits nothing: it returns or throws. *)
Definition detectBestMethod (url : jsstring) : result jsstring :=
  match url_hostname url with
  | None => Throw (js "Invalid URL")
  | Some hostname =>
    let domain := toLowerCase hostname in
    if existsb (fun site => includes domain site) jsHeavySites
    then Ok (js "playwright")
    else if existsb (fun site => includes domain site) cloudflareSites
    then Ok (js "cloudscraper")
    else if existsb (fun site => includes domain site) botBlockingSites
    then Ok (js "puppeteer")
    else Ok (js "axios")
  end.

(** *** The fetch strategies *)

Definition extractWithAxios (url : jsstring) : M FetchResult :=
  try_catch
    (response <- await (AxiosGet url) (axios_get url) ;;
     let '(body, responseUrl) := response in
     ret (Fetched body (or_else responseUrl url)))
    (fun error => ret (Failed error)).

Definition extractWithCloudscraper (url : jsstring) : M FetchResult :=
  try_catch
    (response <- await (CloudscraperGet url) (cloudscraper_get url) ;;
     ret (Fetched response url))
    (fun error => ret (Failed error)).

Definition call (e : Engine) (op : BrowserOp) : M unit :=
  await (Browser e op) (browser_call e op).

(** [finally { if (browser) { await browser.close(); } }] *)
Definition close_browser (e : Engine) : M unit :=
  b <- get_browser ;;
  if b then call e Close else ret tt.

Definition extractWithPuppeteer (url : jsstring) : M FetchResult :=
  set_browser false ;;;
  finally
    (try_catch
       (call Puppeteer Launch ;;;
        set_browser true ;;;
        call Puppeteer NewPage ;;;
        call Puppeteer SetUserAgent ;;;
        call Puppeteer SetViewport ;;;
        call Puppeteer SetRequestInterception ;;;
        call Puppeteer OnRequest ;;;
        call Puppeteer (Goto url) ;;;
        call Puppeteer (WaitForTimeout 2000) ;;;
        html <- await (Browser Puppeteer Content) (page_content Puppeteer) ;;
        finalUrl <- await (Browser Puppeteer Url) (page_url Puppeteer) ;;
        ret (Fetched html finalUrl))
       (fun error => ret (Failed error)))
    (close_browser Puppeteer).

Definition extractWithPlaywright (url : jsstring) : M FetchResult :=
  set_browser false ;;;
  finally
    (try_catch
       (call Playwright Launch ;;;
        set_browser true ;;;
        call Playwright NewContext ;;;
        call Playwright NewPage ;;;
        call Playwright Route ;;;
        call Playwright (Goto url) ;;;
        call Playwright (WaitForTimeout 3000) ;;;
        html <- await (Browser Playwright Content) (page_content Playwright) ;;
        finalUrl <- await (Browser Playwright Url) (page_url Playwright) ;;
        ret (Fetched html finalUrl))
       (fun error => ret (Failed error)))
    (close_browser Playwright).

(** *** The orchestrator: [extractData] *)

(** The [switch] on the method name, written twice in the source (for the
    first attempt and inside the fallback loop) with the same cases. *)
Definition run_method (method url : jsstring) : M FetchResult :=
  if decide (method = js "cloudscraper") then extractWithCloudscraper url
  else if decide (method = js "puppeteer") then extractWithPuppeteer url
  else if decide (method = js "playwright") then extractWithPlaywright url
  else extractWithAxios url.

Definition allMethods : list jsstring :=
  [ js "axios"; js "cloudscraper"; js "puppeteer"; js "playwright" ].

(** [for (const fallbackMethod of fallbackMethods) { ...
      if (extractionResult.success) { method = fallbackMethod; break; } }] *)
Fixpoint fallback_loop (fallbackMethods : list jsstring) (url : jsstring)
    (extractionResult : FetchResult) (method : jsstring)
    : M (FetchResult * jsstring) :=
  match fallbackMethods with
  | [] => ret (extractionResult, method)
  | fallbackMethod :: rest =>
    r <- run_method fallbackMethod url ;;
    if success r then ret (r, fallbackMethod)
    else fallback_loop rest url r method
  end.

Definition cacheKey (url method : jsstring) : jsstring :=
  url ++ js "_" ++ method.

(** [cached && Date.now() - cached.timestamp < CACHE_TTL] *)
Definition fresh (cached : option CacheEntry) (t : Z) : option CacheEntry :=
  match cached with
  | Some c => if (t - timestamp c <? CACHE_TTL)%Z then Some c else None
  | None => None
  end.

(** The end of [extractData], from [if (!extractionResult.success) throw]
    to [return processedData]. *)
Definition finish (key : jsstring) (extractionResult : FetchResult)
    (method : jsstring) : M ContentRecord :=
  match extractionResult with
  | Failed _ => throw (js "Todos os métodos de extração falharam")
  | Fetched html finalUrl =>
    match processExtractedHTML html finalUrl with
    | Throw e => throw e
    | Ok extracted =>
      let processedData := set_extractionMethod extracted method in
      t <- now ;;
      cache_set key {| data := processedData; timestamp := t |} ;;;
      ret processedData
    end
  end.

Definition extractData (url method : jsstring) : M ContentRecord :=
  try_catch
    (let key := cacheKey url method in
     cached <- cache_get key ;;
     t <- now ;;
     match fresh cached t with
     | Some c => ret (data c)
     | None =>
       method <- (if decide (method = js "auto")
                  then lift (detectBestMethod url)
                  else ret method) ;;
       extractionResult <- run_method method url ;;
       attempt <- (if negb (success extractionResult)
                   then fallback_loop
                          (filter (fun m => m <> method) allMethods)
                          url extractionResult method
                   else ret (extractionResult, method)) ;;
       finish key (fst attempt) (snd attempt)
     end)
    (fun _ => ret (getDefaultData url)).

(** The first attempt and the fallback loop read as one loop over method
    names that stops at the first success and keeps the name that
    succeeded. *)
Fixpoint try_methods (methods : list jsstring) (url : jsstring)
    : M (option (jsstring * jsstring * jsstring)) :=
  match methods with
  | [] => ret None
  | m :: rest =>
    r <- run_method m url ;;
    match r with
    | Fetched html finalUrl => ret (Some (m, html, finalUrl))
    | Failed _ => try_methods rest url
    end
  end.

(** *** The strategies as the specification names them

    The specification speaks of four strategies and of a fixed order; the
    code speaks of method names and switches on them.  These definitions
    follow the specification's words; the properties below relate them to
    the code. *)

Inductive Strategy : Type :=
| Http | CloudflareHttp | LightweightBrowser | FullBrowser.

#[export] Instance Strategy_eq_dec : EqDecision Strategy.
Proof. solve_decision. Defined.

Definition name (st : Strategy) : jsstring :=
  match st with
  | Http => js "axios"
  | CloudflareHttp => js "cloudscraper"
  | LightweightBrowser => js "puppeteer"
  | FullBrowser => js "playwright"
  end.

(** The strategy a method name runs in the [switch] of [extractData]. *)
Definition strategy_of (method : jsstring) : Strategy :=
  if decide (method = js "cloudscraper") then CloudflareHttp
  else if decide (method = js "puppeteer") then LightweightBrowser
  else if decide (method = js "playwright") then FullBrowser
  else Http.

Definition run_strategy (st : Strategy) (url : jsstring) : M FetchResult :=
  match st with
  | Http => extractWithAxios url
  | CloudflareHttp => extractWithCloudscraper url
  | LightweightBrowser => extractWithPuppeteer url
  | FullBrowser => extractWithPlaywright url
  end.

Definition run_browser (e : Engine) (url : jsstring) : M FetchResult :=
  match e with
  | Puppeteer => extractWithPuppeteer url
  | Playwright => extractWithPlaywright url
  end.

Definition fixed_order : list Strategy :=
  [Http; CloudflareHttp; LightweightBrowser; FullBrowser].

(** "Execute the resolved strategy; if it fails, iterate the remaining
    strategies in the fixed order, excluding the one already tried,
    stopping at first success." *)
Definition chain (first : Strategy) : list Strategy :=
  first :: filter (fun st => st <> first) fixed_order.

(** "Each strategy exposes [fetch(url) -> FetchResult] and must never throw
    past its boundary: all failures are captured and returned as
    [success:false]."  The strategy as the specification has it: what the
    function of the source throws counts as a failure. *)
Definition fetch (st : Strategy) (url : jsstring) (s : State)
    : FetchResult * State :=
  match run_strategy st url s with
  | (Ok r, s') => (r, s')
  | (Throw e, s') => (Failed e, s')
  end.

Fixpoint first_success (sts : list Strategy) (url : jsstring) (s : State)
    : option (Strategy * jsstring * jsstring) * State :=
  match sts with
  | [] => (None, s)
  | st :: rest =>
    match fetch st url s with
    | (Fetched html finalUrl, s') => (Some (st, html, finalUrl), s')
    | (Failed _, s') => first_success rest url s'
    end
  end.

(** The strategies that are attempted: those before the first success, and
    the one that succeeds. *)
Fixpoint attempted (sts : list Strategy) (url : jsstring) (s : State)
    : list Strategy :=
  match sts with
  | [] => []
  | st :: rest =>
    st :: match fetch st url s with
          | (Fetched _ _, _) => []
          | (Failed _, s') => attempted rest url s'
          end
  end.

(** "On any success, run the Field Extractor, tag [extractionMethod], write
    the CacheEntry, return the record"; "if every strategy fails, return the
    Default Record Generator's output for this URL".  The markup comes with
    the method name to tag the record with.  An exception of the field
    extractor also ends in the default record. *)
Definition deliver (url key : jsstring)
    (found : option (jsstring * jsstring * jsstring)) : M ContentRecord :=
  match found with
  | None => ret (getDefaultData url)
  | Some (method, html, finalUrl) =>
    match processExtractedHTML html finalUrl with
    | Ok extracted =>
      let tagged := set_extractionMethod extracted method in
      t <- now ;;
      cache_set key {| data := tagged; timestamp := t |} ;;;
      ret tagged
    | Throw _ => ret (getDefaultData url)
    end
  end.

Definition tag (found : Strategy * jsstring * jsstring)
    : jsstring * jsstring * jsstring :=
  let '(st, html, finalUrl) := found in (name st, html, finalUrl).

(** Steps 3 to 6 of the orchestrator as the specification words them, for
    the strategy [first] that step 2 resolved: the strategies of the chain
    are tried until the first success, whatever way the earlier ones
    failed. *)
Definition orchestrate (url key : jsstring) (first : Strategy) : M ContentRecord :=
  fun s =>
    let '(found, s') := first_success (chain first) url s in
    deliver url key (tag <$> found) s'.

(** Step 2: the method name the request resolves to, when it does. *)
Definition resolve (url method : jsstring) : result jsstring :=
  if decide (method = js "auto") then detectBestMethod url else Ok method.

(** The request resolves to the strategy [first]. *)
Definition resolves (url method : jsstring) (first : Strategy) : Prop :=
  resolve url method = Ok (name first).

(** The strategies [extractData] runs, in order, when none of them succeeds
    and none throws. *)
Definition planned (url method : jsstring) : list Strategy :=
  match resolve url method with
  | Ok m => map strategy_of (m :: filter (fun m' => m' <> m) allMethods)
  | Throw _ => []
  end.

(** The loop over the method names and the delivery, under the [catch] of
    [extractData]. *)
Definition attempt_all (url key : jsstring) (methods : list jsstring)
    : M ContentRecord :=
  try_catch
    (found <- try_methods methods url ;; deliver url key found)
    (fun _ => ret (getDefaultData url)).

(** The strategies [sts], run one after the other from the state [s] as a
    call runs them, all fail: each returns a failure result, or throws, which
    ends the run.  None returns markup. *)
Fixpoint fail_from (sts : list Strategy) (url : jsstring) (s : State) : Prop :=
  match sts with
  | [] => True
  | st :: rest =>
    match run_strategy st url s with
    | (Ok (Fetched _ _), _) => False
    | (Ok (Failed _), s') => fail_from rest url s'
    | (Throw _, _) => True
    end
  end.

(** Every strategy that the call of [extractData] for [url] and [method]
    runs from the state [s] fails. *)
Definition fails_in_call (url method : jsstring) (s : State) : Prop :=
  fail_from (planned url method) url s.

(** None of the strategies [sts], run one after the other from the state [s]
    until one succeeds, throws. *)
Fixpoint no_throw (sts : list Strategy) (url : jsstring) (s : State) : Prop :=
  match sts with
  | [] => True
  | st :: rest =>
    match run_strategy st url s with
    | (Ok (Fetched _ _), _) => True
    | (Ok (Failed _), s') => no_throw rest url s'
    | (Throw _, _) => False
    end
  end.

(** The cache has no fresh entry for the request in state [s]. *)
Definition miss (url method : jsstring) (s : State) : Prop :=
  fresh (dataCache s !! cacheKey url method) (clock (world s)) = None.

(** *** Reading the trace *)

(** The library call that starts a fetch by a strategy. *)
Definition attempt_of (ev : Call * bool) : option Strategy :=
  match fst ev with
  | AxiosGet _ => Some Http
  | CloudscraperGet _ => Some CloudflareHttp
  | Browser Puppeteer Launch => Some LightweightBrowser
  | Browser Playwright Launch => Some FullBrowser
  | _ => None
  end.

(** The strategies a trace shows to have been attempted, in order. *)
Definition attempts (t : list (Call * bool)) : list Strategy := omap attempt_of t.

Definition is_close (ev : Call * bool) : bool :=
  match fst ev with
  | Browser _ Close => true
  | _ => false
  end.

Definition engine_strategy (e : Engine) : Strategy :=
  match e with
  | Puppeteer => LightweightBrowser
  | Playwright => FullBrowser
  end.

(** What the library does on a call in the world [w]: whether it returns,
    and the world it leaves. *)
Definition outcome (c : Call) (w : World) : bool * World :=
  match c with
  | AxiosGet url => let '(r, w') := axios_get url w in (is_ok r, w')
  | CloudscraperGet url => let '(r, w') := cloudscraper_get url w in (is_ok r, w')
  | Browser e Content => let '(r, w') := page_content e w in (is_ok r, w')
  | Browser e Url => let '(r, w') := page_url e w in (is_ok r, w')
  | Browser e op => let '(r, w') := browser_call e op w in (is_ok r, w')
  end.

(** The world after the calls of the trace [t] have been made on the library,
    in order, from the world [w], when each has the outcome the trace
    records; [None] when the trace records a call that was not made so. *)
Fixpoint replay (t : list (Call * bool)) (w : World) : option World :=
  match t with
  | [] => Some w
  | (c, ok) :: t' =>
    let '(ok', w') := outcome c w in
    if Bool.eqb ok ok' then replay t' w' else None
  end.

(** What a browser strategy leaves in the trace: a launch that failed and
    nothing else, or a launch that succeeded, then calls on the browser, then
    a single [close], last. *)
Definition closed_run (e : Engine) (t : list (Call * bool)) : Prop :=
  t = [(Browser e Launch, false)]
  \/ (head t = Some (Browser e Launch, true)
      /\ (exists ok, last t = Some (Browser e Close, ok))
      /\ length (filter (fun ev => is_close ev = true) t) = 1%nat).

End Extractor.

(** ** Concrete platforms and runtimes, to run the model on *)

Module Sample.

(** An element with its text, its attributes and the [src] of its first
    [source] child when it has one. *)
Record el : Type := {
  el_txt : jsstring;
  el_attrs : list (jsstring * jsstring);
  el_source : option jsstring
}.

Definition lookup_attr (e : el) (name : jsstring) : option jsstring :=
  snd <$> find (fun kv => bool_decide (fst kv = name)) (el_attrs e).

(** A page lists, for the selectors that match something, what they match. *)
Definition page : Type := list (jsstring * list el).

Definition select (p : page) (sel : jsstring) : list el :=
  match find (fun kv => bool_decide (fst kv = sel)) p with
  | Some kv => snd kv
  | None => []
  end.

(** Absolute [http(s)://host/...] addresses parse; the host ends at the
    first [/]. *)
Fixpoint upto_slash (s : jsstring) : jsstring :=
  match s with
  | [] => []
  | c :: t => if c =? 47 then [] else c :: upto_slash t
  end.

Definition hostname (u : jsstring) : option jsstring :=
  if startsWith u (js "https://") then Some (asciiLowerCase (upto_slash (drop 8 u)))
  else if startsWith u (js "http://") then Some (asciiLowerCase (upto_slash (drop 7 u)))
  else None.

(** A relative reference resolves unless it has a bracket in it. *)
Definition href (s base : jsstring) : option jsstring :=
  if includes s (js "[") then None else Some (base ++ s).

(** The platform in which every markup parses to the page [pages] gives it. *)
Definition platform (pages : jsstring -> page) : Platform :=
  {| Elem := el;
     query := fun html sel => select (pages html) sel;
     el_attr := lookup_attr;
     el_text := el_txt;
     el_find := fun e sel =>
       match el_source e with
       | Some s =>
         if bool_decide (sel = js "source")
         then [{| el_txt := []; el_attrs := [(js "src", s)]; el_source := None |}]
         else []
       | None => []
       end;
     url_hostname := hostname;
     url_href := href;
     toLowerCase := asciiLowerCase |}.

(** A scripted world: the outcomes of the coming fetches (a request of
    [axios] or [cloudscraper], or the launch of a browser), in order, and the
    time.  [true] serves the markup [served]; the fetches after the script
    fail.  Every library call takes a second. *)
Record scripted : Type := { script : list bool; time : Z }.

Definition tick (w : scripted) : scripted :=
  {| script := script w; time := (time w + 1000)%Z |}.

Definition next {A} (w : scripted) (a : A) : result A * scripted :=
  match script w with
  | true :: rest => (Ok a, {| script := rest; time := (time w + 1000)%Z |})
  | false :: rest =>
    (Throw (js "ECONNREFUSED"), {| script := rest; time := (time w + 1000)%Z |})
  | [] => (Throw (js "ECONNREFUSED"), tick w)
  end.

Definition runtime (served : jsstring) (close_throws : bool) : Runtime :=
  {| World := scripted;
     axios_get := fun _ w => next w (served, None);
     cloudscraper_get := fun _ w => next w served;
     browser_call := fun _ op w =>
       match op with
       | Launch => next w tt
       | Close =>
         if close_throws then (Throw (js "Target closed"), tick w)
         else (Ok tt, tick w)
       | _ => (Ok tt, tick w)
       end;
     page_content := fun _ w => (Ok served, tick w);
     page_url := fun _ w => (Ok (js "https://loja.example/produto"), tick w);
     clock := time |}.

(** A world in which nothing can be fetched: the requests fail and the
    browsers do not start.  The world is the time. *)
Definition offline : Runtime :=
  {| World := Z;
     axios_get := fun _ w => (Throw (js "ENOTFOUND"), (w + 1000)%Z);
     cloudscraper_get := fun _ w => (Throw (js "ENOTFOUND"), (w + 1000)%Z);
     browser_call := fun _ op w =>
       match op with
       | Launch => (Throw (js "Failed to launch the browser process"), (w + 1000)%Z)
       | _ => (Ok tt, (w + 1000)%Z)
       end;
     page_content := fun _ w => (Ok [], (w + 1000)%Z);
     page_url := fun _ w => (Ok [], (w + 1000)%Z);
     clock := fun w => w |}.

Definition start (R : Runtime) (w : @World R) : @State R :=
  {| world := w; dataCache := ∅; browser := false; trace := [] |}.

Definition text_el (txt : string) : el :=
  {| el_txt := js txt; el_attrs := []; el_source := None |}.

Definition img_el (source : string) : el :=
  {| el_txt := []; el_attrs := [(js "src", js source)]; el_source := None |}.

(** A product page: a price inside a sentence, ten list items of which two
    repeat an earlier one, and twelve images. *)
Definition shop : page :=
  [ (js ".price, .valor, .preco, .cost, .amount",
     [ text_el "  Frete para todo o Brasil ";
       text_el " Por apenas R$ 199,90 à vista " ]);
    (js ".benefits li, .vantagens li, .features li",
     [ text_el "Entrega em todo o Brasil"; text_el "Garantia de doze meses";
       text_el "Entrega em todo o Brasil"; text_el "Suporte por telefone";
       text_el "Pagamento em dez vezes"; text_el "Troca sem custo algum";
       text_el "Garantia de doze meses"; text_el "Manual em português";
       text_el "Assistência em todo o país"; text_el "Embalagem para presente";
       text_el "Frete grátis acima de cem"; text_el "Cupom na segunda compra" ]);
    (js "img",
     [ img_el "/a.png"; img_el "/b.png"; img_el "/c.png"; img_el "/d.png";
       img_el "/e.png"; img_el "/f.png"; img_el "/g.png"; img_el "/h.png";
       img_el "/i.png"; img_el "/j.png"; img_el "/k.png"; img_el "/l.png" ]) ].

(** A page with an image whose source does not resolve. *)
Definition broken : page := [ (js "img", [ img_el "//[" ]) ].

Definition shop_platform : Platform := platform (fun _ => shop).
Definition broken_platform : Platform := platform (fun _ => broken).

Definition markup : jsstring := js "<html><body>...</body></html>".
Definition product : jsstring := js "https://loja.example/produto".
Definition amazon : jsstring := js "https://www.Amazon.com/dp/B0CX23V2ZK".

(** The world in which [markup] is served, and its state before any call,
    for a script of fetch outcomes. *)
Definition online : Runtime := runtime markup false.

Definition at_start (fetches : list bool) : @State online :=
  start online {| script := fetches; time := 0 |}.

(** The state [s] when the clock reads [t] and the coming fetches would go
    as [fetches]. *)
Definition at_time (s : @State online) (fetches : list bool) (t : Z)
    : @State online :=
  @Build_State online {| script := fetches; time := t |} (dataCache s)
    (browser s) (trace s).

End Sample.

(** ** What a pattern matches

    The words of a pattern, independently of how the matcher searches for
    them.  A repetition is unfolded one iteration at a time, with its bounds
    counted down as [iterate] counts them. *)
Inductive lang : regex -> jsstring -> Prop :=
| lang_class (p : N -> bool) (c : N) :
    p c = true -> lang (Class p) [c]
| lang_seq (a b : regex) (u v : jsstring) :
    lang a u -> lang b v -> lang (Seq a b) (u ++ v)
| lang_alt_l (a b : regex) (u : jsstring) :
    lang a u -> lang (Alt a b) u
| lang_alt_r (a b : regex) (u : jsstring) :
    lang b u -> lang (Alt a b) u
| lang_rep_stop (hi : option nat) (a : regex) :
    lang (Repeat 0 hi a) []
| lang_rep_more (lo : nat) (hi : option nat) (a : regex) (u v : jsstring) :
    hi <> Some 0%nat -> u <> [] ->
    lang a u -> lang (Repeat (pred lo) (pred <$> hi) a) v ->
    lang (Repeat lo hi a) (u ++ v).

(** Every code unit that the classes of a pattern accept satisfies [q]. *)
Fixpoint classes_within (q : N -> bool) (r : regex) : Prop :=
  match r with
  | Class p => forall c, p c = true -> q c = true
  | Seq a b | Alt a b => classes_within q a /\ classes_within q b
  | Repeat _ _ a => classes_within q a
  end.

(** What may follow the currency mark in a price: white space, digits, [.]
    and [,]. *)
Definition amount_char (c : N) : bool :=
  is_space c || is_digit c || one_of ".," c.

(** What a phone number is made of: digits, parentheses, white space and
    [-]. *)
Definition phone_char (c : N) : bool :=
  is_digit c || is_space c || one_of "()-" c.

(** ** The route [GET /extract]

    What the handler sends: a status with the record and the time of the
    reply (the source formats it with [toISOString]), or a status with an
    error message. *)
Inductive Reply : Type :=
| ReplyData (status : Z) (record : ContentRecord) (time : Z)
| ReplyError (status : Z) (error : jsstring).

(** Truthiness of a value that is a string, or absent ([undefined] or
    [null]). *)
Definition truthy_opt (x : option jsstring) : bool :=
  match x with
  | Some v => truthy v
  | None => false
  end.

Section Routes.
Context `{P : Platform} `{R : Runtime}.

Notation "x <- m ;; k" := (bind m (fun x => k))
  (at level 100, m at next level, right associativity).

(** [const { url, method = 'auto' } = req.query]: the parameters are strings
    where they are present, and the default stands for an absent one only. *)
Definition route_extract (url method : option jsstring) : M Reply :=
  try_catch
    (let method := default (js "auto") method in
     match url with
     | Some u =>
       if truthy u
       then extractedData <- extractData u method ;;
            t <- now ;;
            ret (ReplyData 200 extractedData t)
       else ret (ReplyError 400 (js "URL é obrigatória"))
     | None => ret (ReplyError 400 (js "URL é obrigatória"))
     end)
    (fun _ => ret (ReplyError 500 (js "Erro interno do servidor"))).

End Routes.

(** ** The conversational engine: intents

    The intents are the keys of [intentPatterns], in the order the object
    literal lists them (the order of [Object.entries]), and [general]. *)
Inductive Intent : Type :=
| Greeting | Price | Benefits | HowItWorks | Guarantee | Testimonials
| Bonus | Purchase | Doubt | Objection | General.

#[export] Instance Intent_eq_dec : EqDecision Intent.
Proof. solve_decision. Defined.

Definition intentPatterns : list (Intent * list jsstring) :=
  [ (Greeting, [js "olá"; js "oi"; js "bom dia"; js "boa tarde"; js "boa noite";
                js "hey"; js "e aí"]);
    (Price, [js "preço"; js "valor"; js "custa"; js "investimento"; js "quanto";
             js "custo"]);
    (Benefits, [js "benefício"; js "vantagem"; js "o que ganho"; js "vantagens";
                js "benefícios"]);
    (HowItWorks, [js "como funciona"; js "funciona"; js "método"; js "processo";
                  js "como é"]);
    (Guarantee, [js "garantia"; js "seguro"; js "risco"; js "devolução";
                 js "reembolso"]);
    (Testimonials, [js "depoimento"; js "opinião"; js "funciona mesmo";
                    js "resultado"; js "avaliação"]);
    (Bonus, [js "bônus"; js "extra"; js "brinde"; js "grátis"; js "adicional"]);
    (Purchase, [js "comprar"; js "adquirir"; js "quero"; js "como compro";
                js "onde compro"]);
    (Doubt, [js "dúvida"; js "pergunta"; js "ajuda"; js "não entendi";
             js "explica"]);
    (Objection, [js "caro"; js "não tenho dinheiro"; js "não funciona";
                 js "não acredito"; js "desconfiança"]) ].

(** [for (const [intent, patterns] of Object.entries(this.intentPatterns))
      if (patterns.some(pattern => lowerMessage.includes(pattern)))
        return intent;
    return 'general';] *)
Fixpoint first_intent (lowerMessage : jsstring)
    (entries : list (Intent * list jsstring)) : Intent :=
  match entries with
  | [] => General
  | (intent, patterns) :: rest =>
    if existsb (fun pattern => includes lowerMessage pattern) patterns
    then intent
    else first_intent lowerMessage rest
  end.

Definition analyzeIntent `{P : Platform} (message : jsstring) : Intent :=
  first_intent (toLowerCase message) intentPatterns.

(** The patterns that can never give their own intent: each contains a
    pattern of an intent listed earlier. *)
Definition shadowed : list (Intent * jsstring) :=
  [ (Testimonials, js "depoimento"); (Testimonials, js "funciona mesmo");
    (Objection, js "não funciona") ].

(** ** Deep links: [encodeURIComponent] and [generateDeepLinks] *)

(** The code units [encodeURIComponent] leaves as they are: letters, digits
    and [- _ . ! ~ * ' ( )]. *)
Definition unreserved (c : N) : bool :=
  is_alpha c || is_digit c || one_of "-_.!~*'()" c.

Definition hex_digit (n : N) : N :=
  if n <? 10 then 48 + n else 55 + n.

(** [%XX] for an octet. *)
Definition percent (octet : N) : jsstring :=
  [37; hex_digit (octet / 16); hex_digit (octet mod 16)].

(** The UTF-8 octets of a code point. *)
Definition utf8 (cp : N) : list N :=
  if cp <? 128 then [cp]
  else if cp <? 2048 then [192 + cp / 64; 128 + cp mod 64]
  else if cp <? 65536
  then [224 + cp / 4096; 128 + (cp / 64) mod 64; 128 + cp mod 64]
  else [240 + cp / 262144; 128 + (cp / 4096) mod 64;
        128 + (cp / 64) mod 64; 128 + cp mod 64].

Definition is_lead (c : N) : bool := (55296 <=? c) && (c <=? 56319).
Definition is_trail (c : N) : bool := (56320 <=? c) && (c <=? 57343).

(** [encodeURIComponent]: a surrogate that is not half of a pair throws
    [URIError]. *)
Fixpoint encodeURIComponent (s : jsstring) : result jsstring :=
  match s with
  | [] => Ok []
  | c :: t =>
    if unreserved c then
      match encodeURIComponent t with
      | Ok out => Ok (c :: out)
      | Throw e => Throw e
      end
    else if is_trail c then Throw (js "URI malformed")
    else if is_lead c then
      match t with
      | c2 :: t' =>
        if is_trail c2 then
          match encodeURIComponent t' with
          | Ok out =>
            Ok (flat_map percent
                  (utf8 ((c - 55296) * 1024 + (c2 - 56320) + 65536)) ++ out)
          | Throw e => Throw e
          end
        else Throw (js "URI malformed")
      | [] => Throw (js "URI malformed")
      end
    else
      match encodeURIComponent t with
      | Ok out => Ok (flat_map percent (utf8 c) ++ out)
      | Throw e => Throw e
      end
  end.

(** [String.prototype.isWellFormed]: every surrogate is half of a pair. *)
Fixpoint well_formed (s : jsstring) : bool :=
  match s with
  | [] => true
  | c :: t =>
    if is_trail c then false
    else if is_lead c then
      match t with
      | c2 :: t' => is_trail c2 && well_formed t'
      | [] => false
      end
    else well_formed t
  end.

(** The links object: [mobile] and [web] are [undefined] ([None]) only when
    the platform name hits a property that every object inherits;
    [preferred] is also [None] when the key is not there. *)
Record Links : Type := {
  mobile : option jsstring;
  web : option jsstring;
  preferred : option jsstring
}.

(** The platforms of the table, with the links that do not depend on the
    content given first. *)
Definition platformLinks (platform encodedContent : jsstring)
    : option (jsstring * jsstring) :=
  if decide (platform = js "whatsapp") then
    Some (js "whatsapp://send?text=" ++ encodedContent,
          js "https://wa.me/?text=" ++ encodedContent)
  else if decide (platform = js "instagram") then
    Some (js "instagram://", js "https://www.instagram.com/")
  else if decide (platform = js "facebook") then
    Some (js "fb://",
          js "https://www.facebook.com/sharer/sharer.php?u=" ++ encodedContent)
  else if decide (platform = js "twitter") then
    Some (js "twitter://post?message=" ++ encodedContent,
          js "https://twitter.com/intent/tweet?text=" ++ encodedContent)
  else if decide (platform = js "linkedin") then
    Some (js "linkedin://",
          js "https://www.linkedin.com/sharing/share-offsite/?url="
            ++ encodedContent)
  else if decide (platform = js "telegram") then
    Some (js "tg://msg?text=" ++ encodedContent,
          js "https://t.me/share/url?text=" ++ encodedContent)
  else if decide (platform = js "youtube") then
    Some (js "youtube://", js "https://www.youtube.com/")
  else if decide (platform = js "tiktok") then
    Some (js "tiktok://", js "https://www.tiktok.com/")
  else None.

Definition platforms : list jsstring :=
  [ js "whatsapp"; js "instagram"; js "facebook"; js "twitter"; js "linkedin";
    js "telegram"; js "youtube"; js "tiktok" ].

(** The properties every object literal inherits from [Object.prototype]:
    [links[platform]] finds them too, and what it finds (a function, or the
    prototype itself) is truthy and has no [mobile] nor [web]. *)
Definition objectPrototypeKeys : list jsstring :=
  [ js "constructor"; js "__defineGetter__"; js "__defineSetter__";
    js "hasOwnProperty"; js "__lookupGetter__"; js "__lookupSetter__";
    js "isPrototypeOf"; js "propertyIsEnumerable"; js "toString";
    js "valueOf"; js "__proto__"; js "toLocaleString" ].

Definition generateDeepLinks (platform content : jsstring) (isMobile : bool)
    : result Links :=
  match encodeURIComponent content with
  | Throw e => Throw e
  | Ok encodedContent =>
    match platformLinks platform encodedContent with
    | Some (m, w) =>
      Ok {| mobile := Some m; web := Some w;
            preferred := Some (if isMobile then m else w) |}
    | None =>
      if bool_decide (platform ∈ objectPrototypeKeys)
      then Ok {| mobile := None; web := None; preferred := None |}
      else Ok {| mobile := Some []; web := Some []; preferred := None |}
    end
  end.

(** The code units of a link: what [encodeURIComponent] produces and the
    punctuation of the fixed prefixes. *)
Definition link_char (c : N) : bool :=
  unreserved c || one_of "%:/?=" c.

(** [detectMobileDevice]: [MobileDetect] and [UAParser] are libraries; what
    they answer for a user agent (a string or [undefined]) is given. *)
Class Device : Type := {
  OsInfo : Type;
  BrowserInfo : Type;
  md_mobile : option jsstring -> option jsstring;
  md_tablet : option jsstring -> option jsstring;
  getOS : option jsstring -> OsInfo;
  getBrowser : option jsstring -> BrowserInfo
}.

Record DeviceInfo `{D : Device} : Type := {
  isMobile : bool;
  isTablet : bool;
  isDesktop : bool;
  device : jsstring;
  os : OsInfo;
  browser_info : BrowserInfo
}.

Definition detectMobileDevice `{D : Device} (userAgent : option jsstring)
    : DeviceInfo :=
  {| isMobile := bool_decide (md_mobile userAgent <> None);
     isTablet := bool_decide (md_tablet userAgent <> None);
     isDesktop := negb (truthy_opt (md_mobile userAgent))
                  && negb (truthy_opt (md_tablet userAgent));
     device := if truthy_opt (md_mobile userAgent)
               then default [] (md_mobile userAgent)
               else if truthy_opt (md_tablet userAgent)
               then default [] (md_tablet userAgent)
               else js "desktop";
     os := getOS userAgent;
     browser_info := getBrowser userAgent |}.

Inductive LinkReply `{D : Device} : Type :=
| LinkData (status : Z) (links : Links) (deviceInfo : DeviceInfo) (time : Z)
| LinkError (status : Z) (error : jsstring).

Section DeepLinkRoute.
Context `{P : Platform} `{R : Runtime} `{D : Device}.

Notation "x <- m ;; k" := (bind m (fun x => k))
  (at level 100, m at next level, right associativity).

(** [app.post('/generate-deeplink')]: [platform], [content] and [userAgent]
    are the strings of the request body where they are present, [header] is
    the [user-agent] header. *)
Definition route_deeplink (platform content userAgent header : option jsstring)
    : M LinkReply :=
  try_catch
    (if negb (truthy_opt platform) || negb (truthy_opt content)
     then ret (LinkError 400 (js "Platform e content são obrigatórios"))
     else
       let deviceInfo :=
         detectMobileDevice (if truthy_opt userAgent then userAgent else header) in
       deepLinks <- lift (generateDeepLinks (default [] platform)
                            (default [] content) (isMobile deviceInfo)) ;;
       t <- now ;;
       ret (LinkData 200 deepLinks deviceInfo t))
    (fun _ => ret (LinkError 500 (js "Erro interno do servidor"))).

End DeepLinkRoute.

(** ** The conversational engine: replies

    A template literal is the concatenation of its parts; [nl] is the
    line feed of [\n]. *)
Definition nl : jsstring := [10].

(** [Array.prototype.join] on strings. *)
Fixpoint join (sep : jsstring) (l : list jsstring) : jsstring :=
  match l with
  | [] => []
  | [x] => x
  | x :: r => x ++ sep ++ join sep r
  end.

(** A number of a template literal, in decimal. *)
Fixpoint uint_units (d : Decimal.uint) : jsstring :=
  match d with
  | Decimal.Nil => []
  | Decimal.D0 d => 48 :: uint_units d
  | Decimal.D1 d => 49 :: uint_units d
  | Decimal.D2 d => 50 :: uint_units d
  | Decimal.D3 d => 51 :: uint_units d
  | Decimal.D4 d => 52 :: uint_units d
  | Decimal.D5 d => 53 :: uint_units d
  | Decimal.D6 d => 54 :: uint_units d
  | Decimal.D7 d => 55 :: uint_units d
  | Decimal.D8 d => 56 :: uint_units d
  | Decimal.D9 d => 57 :: uint_units d
  end.

Definition decimal (n : nat) : jsstring := uint_units (Nat.to_uint n).

(** [l.slice(-n)] *)
Definition lastn {A} (n : nat) (l : list A) : list A :=
  drop (length l - n) l.

Definition CONVERSATION_TTL : Z := 7200000.

Inductive Role : Type := User | Assistant.

Definition role_name (r : Role) : jsstring :=
  match r with
  | User => js "user"
  | Assistant => js "assistant"
  end.

(** An entry of a conversation: [{ role, message, timestamp, intent }], the
    intent on the entries of the assistant only. *)
Module Turn.
Record t : Type := {
  role : Role;
  message : jsstring;
  timestamp : Z;
  intent : option Intent
}.
End Turn.

(** [{ previousMessages, intent, conversationLength }] *)
Module Context.
Record t : Type := {
  previousMessages : list Turn.t;
  intent : Intent;
  conversationLength : nat
}.
End Context.

(** The body of the request to the completion service: the model, the
    messages as pairs of a role and a content, the token limit and the
    [Authorization] header.  The sampling options, the other headers and the
    time-out are fixed and left to the service. *)
Record ApiRequest : Type := {
  endpoint : jsstring;
  model : jsstring;
  messages : list (jsstring * jsstring);
  max_tokens : Z;
  authorization : jsstring
}.

(** What the code reads of the answer: [response.status] and
    [response.data.choices?.[0]?.message?.content]. *)
Record ApiResponse : Type := {
  status : Z;
  content : option jsstring
}.

(** The [message] of a chat request: a string, or a truthy value of the
    body that is not a string. *)
Inductive Message : Type :=
| Text (s : jsstring)
| NotText.

(** The templates that read the page only. *)
Definition generatePriceResponse (pageData : ContentRecord) : jsstring :=
  concat
    [ js "💰 **Sobre o investimento no "; dq; title pageData; dq; js ":**";
      nl; nl; js "**"; price pageData; js "**"; nl; nl;
      js "🎯 **Por que vale cada centavo:**"; nl;
      join nl ((fun b => js "• " ++ b) <$> take 3 (benefits pageData)); nl;
      nl;
      js "💡 **Pense assim:** Quanto você gastaria tentando descobrir isso sozinho? Quanto tempo perderia?";
      nl; nl; js "⏰ **Esta oferta é por tempo limitado!**"; nl; nl;
      js "🔥 **"; cta pageData; js "**"; nl; nl;
      js "Quer saber sobre garantias ou bônus exclusivos?" ].

Definition generateBenefitsResponse (pageData : ContentRecord) : jsstring :=
  concat
    [ js "✅ **Os benefícios TRANSFORMADORES do "; dq; title pageData; dq;
      js ":**"; nl; nl;
      join (nl ++ nl) (imap (fun i benefit => decimal (i + 1) ++ js ". 🎯 " ++ benefit) (benefits pageData));
      nl; nl; js "🚀 **Imagine sua vida com todos esses resultados!**"; nl;
      nl; js "💬 **Veja o que nossos clientes dizem:**"; nl; dq;
      or_else (head (testimonials pageData)) (js "Produto incrível, mudou minha vida!");
      dq; js "."; nl; nl; js "💰 **Investimento:** "; price pageData; nl;
      nl; js "🔥 **"; cta pageData; js "**" ].

Definition generateHowItWorksResponse (pageData : ContentRecord) : jsstring :=
  concat
    [ js "🔥 **Como o "; dq; title pageData; dq;
      js " funciona na prática:**"; nl; nl; description pageData; nl; nl;
      js "**📋 Processo simples em 3 passos:**"; nl;
      js "1. 🎯 Você adquire o produto"; nl;
      js "2. 📚 Aplica as estratégias ensinadas"; nl;
      js "3. 🚀 Vê os resultados transformadores"; nl; nl;
      js "**✅ Principais resultados que você vai alcançar:**"; nl;
      join nl ((fun b => js "• " ++ b) <$> take 3 (benefits pageData)); nl;
      nl; js "🛡️ **Com garantia total de satisfação!**"; nl; nl; js "💪 **";
      cta pageData; js "**" ].

Definition generateGuaranteeResponse (pageData : ContentRecord) : jsstring :=
  concat
    [ js "🛡️ **GARANTIA TOTAL no "; dq; title pageData; dq; js "!**"; nl;
      nl; js "✅ **Você está 100% protegido:**"; nl;
      js "• Garantia incondicional de satisfação"; nl;
      js "• Se não ficar satisfeito, devolvemos seu dinheiro"; nl;
      js "• Sem perguntas, sem complicações"; nl;
      js "• Risco ZERO para você"; nl; nl;
      js "💡 **Por que oferecemos essa garantia?**"; nl;
      js "Porque temos CERTEZA absoluta de que o "; title pageData;
      js " vai transformar sua vida!"; nl; nl;
      js "💬 **Veja os resultados reais:**"; nl; dq;
      or_else (head (testimonials pageData)) (js "Funcionou perfeitamente, superou minhas expectativas!");
      dq; js "."; nl; nl;
      js "🎯 **Você não tem nada a perder e TUDO a ganhar!**"; nl; nl;
      js "✅ **"; cta pageData; js "**" ].

Definition generateTestimonialsResponse (pageData : ContentRecord) : jsstring :=
  let testimonials :=
    if (0 <? length (testimonials pageData))%nat then testimonials pageData
    else [ js "Produto excelente, mudou minha vida completamente!";
           js "Recomendo para todos, resultados incríveis!";
           js "Funcionou perfeitamente, superou minhas expectativas!" ] in
  concat
    [ js "💬 **Veja o que nossos clientes dizem sobre "; dq; title pageData;
      dq; js ":**"; nl; nl;
      join (nl ++ nl) (imap (fun i t => decimal (i + 1) ++ js ". ⭐⭐⭐⭐⭐ " ++ dq ++ t ++ dq) (take 3 testimonials));
      nl; nl;
      js "🔥 **Estes são apenas alguns dos MILHARES de depoimentos!**"; nl;
      nl; js "✅ **Principais benefícios confirmados:**"; nl;
      join nl ((fun b => js "• " ++ b) <$> take 3 (benefits pageData)); nl;
      nl; js "💰 **Investimento:** "; price pageData; nl; nl; js "🎯 **";
      cta pageData; js "**"; nl; nl;
      js "**Você será o próximo caso de sucesso!**" ].

Definition generateBonusResponse (pageData : ContentRecord) : jsstring :=
  concat
    [ js "🎁 **BÔNUS EXCLUSIVOS para quem adquire o "; dq; title pageData;
      dq; js " HOJE:**"; nl; nl; js "✅ **Você recebe GRÁTIS:**"; nl;
      js "• 🎯 Suporte especializado VIP"; nl;
      js "• 📚 Material complementar exclusivo"; nl;
      js "• 🚀 Atualizações gratuitas vitalícias"; nl;
      js "• 👥 Acesso à comunidade VIP"; nl;
      js "• 💡 Consultoria personalizada"; nl;
      js "• 🎁 E-books bônus de alto valor"; nl; nl;
      js "💰 **Valor total dos bônus:** Mais de R$ 2.000,00"; nl;
      js "**Seu investimento hoje:** "; price pageData; nl; nl;
      js "⏰ **ATENÇÃO: Oferta válida apenas por tempo limitado!**"; nl; nl;
      js "🔥 **"; cta pageData; js "**"; nl; nl;
      js "**Não perca esta oportunidade única!**" ].

Definition generatePurchaseResponse (pageData : ContentRecord) : jsstring :=
  concat
    [ js "🎉 **EXCELENTE ESCOLHA!**"; nl; nl; js "O "; dq; title pageData;
      dq;
      js " é EXATAMENTE o que você precisa para transformar seus resultados!";
      nl; nl; js "💰 **Seu investimento:** "; price pageData; nl; nl;
      js "🎁 **Você vai receber:**"; nl;
      join nl ((fun b => js "✅ " ++ b) <$> take 4 (benefits pageData)); nl;
      nl; js "🎁 **BÔNUS EXCLUSIVOS:**"; nl; js "• Suporte VIP"; nl;
      js "• Material complementar"; nl; js "• Atualizações gratuitas"; nl;
      js "• Acesso à comunidade"; nl; nl;
      js "🛡️ **Garantia total de satisfação!**"; nl; nl; js "🚀 **";
      cta pageData; js "**"; nl; nl;
      js "**👆 Clique no botão acima para garantir sua transformação AGORA!**" ].

Definition generateDoubtResponse (pageData : ContentRecord) : jsstring :=
  concat
    [ js "🤝 **Estou aqui para esclarecer TODAS suas dúvidas!**"; nl; nl;
      js "Sobre o "; dq; title pageData; dq; js ", posso te ajudar com:";
      nl; nl; js "💰 **Investimento e formas de pagamento**"; nl;
      js "✅ **Benefícios e características detalhadas**"; nl;
      js "💬 **Depoimentos e casos de sucesso**"; nl;
      js "🛡️ **Garantias e segurança total**"; nl;
      js "🎁 **Bônus exclusivos inclusos**"; nl;
      js "🚀 **Processo de compra simplificado**"; nl;
      js "📞 **Suporte especializado**"; nl; nl;
      js "💡 **O que você gostaria de saber especificamente?**"; nl; nl;
      js "Digite sua pergunta que vou responder com todos os detalhes!";
      nl; nl; js "🔥 **"; cta pageData; js "**" ].

Definition generateObjectionResponse (pageData : ContentRecord) : jsstring :=
  concat
    [ js "💡 **Entendo sua preocupação, é normal ter dúvidas!**"; nl; nl;
      js "🎯 **Vamos esclarecer isso:**"; nl; nl; js "**"; dq; js "É caro?";
      dq; js "** 💰"; nl;
      js "Pense no CUSTO de NÃO ter isso! Quanto você perde por não ter os resultados que o ";
      title pageData; js " proporciona?"; nl; nl; js "**"; dq;
      js "Não funciona?"; dq; js "** ✅"; nl;
      js "Temos MILHARES de casos de sucesso! Veja:"; nl; dq;
      or_else (head (testimonials pageData)) (js "Funcionou perfeitamente, superou minhas expectativas!");
      dq; js "."; nl; nl; js "**"; dq; js "Não tenho dinheiro?"; dq;
      js "** 💳"; nl;
      js "O investimento se paga rapidamente com os resultados! Muitos clientes recuperam o valor em poucos dias.";
      nl; nl;
      js "🛡️ **GARANTIA TOTAL:** Se não funcionar, devolvemos 100% do seu dinheiro!";
      nl; nl;
      js "🎁 **BÔNUS:** Mais de R$ 2.000 em materiais extras GRÁTIS!"; nl;
      nl; js "⏰ **Oferta por tempo limitado!**"; nl; nl; js "🚀 **";
      cta pageData; js "**" ].

Definition generateFallbackResponse (pageData : ContentRecord) : jsstring :=
  concat
    [ js "🔥 **Sobre o "; dq; title pageData; dq; js ":**"; nl; nl;
      description pageData; nl; nl; js "💰 **Investimento:** ";
      price pageData; nl; nl; js "✅ **Principais benefícios:**"; nl;
      join nl ((fun b => js "• " ++ b) <$> take 3 (benefits pageData)); nl;
      nl; js "🚀 **"; cta pageData; js "**"; nl; nl;
      js "**Como posso te ajudar mais?** Posso falar sobre preços, benefícios, garantias ou depoimentos!" ].

(** The greetings among which [generateGreetingResponse] draws. *)
Definition greetings (pageData : ContentRecord) : list jsstring :=
  [ concat
      [ js "Olá! 👋 Seja muito bem-vindo(a)! Sou seu assistente especializado no **";
        title pageData; js "**!" ];
    concat
      [ js "Oi! 🔥 Que bom te ver aqui! Estou aqui para te ajudar com o **";
        title pageData; js "**!" ];
    concat
      [ js "Hey! ✨ Prazer em te conhecer! Vou te mostrar como o **";
        title pageData; js "** pode transformar sua vida!" ] ].

Definition greetingBody (pageData : ContentRecord) (greeting : jsstring) : jsstring :=
  concat
    [ greeting; nl; nl; js "💡 **Sobre o que você gostaria de saber?**"; nl;
      js "• 💰 Preços e investimento"; nl; js "• ✅ Benefícios e resultados";
      nl; js "• 🛡️ Garantias e segurança"; nl; js "• 💬 Depoimentos reais";
      nl; js "• 🎁 Bônus exclusivos"; nl; nl;
      substring0 200 (description pageData); js "..."; nl; nl; js "🚀 **";
      cta pageData; js "**" ].

(** The system prompt of [generateWithAPI]. *)
Definition systemPrompt (pageData : ContentRecord) : jsstring :=
  concat
    [ js "Você é um assistente de vendas ESPECIALIZADO e ALTAMENTE PERSUASIVO para o produto ";
      dq; title pageData; dq; js "."; nl; nl;
      js "INFORMAÇÕES REAIS DO PRODUTO:"; nl; js "- Título: ";
      title pageData; nl; js "- Descrição: "; description pageData; nl;
      js "- Preço: "; price pageData; nl; js "- Benefícios: ";
      join (js ", ") (benefits pageData); nl; js "- Depoimentos: ";
      join (js " | ") (testimonials pageData); nl; js "- Call to Action: ";
      cta pageData; nl; nl; js "INSTRUÇÕES OBRIGATÓRIAS:"; nl;
      js "- Use APENAS as informações reais do produto fornecidas"; nl;
      js "- Seja ESPECÍFICO, PERSUASIVO e focado em VENDAS"; nl;
      js "- Use técnicas de copywriting e vendas"; nl;
      js "- Responda de forma AMIGÁVEL e PROFISSIONAL"; nl;
      js "- Conduza NATURALMENTE para a compra"; nl;
      js "- Use emojis para tornar a conversa mais ENVOLVENTE"; nl;
      js "- Crie URGÊNCIA e ESCASSEZ quando apropriado"; nl;
      js "- Supere objeções com ARGUMENTOS SÓLIDOS"; nl;
      js "- Mostre VALOR e BENEFÍCIOS constantemente"; nl; nl;
      js "NUNCA invente informações que não foram fornecidas sobre o produto." ].

(** The completion service, the environment and [Math.random]: the key is
    [process.env.OPENROUTER_API_KEY], [axios_post] is the call of
    [generateWithAPI], and [random_floor n] is
    [Math.floor(Math.random() * n)], which is below [n]. *)
Class Service `{R : Runtime} : Type := {
  OPENROUTER_API_KEY : option jsstring;
  axios_post : ApiRequest -> World -> result ApiResponse * World;
  random_floor : nat -> World -> nat * World;
  random_floor_lt : forall n w, (0 < n)%nat -> ((random_floor n w).1 < n)%nat
}.

(** The server: the extractor with its cache, and the conversations. *)
Record ServerState `{R : Runtime} : Type := {
  ext : State;
  conversationCache : gmap jsstring (list Turn.t)
}.

Section Engine.
Context `{P : Platform} `{R : Runtime} `{V : Service}.

Definition generateGreetingResponse (pageData : ContentRecord)
    (w : World) : jsstring * World :=
  let (i, w') := random_floor (length (greetings pageData)) w in
  let greeting := default (js "undefined") (greetings pageData !! i) in
  (greetingBody pageData greeting, w').

(** A strategy takes the page, the context and the world. *)
Definition Strategy_fn : Type :=
  ContentRecord -> Context.t -> World -> jsstring * World.

Definition reads_page (f : ContentRecord -> jsstring) : Strategy_fn :=
  fun pageData _ w => (f pageData, w).

(** [salesStrategies[intent]]: there is no entry for [general]. *)
Definition salesStrategies (intent : Intent) : option Strategy_fn :=
  match intent with
  | Greeting => Some (fun pageData _ w => generateGreetingResponse pageData w)
  | Price => Some (reads_page generatePriceResponse)
  | Benefits => Some (reads_page generateBenefitsResponse)
  | HowItWorks => Some (reads_page generateHowItWorksResponse)
  | Guarantee => Some (reads_page generateGuaranteeResponse)
  | Testimonials => Some (reads_page generateTestimonialsResponse)
  | Bonus => Some (reads_page generateBonusResponse)
  | Purchase => Some (reads_page generatePurchaseResponse)
  | Doubt => Some (reads_page generateDoubtResponse)
  | Objection => Some (reads_page generateObjectionResponse)
  | General => None
  end.

(** [const strategy = this.salesStrategies[intent] || this.salesStrategies.doubt] *)
Definition generateWithStrategy (intent : Intent) (pageData : ContentRecord)
    (context : Context.t) (w : World) : jsstring * World :=
  let strategy :=
    default (reads_page generateDoubtResponse) (salesStrategies intent) in
  strategy pageData context w.

(** The request of [generateWithAPI]. *)
Definition apiRequest (message : jsstring) (pageData : ContentRecord)
    (context : Context.t) : ApiRequest :=
  let conversationHistory :=
    (fun c => (match Turn.role c with
               | User => js "user"
               | Assistant => js "assistant"
               end, Turn.message c)) <$> Context.previousMessages context in
  {| endpoint := js "https://openrouter.ai/api/v1/chat/completions";
     model := js "microsoft/wizardlm-2-8x22b";
     messages := [(js "system", systemPrompt pageData)]
                 ++ lastn 3 conversationHistory
                 ++ [(js "user", message)];
     max_tokens := 800;
     authorization :=
       js "Bearer " ++ default (js "undefined") OPENROUTER_API_KEY |}.

Definition generateWithAPI (message : jsstring) (pageData : ContentRecord)
    (context : Context.t) (w : World) : result jsstring * World :=
  match axios_post (apiRequest message pageData context) w with
  | (Ok response, w') =>
    if (status response =? 200)%Z && truthy_opt (content response)
    then (Ok (default [] (content response)), w')
    else (Throw (js "Resposta inválida da API"), w')
  | (Throw e, w') => (Throw e, w')
  end.

Definition set_world (s : State) (w : World) : State :=
  {| world := w; dataCache := dataCache s; browser := browser s;
     trace := trace s |}.

(** [generateResponse]: the reply and the server after it.  A message that
    is not a string makes [analyzeIntent] throw; the [catch] then answers
    with the fallback reply before anything is stored. *)
Definition generateResponse (message : Message) (pageData : ContentRecord)
    (conversationId : jsstring) (σ : ServerState) : jsstring * ServerState :=
  let conversation := default [] (conversationCache σ !! conversationId) in
  let now := clock (world (ext σ)) in
  let conversation :=
    filter (fun c => (now - Turn.timestamp c < CONVERSATION_TTL)%Z) conversation in
  match message with
  | NotText => (generateFallbackResponse pageData, σ)
  | Text message =>
    let conversation :=
      conversation ++ [ {| Turn.role := User; Turn.message := message;
                           Turn.timestamp := now; Turn.intent := None |} ] in
    let intent := analyzeIntent message in
    let context :=
      {| Context.previousMessages := lastn 5 conversation;
         Context.intent := intent;
         Context.conversationLength := length conversation |} in
    let (response, w) :=
      if truthy_opt OPENROUTER_API_KEY then
        match generateWithAPI message pageData context (world (ext σ)) with
        | (Ok response, w) => (response, w)
        | (Throw _, w) => generateWithStrategy intent pageData context w
        end
      else generateWithStrategy intent pageData context (world (ext σ)) in
    let conversation :=
      conversation ++ [ {| Turn.role := Assistant; Turn.message := response;
                           Turn.timestamp := now;
                           Turn.intent := Some intent |} ] in
    (response,
     {| ext := set_world (ext σ) w;
        conversationCache :=
          <[conversationId := conversation]> (conversationCache σ) |})
  end.

Inductive ChatReply : Type :=
| ChatData (status : Z) (response conversationId : jsstring) (time : Z)
| ChatError (status : Z) (error : jsstring).

(** [app.post('/chat')]: [message] is absent or falsy ([None], or the empty
    string), a string, or another truthy value; [url] and [conversationId]
    are strings where they are present. *)
Definition route_chat (message : option Message)
    (url conversationId : option jsstring) (σ : ServerState)
    : ChatReply * ServerState :=
  let conversationId := default (js "default") conversationId in
  match message with
  | None | Some (Text []) => (ChatError 400 (js "Mensagem é obrigatória"), σ)
  | Some message =>
    match (if truthy_opt url
           then extractData (default [] url) (js "auto") (ext σ)
           else (Ok (getDefaultData []), ext σ)) with
    | (Ok pageData, s) =>
      let (response, σ') :=
        generateResponse message pageData conversationId
          {| ext := s; conversationCache := conversationCache σ |} in
      (ChatData 200 response conversationId (clock (world (ext σ'))), σ')
    | (Throw _, s) =>
      (ChatError 500 (js "Erro interno do servidor"),
       {| ext := s; conversationCache := conversationCache σ |})
    end
  end.

(** [app.post('/clear-cache')] *)
Definition route_clear_cache (σ : ServerState) : ServerState :=
  {| ext := {| world := world (ext σ); dataCache := ∅;
               browser := browser (ext σ); trace := trace (ext σ) |};
     conversationCache := ∅ |}.

(** The turns of conversation [i] that a call in state [st] keeps, the turn
    of the user, the turn of the assistant, and an entry as the completion
    service receives it. *)
Definition kept (st : ServerState) (i : jsstring) : list Turn.t :=
  filter (fun c => (clock (world (ext st)) - Turn.timestamp c < CONVERSATION_TTL)%Z)
         (default [] (conversationCache st !! i)).

Definition asked (st : ServerState) (m : jsstring) : Turn.t :=
  {| Turn.role := User; Turn.message := m;
     Turn.timestamp := clock (world (ext st)); Turn.intent := None |}.

Definition answered (st : ServerState) (m response : jsstring) : Turn.t :=
  {| Turn.role := Assistant; Turn.message := response;
     Turn.timestamp := clock (world (ext st));
     Turn.intent := Some (analyzeIntent m) |}.

Definition sent (c : Turn.t) : jsstring * jsstring :=
  (role_name (Turn.role c), Turn.message c).

End Engine.

(** A landing page with every field, a contact in its markup, and a server
    around it. *)
Module Landing.
Import Sample.

Definition meta_el (value : string) : el :=
  {| el_txt := []; el_attrs := [(js "content", js value)]; el_source := None |}.

Definition course : page :=
  [ (js "title", [ text_el "  Curso de Violão para Iniciantes  " ]);
    (js ".summary, .lead, .intro",
     [ text_el "Aprenda violão do zero com aulas em vídeo, material de apoio e suporte dos professores." ]);
    (js ".price, .valor, .preco, .cost, .amount",
     [ text_el "Em até 12x de R$ 29,90 no cartão" ]);
    (js ".benefits li, .vantagens li, .features li",
     [ text_el "Aulas em vídeo passo a passo"; text_el "Certificado";
       text_el "Acesso por dois anos ao material" ]);
    (js ".testimonials, .depoimentos, .reviews",
     [ text_el "Recomendo o curso para quem nunca tocou antes" ]);
    (js ".buy-button, .call-to-action, .btn-primary",
     [ text_el "QUERO COMEÇAR AGORA" ]) ].

Definition platform : Platform := Sample.platform (fun _ => course).

Definition markup : jsstring :=
  js "<p>Fale com vendas@loja.example ou (11) 98765-4321</p>".

Definition record : ContentRecord :=
  match processExtractedHTML (P:=platform) markup product with
  | Ok r => r
  | Throw _ => getDefaultData []
  end.

Definition device : Device :=
  {| OsInfo := unit;
     BrowserInfo := unit;
     md_mobile := fun ua =>
       if includes (default [] ua) (js "iPhone") then Some (js "iPhone") else None;
     md_tablet := fun _ => None;
     getOS := fun _ => tt;
     getBrowser := fun _ => tt |}.

(** The service answers as the script of the world says, with [answer] as
    its content; the draw is the number of fetches left in the script. *)
Definition service (key answer : option jsstring) : @Service online :=
  @Build_Service online key
    (fun _ (w : scripted) => next w {| status := 200; content := answer |})
    (fun n (w : scripted) => (length (script w) mod n, w)%nat)
    (fun n (w : scripted) H =>
       Nat.mod_upper_bound (length (script w)) n (proj2 (Nat.neq_0_lt_0 n) H)).

Definition server (fetches : list bool) : @ServerState online :=
  {| ext := at_start fetches; conversationCache := ∅ |}.

End Landing.

Local Close Scope N_scope.

(** * Properties *)

(** ** Strings *)

Example price_ex1 :
  regex_match price_regex (js "Por apenas R$ 199,90 à vista") = Some (js "R$ 199,90").
Proof. vm_compute. reflexivity. Qed.
Example price_ex2 :
  regex_match price_regex (js "R$ 1.299,00") = Some (js "R$ 1.299,00").
Proof. vm_compute. reflexivity. Qed.
Example price_ex3 :
  regex_match price_regex (js "custa USD 49.5 ou $ 10") = Some (js "USD 49.5").
Proof. vm_compute. reflexivity. Qed.
Example email_ex :
  regex_match email_regex (js "<a href='mailto:a.b@ex.com.br'>") = Some (js "a.b@ex.com.br").
Proof. vm_compute. reflexivity. Qed.
Example phone_ex :
  regex_match phone_regex (js "tel (11) 98765-4321.") = Some (js "(11) 98765-4321").
Proof. vm_compute. reflexivity. Qed.
Example utf_ex : js "é€" = [233; 8364]%N.
Proof. vm_compute. reflexivity. Qed.

Lemma startsWith_spec (s p : jsstring) :
  startsWith s p = true <-> exists post, s = p ++ post.
Proof.
  revert s. induction p as [|a p IH]; intros s; simpl.
  - split; [intros _; exists s; reflexivity | reflexivity].
  - destruct s as [|b s]; simpl.
    + split; [discriminate | intros [post H]; discriminate].
    + rewrite andb_true_iff, N.eqb_eq, IH. split.
      * intros [-> [post ->]]. exists post. reflexivity.
      * intros [post H]. injection H as -> ->. split; [reflexivity | eauto].
Qed.

(** [includes] is the substring relation. *)
Lemma includes_spec (s sub : jsstring) :
  includes s sub = true <-> exists pre post, s = pre ++ sub ++ post.
Proof.
  induction s as [|c s IH]; cbn [includes].
  - rewrite orb_false_r, startsWith_spec. split.
    + intros [post H]. exists [], post. exact H.
    + intros [pre [post H]]. destruct pre; [exists post; exact H | discriminate].
  - rewrite orb_true_iff, startsWith_spec, IH. split.
    + intros [[post H] | [pre [post H]]].
      * exists [], post. exact H.
      * exists (c :: pre), post. simpl. rewrite H. reflexivity.
    + intros [pre [post H]]. destruct pre as [|c' pre]; simpl in H.
      * left. exists post. exact H.
      * right. injection H as _ H. exists pre, post. exact H.
Qed.

Lemma some_includes_spec (domain : jsstring) (sites : list jsstring) :
  existsb (fun site => includes domain site) sites = true
  <-> contains_any domain sites.
Proof.
  unfold contains_any. rewrite existsb_exists. split.
  - intros [site [Hin Hinc]]. apply includes_spec in Hinc as [pre [post H]].
    exists site, pre, post. split; [apply list_elem_of_In; exact Hin | exact H].
  - intros [site [pre [post [Hin H]]]]. exists site. split.
    + apply list_elem_of_In. exact Hin.
    + apply includes_spec. eauto.
Qed.

Lemma regex_match_eq (r : regex) (s : jsstring) :
  regex_match r s =
  match matches r s with
  | rest :: _ => Some (take (length s - length rest) s)
  | [] => match s with [] => None | _ :: t => regex_match r t end
  end.
Proof. destruct s; reflexivity. Qed.

Arguments js : simpl never.
Arguments startsWith : simpl never.
Arguments includes : simpl never.
Arguments trim : simpl never.
Arguments regex_match : simpl never.

(** ** The field extractor *)

Section FieldExtractorFacts.
Context `{P : Platform}.

Lemma collect_step_length lo hi cap acc el :
  length acc <= cap -> length (collect_step lo hi cap acc el) <= cap.
Proof.
  intros H. unfold collect_step.
  destruct (truthy _ && _ && _ && (length acc <? cap)) eqn:E; [|exact H].
  destruct (array_includes _ _); [exact H|].
  apply andb_true_iff in E as [_ E]. apply Nat.ltb_lt in E.
  rewrite length_app. simpl. lia.
Qed.

Lemma collect_step_NoDup lo hi cap acc el :
  NoDup acc -> NoDup (collect_step lo hi cap acc el).
Proof.
  intros H. unfold collect_step.
  destruct (truthy _ && _ && _ && _); [|exact H].
  unfold array_includes. case_bool_decide as Hin; [exact H|].
  apply NoDup_app. split; [exact H|]. split.
  - intros x Hx Hx'. apply list_elem_of_singleton in Hx'. subst x. contradiction.
  - apply NoDup_singleton.
Qed.

Lemma collect_each_inv lo hi cap els acc :
  length acc <= cap -> NoDup acc ->
  length (fold_left (collect_step lo hi cap) els acc) <= cap
  /\ NoDup (fold_left (collect_step lo hi cap) els acc).
Proof.
  revert acc. induction els as [|el els IH]; intros acc Hl Hn; simpl.
  - split; assumption.
  - apply IH; [apply collect_step_length | apply collect_step_NoDup]; assumption.
Qed.

Lemma collect_loop_inv lo hi cap html sels acc :
  length acc <= cap -> NoDup acc ->
  length (collect_loop lo hi cap html sels acc) <= cap
  /\ NoDup (collect_loop lo hi cap html sels acc).
Proof.
  revert acc. induction sels as [|sel sels IH]; intros acc Hl Hn; simpl.
  - split; assumption.
  - destruct (collect_each_inv lo hi cap (query html sel) acc Hl Hn) as [Hl' Hn'].
    destruct (cap <=? _); [split; assumption | apply IH; assumption].
Qed.

Lemma images_each_length imgs finalUrl acc l :
  length acc <= 10 -> images_each imgs finalUrl acc = Ok l -> length l <= 10.
Proof.
  revert acc. induction imgs as [|img imgs IH]; intros acc Hl H; simpl in H.
  - injection H as <-. exact Hl.
  - destruct (el_attr img (js "src")) as [s|]; [|eapply IH; eassumption].
    destruct (truthy s && _ && (length acc <? 10)) eqn:E;
      [|eapply IH; eassumption].
    apply andb_true_iff in E as [_ E]. apply Nat.ltb_lt in E.
    destruct (startsWith s _).
    + eapply IH; [|eassumption]. rewrite length_app. simpl. lia.
    + destruct (url_href s finalUrl); [|discriminate].
      eapply IH; [|eassumption]. rewrite length_app. simpl. lia.
Qed.

Lemma videos_each_length els acc :
  length acc <= 5 -> length (fold_left videos_step els acc) <= 5.
Proof.
  revert acc. induction els as [|v els IH]; intros acc Hl; simpl; [exact Hl|].
  apply IH. unfold videos_step.
  destruct (or_undef _ _) as [s|]; [|exact Hl].
  destruct (truthy s && (length acc <? 5)) eqn:E; [|exact Hl].
  apply andb_true_iff in E as [_ E]. apply Nat.ltb_lt in E.
  rewrite length_app. simpl. lia.
Qed.

(** The loop over the selectors yields the empty string or a value its
    acceptance test produced. *)
Lemma first_accepted_cases html sels accept :
  first_accepted html sels accept = []
  \/ exists element, accept element = Some (first_accepted html sels accept).
Proof.
  induction sels as [|sel sels IH]; simpl; [left; reflexivity|].
  destruct (query html sel) as [|element ?]; [exact IH|].
  destruct (accept element) eqn:E; [right; eauto | exact IH].
Qed.

Lemma description_length html sels :
  length (first_accepted html sels accept_description) <= 500.
Proof.
  destruct (first_accepted_cases html sels accept_description)
    as [E | [element H]]; [rewrite E; simpl; lia|].
  revert H. generalize (first_accepted html sels accept_description).
  intros v H. unfold accept_description in H.
  destruct (truthy _ && _); [|discriminate].
  assert (Hv : v = substring0 500 (trim (or_else (el_attr element (js "content"))
                                                  (el_text element))))
    by congruence.
  rewrite Hv. unfold substring0. rewrite length_take. lia.
Qed.

(** What each field of the returned record is. *)
Lemma processExtractedHTML_fields (html finalUrl : jsstring) (r : ContentRecord) :
  processExtractedHTML html finalUrl = Ok r ->
  url r = finalUrl
  /\ description r = first_accepted html descSelectors accept_description
  /\ price r = price_loop html priceSelectors []
  /\ benefits r = collect_loop 10 200 8 html benefitSelectors []
  /\ testimonials r = collect_loop 20 300 5 html testimonialSelectors []
  /\ images_each (query html (js "img")) finalUrl [] = Ok (images r)
  /\ videos r = fold_left videos_step (query html videoSelector) []
  /\ extractionMethod r = None.
Proof.
  unfold processExtractedHTML. intros H.
  destruct (images_each _ finalUrl []) as [imgs|] eqn:Ei; [|discriminate].
  match type of H with Ok ?a = _ => assert (Hr : r = a) by congruence end.
  rewrite Hr. cbn [url description price benefits testimonials images videos
                   extractionMethod].
  repeat split; reflexivity.
Qed.

(** C5. Whatever the markup and the final URL, the record that
    [processExtractedHTML] returns has at most 8 benefits, 5 testimonials,
    10 images and 5 videos, a description of at most 500 code units, and no
    string twice among its benefits nor among its testimonials. *)
Theorem processExtractedHTML_bounds (html finalUrl : jsstring) (r : ContentRecord) :
  processExtractedHTML html finalUrl = Ok r ->
  length (benefits r) <= 8 /\ length (testimonials r) <= 5
  /\ length (images r) <= 10 /\ length (videos r) <= 5
  /\ length (description r) <= 500
  /\ NoDup (benefits r) /\ NoDup (testimonials r).
Proof.
  intros H.
  destruct (processExtractedHTML_fields html finalUrl r H)
    as (_ & Hd & _ & Hb & Ht & Hi & Hv & _).
  rewrite Hd, Hb, Ht, Hv.
  destruct (collect_loop_inv 10 200 8 html benefitSelectors [])
    as [Hb1 Hb2]; [simpl; lia | apply NoDup_nil_2 |].
  destruct (collect_loop_inv 20 300 5 html testimonialSelectors [])
    as [Ht1 Ht2]; [simpl; lia | apply NoDup_nil_2 |].
  repeat split; try assumption.
  - eapply images_each_length; [|exact Hi]. simpl. lia.
  - apply videos_each_length. simpl. lia.
  - apply description_length.
Qed.

(** The extractor returns a record whenever every image source resolves. *)
Lemma processExtractedHTML_returns (html finalUrl : jsstring) :
  (forall s, url_href s finalUrl <> None) ->
  exists r, processExtractedHTML html finalUrl = Ok r.
Proof.
  intros Hres. unfold processExtractedHTML.
  assert (Hi : forall imgs acc, exists l, images_each imgs finalUrl acc = Ok l).
  { induction imgs as [|img imgs IH]; intros acc; simpl; [eauto|].
    destruct (el_attr img _) as [s|]; [|apply IH].
    destruct (truthy s && _ && _); [|apply IH].
    destruct (startsWith s _); [apply IH|].
    destruct (url_href s finalUrl) eqn:E; [apply IH | destruct (Hres s E)]. }
  destruct (Hi (query html (js "img")) []) as [l ->]. eauto.
Qed.

End FieldExtractorFacts.

(** ** Regular expressions *)

Lemma flat_map_none {A B} (f : A -> list B) (l : list A) :
  (forall a, f a = []) -> flat_map f l = [].
Proof.
  intros Hf. induction l as [|a l IH]; simpl; [reflexivity|].
  rewrite Hf, IH. reflexivity.
Qed.

(** Fuel beyond the length of the input changes nothing. *)
Lemma iterate_fuel m f1 : forall f2 lo hi s,
  length s <= f1 -> length s <= f2 ->
  iterate m lo hi f1 s = iterate m lo hi f2 s.
Proof.
  induction f1 as [|f1 IH]; intros f2 lo hi s H1 H2.
  - destruct s; [|simpl in H1; lia].
    destruct f2; simpl; [reflexivity|].
    destruct hi as [[|h]|]; try reflexivity;
      rewrite flat_map_none; try reflexivity; intros a; reflexivity.
  - destruct f2 as [|f2].
    + destruct s; [|simpl in H2; lia]. simpl.
      destruct hi as [[|h]|]; try reflexivity;
        rewrite flat_map_none; try reflexivity; intros a; reflexivity.
    + simpl. destruct hi as [[|h]|]; try reflexivity; f_equal;
        apply flat_map_ext; intros s';
        destruct (length s' <? length s) eqn:E; try reflexivity;
        apply Nat.ltb_lt in E; apply IH; lia.
Qed.

Lemma matches_repeat_nil a lo hi : matches (Repeat lo hi a) [] = stop_here lo [].
Proof. reflexivity. Qed.

(** One unfolding of a repetition whose body consumes input. *)
Lemma matches_repeat_unfold a lo hi s :
  (forall s', In s' (matches a s) -> length s' < length s) ->
  matches (Repeat lo hi a) s =
  match hi with
  | Some O => stop_here lo s
  | _ => flat_map (matches (Repeat (pred lo) (pred <$> hi) a)) (matches a s)
         ++ stop_here lo s
  end.
Proof.
  intros Hp. cbn [matches]. destruct s as [|c t].
  - simpl. destruct hi as [[|h]|]; try reflexivity;
      destruct (matches a []) as [|s' ?]; try reflexivity;
      exfalso; specialize (Hp s' (or_introl eq_refl)); simpl in Hp; lia.
  - cbn [length iterate]. fold (stop_here lo (c :: t)).
    destruct hi as [[|h]|]; try reflexivity; f_equal;
      apply flat_map_ext_in || idtac.
    all: induction (matches a (c :: t)) as [|s' l IH]; [reflexivity|].
    all: cbn [flat_map]; rewrite IH by (intros; apply Hp; right; assumption).
    all: pose proof (Hp s' (or_introl eq_refl)) as Hs'; cbn [length] in Hs'.
    all: destruct (Nat.ltb_spec (length s') (S (length t))); [|lia].
    all: f_equal; cbn [matches]; apply iterate_fuel; lia.
Qed.

Lemma matches_repeat_class p lo hi c t :
  matches (Repeat lo hi (Class p)) (c :: t) =
  match hi with
  | Some O => stop_here lo (c :: t)
  | _ => (if p c then matches (Repeat (pred lo) (pred <$> hi) (Class p)) t else [])
         ++ stop_here lo (c :: t)
  end.
Proof.
  rewrite matches_repeat_unfold.
  - destruct hi as [[|h]|]; try reflexivity; cbn [matches];
      destruct (p c); cbn [flat_map]; rewrite ?app_nil_r; reflexivity.
  - intros s'. cbn [matches]. destruct (p c); simpl; [|tauto].
    intros [<-|[]]. lia.
Qed.

Lemma matches_seq a b s : matches (Seq a b) s = flat_map (matches b) (matches a s).
Proof. reflexivity. Qed.

Lemma matches_alt a b s : matches (Alt a b) s = matches a s ++ matches b s.
Proof. reflexivity. Qed.

Lemma matches_class_cons p c t :
  matches (Class p) (c :: t) = if p c then [t] else [].
Proof. reflexivity. Qed.

Lemma matches_class_nil p : matches (Class p) [] = [].
Proof. reflexivity. Qed.

(** A match never leaves more than there was. *)
Lemma iterate_length m :
  (forall s rest, In rest (m s) -> length rest <= length s) ->
  forall fuel lo hi s rest,
    In rest (iterate m lo hi fuel s) -> length rest <= length s.
Proof.
  intros Hm. induction fuel as [|f IH]; intros lo hi s rest H.
  - simpl in H. destruct lo; simpl in H; [destruct H as [<-|[]]; lia | tauto].
  - simpl in H.
    assert (Hstop : In rest (stop_here lo s) -> length rest <= length s).
    { destruct lo; simpl; [intros [<-|[]]; lia | tauto]. }
    destruct hi as [[|h]|]; try (apply Hstop; exact H).
    all: apply in_app_or in H as [H|H]; [|apply Hstop; exact H].
    all: apply in_flat_map in H as [s' [_ H]].
    all: destruct (Nat.ltb_spec (length s') (length s)); [|destruct H].
    all: apply IH in H; lia.
Qed.

Lemma matches_length r : forall s rest,
  In rest (matches r s) -> length rest <= length s.
Proof.
  induction r as [p|a IHa b IHb|a IHa b IHb|lo hi a IHa]; intros s rest H.
  - destruct s as [|c t]; simpl in H; [tauto|].
    destruct (p c); simpl in H; [destruct H as [<-|[]]; simpl; lia | tauto].
  - cbn [matches] in H. apply in_flat_map in H as [mid [H1 H2]].
    apply IHa in H1. apply IHb in H2. lia.
  - cbn [matches] in H. apply in_app_or in H as [H|H]; auto.
  - cbn [matches] in H. eapply iterate_length; eassumption.
Qed.

(** A sequence that starts with a character class consumes input. *)
Lemma matches_seq_class_progress p b s rest :
  In rest (matches (Seq (Class p) b) s) -> length rest < length s.
Proof.
  cbn [matches]. intros H. apply in_flat_map in H as [mid [H1 H2]].
  apply matches_length in H2.
  destruct s as [|c t]; [destruct H1|].
  destruct (p c); simpl in H1; [destruct H1 as [<-|[]]; simpl; lia | tauto].
Qed.

Lemma price_regex_progress s rest :
  In rest (matches price_regex s) -> length rest < length s.
Proof.
  unfold price_regex. cbn [Seqs]. rewrite !matches_alt. intros H.
  apply in_app_or in H as [H|H]; [|apply in_app_or in H as [H|H]];
    eapply matches_seq_class_progress; exact H.
Qed.

(** What the price pattern matches is never the empty string. *)
Lemma price_match_truthy t m :
  regex_match price_regex t = Some m -> truthy m = true.
Proof.
  induction t as [|c t IH]; rewrite regex_match_eq; intros H.
  - destruct (matches price_regex []) as [|rest ?] eqn:E; [discriminate|].
    pose proof (price_regex_progress [] rest) as Hp. rewrite E in Hp.
    specialize (Hp (or_introl eq_refl)). simpl in Hp. lia.
  - destruct (matches price_regex (c :: t)) as [|rest ?] eqn:E; [auto|].
    pose proof (price_regex_progress (c :: t) rest) as Hp. rewrite E in Hp.
    specialize (Hp (or_introl eq_refl)). cbn [length] in *.
    assert (Hm : m = take (S (length t) - length rest) (c :: t)) by congruence.
    rewrite Hm. destruct (S (length t) - length rest) eqn:En; [lia|reflexivity].
Qed.

Ltac class_tests :=
  repeat match goal with
  | |- context [is_space (N.pos ?x)] =>
    let v := eval vm_compute in (is_space (N.pos x)) in
    change (is_space (N.pos x)) with v
  | |- context [is_digit (N.pos ?x)] =>
    let v := eval vm_compute in (is_digit (N.pos x)) in
    change (is_digit (N.pos x)) with v
  | H : ?p ?c = false |- context [?p ?c] => rewrite H
  | |- context [one_of ?s (N.pos ?x)] =>
    let v := eval vm_compute in (one_of s (N.pos x)) in
    change (one_of s (N.pos x)) with v
  end.

Ltac regex_eval :=
  repeat first
    [ rewrite matches_alt
    | rewrite matches_seq
    | rewrite flat_map_app
    | rewrite matches_class_cons
    | rewrite matches_class_nil
    | rewrite matches_repeat_class
    | rewrite matches_repeat_nil
    | rewrite matches_repeat_unfold
        by (intros ?; apply matches_seq_class_progress)
    | progress class_tests
    | progress cbn [flat_map app stop_here pred fmap option_fmap option_map] ].

Lemma price_at_sample (post : jsstring) :
  match post with c :: _ => is_digit c = false | [] => True end ->
  exists l, matches price_regex (sample_price ++ post) = post :: l.
Proof.
  intros Hpost.
  unfold price_regex, sample_price, Star, Plus, Opt, ws, digit, sep. unfold Chr.
  cbn [Seqs app].
  destruct post as [|c post']; regex_eval; eauto.
Qed.

(** ** The price field *)

Section PriceFacts.
Context `{P : Platform}.

Lemma price_each_first (els : list Elem) :
  price_each els [] = default [] (first_price els).
Proof.
  unfold first_price. induction els as [|element els IH]; [reflexivity|].
  cbn [price_each omap list_omap]. unfold price_step.
  destruct (regex_match price_regex (trim (el_text element))) as [m|];
    [reflexivity | exact IH].
Qed.

Lemma first_price_truthy (els : list Elem) (m : jsstring) :
  first_price els = Some m -> truthy m = true.
Proof.
  unfold first_price. induction els as [|element els IH]; [discriminate|].
  cbn [omap list_omap].
  destruct (regex_match price_regex (trim (el_text element))) as [m'|] eqn:E;
    [|exact IH].
  cbn [head]. intros H. assert (m' = m) by congruence. subst m'.
  eapply price_match_truthy; exact E.
Qed.

Lemma first_price_app (l1 l2 : list Elem) :
  first_price (l1 ++ l2)
  = match first_price l1 with Some m => Some m | None => first_price l2 end.
Proof.
  unfold first_price. rewrite omap_app.
  destruct (omap _ l1); reflexivity.
Qed.

(** The two nested loops take the first match in selector order, then in
    element order. *)
Lemma price_loop_first (html : jsstring) (sels : list jsstring) :
  price_loop html sels [] = default [] (first_price (flat_map (query html) sels)).
Proof.
  induction sels as [|sel sels IH]; [reflexivity|].
  cbn [price_loop flat_map]. rewrite price_each_first, first_price_app.
  destruct (first_price (query html sel)) as [m|] eqn:E; cbn [from_option id].
  - rewrite (first_price_truthy _ _ E). reflexivity.
  - exact IH.
Qed.

End PriceFacts.

(** ** The fetch strategies *)

Section ExtractorFacts.
Context `{P : Platform} `{R : Runtime}.

Notation "x <- m ;; k" := (bind m (fun x => k))
  (at level 100, m at next level, right associativity).

Lemma after_after s w b t w' b' t' :
  after (after s w b t) w' b' t' = after s w' b' (t ++ t').
Proof. unfold after. cbn. rewrite app_assoc. reflexivity. Qed.

Lemma after_id (s : State) : after s (world s) (browser s) [] = s.
Proof. destruct s. unfold after. cbn. rewrite app_nil_r. reflexivity. Qed.

Lemma replay_app (t1 t2 : list (Call * bool)) (w w1 : World) :
  replay t1 w = Some w1 -> replay (t1 ++ t2) w = replay t2 w1.
Proof.
  revert w. induction t1 as [|[c ok] t1 IH]; intros w; cbn [replay app].
  - intros H. injection H as ->. reflexivity.
  - destruct (outcome c w) as [ok' w']. destruct (Bool.eqb ok ok');
      [apply IH | discriminate].
Qed.

(** A trace that replays ends with a call made in the world the calls before
    it left. *)
Lemma replay_last (t : list (Call * bool)) (w w' : World) (c : Call) (ok : bool) :
  replay t w = Some w' -> last t = Some (c, ok) ->
  exists w0, replay (removelast t) w = Some w0 /\ outcome c w0 = (ok, w').
Proof.
  revert w. induction t as [|[c1 ok1] t IH]; intros w; [discriminate|].
  destruct t as [|ev t'].
  - cbn [replay last removelast]. intros H E. injection E as -> ->.
    exists w. split; [reflexivity|].
    destruct (outcome c w) as [ok' w1]. destruct (Bool.eqb_spec ok ok');
      [|discriminate]. congruence.
  - intros H E. change (last (_ :: ev :: t')) with (last (ev :: t')) in E.
    change (removelast (_ :: ev :: t'))
      with ((c1, ok1) :: removelast (ev :: t')).
    cbn [replay] in H |- *. destruct (outcome c1 w) as [ok' w1].
    destruct (Bool.eqb ok1 ok'); [|discriminate]. exact (IH w1 H E).
Qed.

Lemma extractWithAxios_run (url : jsstring) (s : State) :
  extractWithAxios url s =
  let '(r, w) := axios_get url (world s) in
  (Ok match r with
      | Ok (body, responseUrl) => Fetched body (or_else responseUrl url)
      | Throw e => Failed e
      end,
   after s w (browser s) [(AxiosGet url, is_ok r)]).
Proof.
  unfold extractWithAxios, try_catch, bind, await, ret, after.
  destruct (axios_get url (world s)) as [[[body ru]|e] w]; reflexivity.
Qed.

Lemma extractWithCloudscraper_run (url : jsstring) (s : State) :
  extractWithCloudscraper url s =
  let '(r, w) := cloudscraper_get url (world s) in
  (Ok match r with
      | Ok response => Fetched response url
      | Throw e => Failed e
      end,
   after s w (browser s) [(CloudscraperGet url, is_ok r)]).
Proof.
  unfold extractWithCloudscraper, try_catch, bind, await, ret, after.
  destruct (cloudscraper_get url (world s)) as [[response|e] w]; reflexivity.
Qed.

Ltac io_step :=
  match goal with
  | |- context [browser_call ?e ?op ?w] =>
    let H := fresh "Hio" in destruct (browser_call e op w) as [[[]|?] ?] eqn:H
  | |- context [page_content ?e ?w] =>
    let H := fresh "Hio" in destruct (page_content e w) as [[?|?] ?] eqn:H
  | |- context [page_url ?e ?w] =>
    let H := fresh "Hio" in destruct (page_url e w) as [[?|?] ?] eqn:H
  end; cbn.

Ltac replay_done :=
  repeat (cbn [replay outcome];
          match goal with
          | H : browser_call ?e ?op ?w = _ |- context [browser_call ?e ?op ?w] =>
            rewrite H
          | H : page_content ?e ?w = _ |- context [page_content ?e ?w] =>
            rewrite H
          | H : page_url ?e ?w = _ |- context [page_url ?e ?w] =>
            rewrite H
          end;
          cbn [is_ok Bool.eqb]);
  reflexivity.

Ltac run_done :=
  do 4 eexists; split;
  [ unfold after; rewrite <- ?app_assoc; cbn [app]; reflexivity
  | split; [reflexivity|]; split;
    [ first [ left; reflexivity
            | right; split; [reflexivity|]; split;
              [eexists; reflexivity | reflexivity] ]
    | split; [replay_done | cbn; first [reflexivity | discriminate]] ] ].

(** Every run of a browser strategy, whatever the library calls do: what it
    adds to the trace, and that the calls of the trace are the calls made on
    the library, which lead to the world the run ends in. *)
Lemma run_browser_shape (e : Engine) (url : jsstring) (s : State) :
  exists r w b t,
    run_browser e url s = (r, after s w b t)
    /\ attempts t = [engine_strategy e]
    /\ closed_run e t
    /\ replay t (world s) = Some w
    /\ (last t = Some (Browser e Close, false) -> is_ok r = false).
Proof.
  destruct e; unfold run_browser, extractWithPuppeteer, extractWithPlaywright,
    finally, try_catch, bind, close_browser, call, await, set_browser,
    get_browser, ret; cbn.
  all: repeat io_step.
  all: run_done.
Qed.

Lemma attempts_app (t1 t2 : list (Call * bool)) :
  attempts (t1 ++ t2) = attempts t1 ++ attempts t2.
Proof. apply omap_app. Qed.

Lemma run_strategy_shape (st : Strategy) (url : jsstring) (s : State) :
  exists r w b t, run_strategy st url s = (r, after s w b t) /\ attempts t = [st].
Proof.
  destruct st; cbn [run_strategy].
  - rewrite extractWithAxios_run. destruct (axios_get url (world s)) as [r w].
    do 4 eexists. split; reflexivity.
  - rewrite extractWithCloudscraper_run.
    destruct (cloudscraper_get url (world s)) as [r w].
    do 4 eexists. split; reflexivity.
  - destruct (run_browser_shape Puppeteer url s) as (r & w & b & t & H & Ha & _).
    exists r, w, b, t. split; assumption.
  - destruct (run_browser_shape Playwright url s) as (r & w & b & t & H & Ha & _).
    exists r, w, b, t. split; assumption.
Qed.

(** The calls a strategy adds to the trace are the calls made on the library;
    the first of them is the one that starts the fetch. *)
Lemma run_strategy_replay (st : Strategy) (url : jsstring) (s : State) :
  exists r w b t,
    run_strategy st url s = (r, after s w b t)
    /\ attempts t = [st]
    /\ replay t (world s) = Some w.
Proof.
  destruct st; cbn [run_strategy].
  - rewrite extractWithAxios_run.
    destruct (axios_get url (world s)) as [r w] eqn:E.
    do 4 eexists. split; [reflexivity|]. split; [reflexivity|].
    cbn [replay outcome]. rewrite E.
    destruct (is_ok r); reflexivity.
  - rewrite extractWithCloudscraper_run.
    destruct (cloudscraper_get url (world s)) as [r w] eqn:E.
    do 4 eexists. split; [reflexivity|]. split; [reflexivity|].
    cbn [replay outcome]. rewrite E.
    destruct (is_ok r); reflexivity.
  - destruct (run_browser_shape Puppeteer url s)
      as (r & w & b & t & H & Ha & _ & Hr & _).
    exists r, w, b, t. repeat split; assumption.
  - destruct (run_browser_shape Playwright url s)
      as (r & w & b & t & H & Ha & _ & Hr & _).
    exists r, w, b, t. repeat split; assumption.
Qed.

Lemma run_method_strategy (m url : jsstring) :
  run_method m url = run_strategy (strategy_of m) url.
Proof.
  unfold run_method, strategy_of. repeat case_decide; reflexivity.
Qed.

Lemma strategy_of_name (st : Strategy) : strategy_of (name st) = st.
Proof. destruct st; reflexivity. Qed.

Lemma name_not_auto (st : Strategy) : name st <> js "auto".
Proof. destruct st; intros H; vm_compute in H; discriminate H. Qed.

(** The method names left for the fallback loop are the names of the
    strategies left in the fixed order. *)
Lemma chain_names (first : Strategy) :
  name first :: filter (fun m => m <> name first) allMethods
  = map name (chain first).
Proof. destruct first; vm_compute; reflexivity. Qed.

(** With a name that is none of the four, nothing is filtered out. *)
Lemma filter_unknown (m : jsstring) :
  m ∉ allMethods -> filter (fun m' => m' <> m) allMethods = allMethods.
Proof.
  intros H. unfold allMethods in *.
  rewrite !filter_cons_True, filter_nil; [reflexivity|..];
    intros E; apply H; rewrite <- E; set_solver.
Qed.

(** While no strategy throws, the loop over the method names is the
    specification's search for the first success. *)
Lemma try_methods_names (sts : list Strategy) (url : jsstring) (s : State) :
  no_throw sts url s ->
  try_methods (map name sts) url s =
  let '(found, s') := first_success sts url s in (Ok (tag <$> found), s').
Proof.
  revert s. induction sts as [|st sts IH]; intros s; [reflexivity|].
  cbn [map try_methods first_success no_throw]. unfold bind, fetch.
  rewrite run_method_strategy, strategy_of_name.
  destruct (run_strategy st url s) as [[[html finalUrl|e]|e] s1];
    [reflexivity | apply IH | contradiction].
Qed.

(** The strategies attempted are those the trace shows, by calls made on
    the library. *)
Lemma first_success_attempts (sts : list Strategy) (url : jsstring) (s : State) :
  exists w b t,
    snd (first_success sts url s) = after s w b t
    /\ attempts t = attempted sts url s
    /\ replay t (world s) = Some w.
Proof.
  revert s. induction sts as [|st sts IH]; intros s.
  - exists (world s), (browser s), []. rewrite after_id. repeat split.
  - cbn [first_success attempted]. unfold fetch.
    destruct (run_strategy_replay st url s) as (r & w & b & t & Hr & Ha & Hp).
    rewrite Hr. destruct r as [[html finalUrl|e]|e].
    + exists w, b, t. repeat split; assumption.
    + destruct (IH (after s w b t)) as (w' & b' & t' & Ht & Ha' & Hp').
      exists w', b', (t ++ t'). rewrite Ht, after_after, attempts_app, Ha, Ha'.
      repeat split. rewrite (replay_app t t' (world s) w Hp). exact Hp'.
    + destruct (IH (after s w b t)) as (w' & b' & t' & Ht & Ha' & Hp').
      exists w', b', (t ++ t'). rewrite Ht, after_after, attempts_app, Ha, Ha'.
      repeat split. rewrite (replay_app t t' (world s) w Hp). exact Hp'.
Qed.

(** ** The orchestrator *)

Lemma finish_deliver (url key m : jsstring) (r : FetchResult) (s : State) :
  try_catch (finish key r m) (fun _ => ret (getDefaultData url)) s
  = try_catch
      (deliver url key
         match r with
         | Fetched html finalUrl => Some (m, html, finalUrl)
         | Failed _ => None
         end)
      (fun _ => ret (getDefaultData url)) s.
Proof.
  destruct r as [html finalUrl|e]; cbn [finish deliver]; [|reflexivity].
  destruct (processExtractedHTML html finalUrl); reflexivity.
Qed.

(** The fallback loop followed by the end of [extractData], under its
    [catch], is the loop over the names followed by the delivery. *)
Lemma fallback_finish (ms : list jsstring) (url key : jsstring) :
  forall (r0 : FetchResult) (m0 : jsstring) (s : State),
    success r0 = false ->
    try_catch
      (attempt <- fallback_loop ms url r0 m0 ;;
       finish key (fst attempt) (snd attempt))
      (fun _ => ret (getDefaultData url)) s
    = try_catch
        (found <- try_methods ms url ;; deliver url key found)
        (fun _ => ret (getDefaultData url)) s.
Proof.
  induction ms as [|m ms IH]; intros r0 m0 s Hr0.
  - destruct r0; [discriminate|]. reflexivity.
  - specialize (IH (Failed []) m0). revert IH.
    cbn [fallback_loop try_methods]. unfold try_catch, bind. intros IH.
    destruct (run_method m url s) as [[[html finalUrl|e]|e] s1]; cbn.
    + pose proof (finish_deliver url key m (Fetched html finalUrl) s1) as H.
      unfold try_catch in H. exact H.
    + destruct ms as [|m' ms']; [reflexivity|].
      specialize (IH s1 eq_refl). cbn [fallback_loop try_methods] in IH.
      unfold bind in IH. cbn [fallback_loop]. exact IH.
    + reflexivity.
Qed.

Lemma deliver_total (url key : jsstring)
    (found : option (jsstring * jsstring * jsstring)) (s : State) :
  exists r s', deliver url key found s = (Ok r, s').
Proof.
  destruct found as [[[m html] finalUrl]|]; cbn [deliver]; [|eauto].
  destruct (processExtractedHTML html finalUrl); eauto.
Qed.

Lemma extractData_hit (url method : jsstring) (s : State) (c : CacheEntry) :
  fresh (dataCache s !! cacheKey url method) (clock (world s)) = Some c ->
  extractData url method s = (Ok (data c), s).
Proof.
  intros H. unfold extractData, try_catch, bind, cache_get, now. cbn.
  rewrite H. reflexivity.
Qed.

(** [extractData] on a request the cache does not answer. *)
Lemma extractData_miss_eq (url method : jsstring) (s : State) :
  miss url method s ->
  extractData url method s =
  try_catch
    (m <- lift (resolve url method) ;;
     found <- try_methods (m :: filter (fun m' => m' <> m) allMethods) url ;;
     deliver url (cacheKey url method) found)
    (fun _ => ret (getDefaultData url)) s.
Proof.
  unfold miss. intros H.
  unfold extractData, try_catch, bind, cache_get, now. cbv beta iota zeta.
  rewrite H.
  assert (Hres : (if decide (method = js "auto")
                  then lift (detectBestMethod url) else ret method) s
                 = (resolve url method, s)).
  { unfold resolve. case_decide; reflexivity. }
  rewrite Hres. unfold lift.
  destruct (resolve url method) as [m|e]; [|reflexivity].
  cbn [try_methods]. unfold bind.
  destruct (run_method m url s) as [[[html finalUrl|e]|e] s2]; cbn [success negb].
  - pose proof (finish_deliver url (cacheKey url method) m (Fetched html finalUrl) s2)
      as Hf. unfold try_catch in Hf. exact Hf.
  - pose proof (fallback_finish (filter (fun m' => m' <> m) allMethods) url
                  (cacheKey url method) (Failed e) m s2 eq_refl) as Hf.
    unfold try_catch, bind in Hf. exact Hf.
  - reflexivity.
Qed.

(** Strategy selection throws on a URL that does not parse and otherwise
    returns the name of a strategy. *)
Lemma detectBestMethod_cases (url : jsstring) :
  (url_hostname url = None /\ detectBestMethod url = Throw (js "Invalid URL"))
  \/ (exists st, url_hostname url <> None /\ detectBestMethod url = Ok (name st)).
Proof.
  unfold detectBestMethod. destruct (url_hostname url) as [hostname|];
    [right | left; split; reflexivity].
  destruct (existsb _ jsHeavySites);
    [exists FullBrowser; split; [discriminate | reflexivity]|].
  destruct (existsb _ cloudflareSites);
    [exists CloudflareHttp; split; [discriminate | reflexivity]|].
  destruct (existsb _ botBlockingSites);
    [exists LightweightBrowser; split; [discriminate | reflexivity]|].
  exists Http. split; [discriminate | reflexivity].
Qed.

(** For the method [auto] and for the four method names, [extractData] on a
    request the cache does not answer is the orchestration the specification
    describes. *)
Lemma extractData_orchestrate (url method : jsstring) (first : Strategy) (s : State) :
  miss url method s -> resolves url method first ->
  no_throw (chain first) url s ->
  extractData url method s = orchestrate url (cacheKey url method) first s.
Proof.
  intros Hm Hr Hn. rewrite (extractData_miss_eq url method s Hm).
  unfold orchestrate, try_catch, bind, lift. rewrite Hr.
  rewrite chain_names, (try_methods_names _ _ _ Hn).
  destruct (first_success (chain first) url s) as [found s1].
  destruct (deliver_total url (cacheKey url method) (tag <$> found) s1)
    as (r & s2 & ->). reflexivity.
Qed.

Lemma try_methods_shape (ms : list jsstring) (url : jsstring) :
  forall s : State,
  exists out w b t,
    try_methods ms url s = (out, after s w b t)
    /\ match out with
       | Ok (Some (m, html, finalUrl)) =>
         exists failed rest s0 s0',
           ms = failed ++ m :: rest
           /\ attempts t = map strategy_of failed ++ [strategy_of m]
           /\ run_strategy (strategy_of m) url s0 = (Ok (Fetched html finalUrl), s0')
       | Ok None => attempts t = map strategy_of ms
       | Throw e =>
         exists k st s0 s0',
           attempts t = take k (map strategy_of ms)
           /\ run_strategy st url s0 = (Throw e, s0')
       end.
Proof.
  induction ms as [|m ms IH]; intros s.
  - exists (Ok None), (world s), (browser s), []. rewrite after_id.
    split; reflexivity.
  - cbn [try_methods]. unfold bind. rewrite run_method_strategy.
    destruct (run_strategy_shape (strategy_of m) url s) as (r & w & b & t & Hr & Ha).
    rewrite Hr. destruct r as [[html finalUrl|e]|e].
    + exists (Ok (Some (m, html, finalUrl))), w, b, t. split; [reflexivity|].
      exists [], ms, s, (after s w b t). repeat split; assumption.
    + destruct (IH (after s w b t)) as (out & w' & b' & t' & Ht & Hout).
      exists out, w', b', (t ++ t'). rewrite Ht, after_after.
      split; [reflexivity|]. rewrite attempts_app, Ha.
      destruct out as [[[[m' html] finalUrl]|]|e'].
      * destruct Hout as (failed & rest & s0 & s0' & -> & Hat & Hrun).
        exists (m :: failed), rest, s0, s0'. rewrite Hat.
        repeat split; try reflexivity. exact Hrun.
      * rewrite Hout. reflexivity.
      * destruct Hout as (k & st & s0 & s0' & Hk & Hrun).
        exists (S k), st, s0, s0'. rewrite Hk. split; [reflexivity | exact Hrun].
    + exists (Throw e), w, b, t. split; [reflexivity|].
      exists 1%nat, (strategy_of m), s, (after s w b t). rewrite Ha.
      split; [reflexivity | exact Hr].
Qed.

Lemma deliver_shape (url key : jsstring)
    (found : option (jsstring * jsstring * jsstring)) (s : State) :
  deliver url key found s = (Ok (getDefaultData url), s)
  \/ exists m html finalUrl extracted,
       found = Some (m, html, finalUrl)
       /\ processExtractedHTML html finalUrl = Ok extracted
       /\ deliver url key found s =
          (Ok (set_extractionMethod extracted m),
           stored s key {| data := set_extractionMethod extracted m;
                           timestamp := clock (world s) |}).
Proof.
  destruct found as [[[m html] finalUrl]|]; cbn [deliver]; [|left; reflexivity].
  destruct (processExtractedHTML html finalUrl) as [extracted|e] eqn:E;
    [right | left; reflexivity].
  exists m, html, finalUrl, extracted.
  split; [reflexivity|]. split; [exact E|]. reflexivity.
Qed.

(** The two ways [extractData] ends on a request the cache does not answer:
    with the default record and the cache as it was, or with the record
    extracted from the markup some strategy fetched, tagged and stored under
    the key with the time of the write. *)
Lemma extractData_outcome (url method : jsstring) (s : State) :
  miss url method s ->
  exists w b t,
    extractData url method s = (Ok (getDefaultData url), after s w b t)
    \/ exists m html finalUrl extracted s0 s0',
         run_strategy (strategy_of m) url s0 = (Ok (Fetched html finalUrl), s0')
         /\ processExtractedHTML html finalUrl = Ok extracted
         /\ extractData url method s =
            (Ok (set_extractionMethod extracted m),
             stored (after s w b t) (cacheKey url method)
               {| data := set_extractionMethod extracted m;
                  timestamp := clock w |}).
Proof.
  intros Hm. rewrite (extractData_miss_eq url method s Hm).
  unfold try_catch, bind, lift.
  destruct (resolve url method) as [m|e].
  - destruct (try_methods_shape (m :: filter (fun m' => m' <> m) allMethods) url s)
      as (out & w & b & t & Ht & Hout).
    rewrite Ht. exists w, b, t. destruct out as [found|e].
    + destruct (deliver_shape url (cacheKey url method) found (after s w b t))
        as [Hd | (m' & html & finalUrl & extracted & -> & Hp & Hd)];
        rewrite Hd; [left; reflexivity | right].
      destruct Hout as (failed & rest & s0 & s0' & _ & _ & Hrun).
      exists m', html, finalUrl, extracted, s0, s0'.
      repeat split; assumption.
    + left. reflexivity.
  - exists (world s), (browser s), []. left. rewrite after_id. reflexivity.
Qed.

Lemma extractData_total (url method : jsstring) (s : State) :
  exists r s', extractData url method s = (Ok r, s').
Proof.
  destruct (fresh (dataCache s !! cacheKey url method) (clock (world s)))
    as [c|] eqn:E.
  - rewrite (extractData_hit url method s c E). eauto.
  - destruct (extractData_outcome url method s E)
      as (w & b & t & [H | (m & html & finalUrl & extracted & s0 & s0' & _ & _ & H)]);
      rewrite H; eauto.
Qed.

(** When the strategies behind the method names all fail, the loop over
    the names finds nothing, or ends with what a strategy threw. *)
Lemma try_methods_fail (ms : list jsstring) (url : jsstring) (s : State) :
  fail_from (map strategy_of ms) url s ->
  exists w b t,
    try_methods ms url s = (Ok None, after s w b t)
    \/ exists e, try_methods ms url s = (Throw e, after s w b t).
Proof.
  revert s. induction ms as [|m ms IH]; intros s.
  - intros _. exists (world s), (browser s), []. rewrite after_id.
    left. reflexivity.
  - cbn [map fail_from try_methods]. unfold bind. rewrite run_method_strategy.
    destruct (run_strategy_shape (strategy_of m) url s) as (r & w & b & t & Hr & _).
    rewrite Hr. destruct r as [[html finalUrl|e]|e]; [contradiction | |].
    + intros Hf. destruct (IH _ Hf) as (w' & b' & t' & H).
      exists w', b', (t ++ t'). rewrite <- (after_after s w b t w' b' t'). exact H.
    + intros _. exists w, b, t. right. eauto.
Qed.

(** When every strategy that the call runs fails, the call ends in the
    default record and the cache is as it was. *)
Lemma extractData_fails (url method : jsstring) (s : State) :
  miss url method s -> fails_in_call url method s ->
  exists w b t,
    extractData url method s = (Ok (getDefaultData url), after s w b t).
Proof.
  intros Hm Hf. rewrite (extractData_miss_eq url method s Hm).
  unfold fails_in_call, planned in Hf. unfold try_catch, bind, lift.
  destruct (resolve url method) as [m|e].
  - destruct (try_methods_fail _ url s Hf) as (w & b & t & [H | [e H]]);
      rewrite H; exists w, b, t; reflexivity.
  - exists (world s), (browser s), []. rewrite after_id. reflexivity.
Qed.

(** An entry that is stale stays stale as time goes on. *)
Lemma miss_later (url method : jsstring) (s s2 : State) :
  miss url method s -> dataCache s2 = dataCache s ->
  (clock (world s) <= clock (world s2))%Z ->
  miss url method s2.
Proof.
  unfold miss, fresh. intros H -> Hc.
  destruct (dataCache s !! cacheKey url method) as [c|]; [|reflexivity].
  destruct (Z.ltb_spec (clock (world s) - timestamp c) CACHE_TTL); [discriminate|].
  destruct (Z.ltb_spec (clock (world s2) - timestamp c) CACHE_TTL); [lia|reflexivity].
Qed.

End ExtractorFacts.

Section TraceFacts.
Context `{P : Platform} `{R : Runtime}.

(** The loop over the names attempts a non-empty initial part of them, by
    calls made on the library. *)
Lemma try_methods_attempts (ms : list jsstring) (url : jsstring) :
  forall (m : jsstring) (s : State),
  exists out w b t k,
    try_methods (m :: ms) url s = (out, after s w b t)
    /\ attempts t = take (S k) (map strategy_of (m :: ms))
    /\ replay t (world s) = Some w.
Proof.
  induction ms as [|m' ms IH]; intros m s.
  - cbn [try_methods]. unfold bind. rewrite run_method_strategy.
    destruct (run_strategy_replay (strategy_of m) url s)
      as (r & w & b & t & Hr & Ha & Hp).
    rewrite Hr. destruct r as [[html finalUrl|e]|e]; do 3 eexists; exists t, 0;
      (split; [reflexivity | split; [exact Ha | exact Hp]]).
  - cbn [try_methods]. unfold bind. rewrite run_method_strategy.
    destruct (run_strategy_replay (strategy_of m) url s)
      as (r & w & b & t & Hr & Ha & Hp).
    rewrite Hr. destruct r as [[html finalUrl|e]|e].
    + do 3 eexists. exists t, 0. split; [reflexivity | split; [exact Ha | exact Hp]].
    + destruct (IH m' (after s w b t)) as (out & w' & b' & t' & k & Ht & Hk & Hp').
      cbn [try_methods] in Ht. unfold bind in Ht. rewrite Ht, after_after.
      exists out, w', b', (t ++ t'), (S k). split; [reflexivity|].
      rewrite attempts_app, Ha, Hk. split; [reflexivity|].
      rewrite (replay_app t t' (world s) w Hp). exact Hp'.
    + do 3 eexists. exists t, 0. split; [reflexivity | split; [exact Ha | exact Hp]].
Qed.

Lemma deliver_trace (url key : jsstring)
    (found : option (jsstring * jsstring * jsstring)) (s : State) :
  exists r s', deliver url key found s = (Ok r, s') /\ trace s' = trace s.
Proof.
  destruct (deliver_shape url key found s)
    as [Hd | (m' & html & finalUrl & extracted & _ & _ & Hd)];
    rewrite Hd; eauto.
Qed.

Lemma deliver_world (url key : jsstring)
    (found : option (jsstring * jsstring * jsstring)) (s : State) :
  world (snd (deliver url key found s)) = world s
  /\ trace (snd (deliver url key found s)) = trace s.
Proof.
  destruct (deliver_shape url key found s)
    as [Hd | (m' & html & finalUrl & extracted & _ & _ & Hd)];
    rewrite Hd; split; reflexivity.
Qed.

(** What a call that the cache does not answer adds to the trace, when the
    request resolves to the method name [m]. *)
Lemma extractData_trace (url method m : jsstring) (s : State) :
  miss url method s -> resolve url method = Ok m ->
  exists out w b t k,
    try_methods (m :: filter (fun m' => m' <> m) allMethods) url s
      = (out, after s w b t)
    /\ trace (snd (extractData url method s)) = trace s ++ t
    /\ attempts t
       = take (S k) (map strategy_of (m :: filter (fun m' => m' <> m) allMethods))
    /\ replay t (world s) = Some (world (snd (extractData url method s))).
Proof.
  intros Hm Hr. rewrite (extractData_miss_eq url method s Hm).
  unfold try_catch, bind, lift. rewrite Hr.
  destruct (try_methods_attempts (filter (fun m' => m' <> m) allMethods) url m s)
    as (out & w & b & t & k & Ht & Hk & Hp).
  rewrite Ht. exists out, w, b, t, k. split; [reflexivity|].
  destruct out as [found|e]; [|repeat split; assumption].
  destruct (deliver_world url (cacheKey url method) found (after s w b t))
    as (Hw & Htr).
  destruct (deliver_total url (cacheKey url method) found (after s w b t))
    as (r & s' & Hd).
  rewrite Hd in *. cbn [snd] in *. rewrite Hw, Htr.
  repeat split; assumption.
Qed.

Lemma extractData_attempt_all (url method m : jsstring) (s : State) :
  miss url method s -> resolve url method = Ok m ->
  extractData url method s
  = attempt_all url (cacheKey url method)
      (m :: filter (fun m' => m' <> m) allMethods) s.
Proof.
  intros Hm Hr. rewrite (extractData_miss_eq url method s Hm).
  unfold attempt_all, try_catch, bind, lift. rewrite Hr. reflexivity.
Qed.

Lemma attempt_all_trace (url key : jsstring) (ms : list jsstring) (s : State) :
  exists t k,
    trace (snd (attempt_all url key ms s)) = trace s ++ t
    /\ attempts t = take k (map strategy_of ms).
Proof.
  unfold attempt_all, try_catch, bind.
  destruct ms as [|m ms].
  - exists [], 0. rewrite app_nil_r. split; reflexivity.
  - destruct (try_methods_attempts ms url m s)
      as (out & w & b & t & k & Ht & Hk & _).
    rewrite Ht. exists t, (S k). split; [|exact Hk].
    destruct out as [found|e]; [|reflexivity].
    destruct (deliver_trace url key found (after s w b t)) as (r & s' & Hd & Htr).
    rewrite Hd. exact Htr.
Qed.

(** One step of the loop when the method name runs the plain request. *)
Lemma attempt_all_axios (url key m : jsstring) (ms : list jsstring) (s : State) :
  strategy_of m = Http ->
  attempt_all url key (m :: ms) s =
  let '(r, w) := axios_get url (world s) in
  match r with
  | Ok (body, responseUrl) =>
    deliver url key (Some (m, body, or_else responseUrl url))
      (after s w (browser s) [(AxiosGet url, true)])
  | Throw _ =>
    attempt_all url key ms (after s w (browser s) [(AxiosGet url, false)])
  end.
Proof.
  intros Hst. unfold attempt_all, try_catch, bind. cbn [try_methods]. unfold bind.
  rewrite run_method_strategy, Hst. cbn [run_strategy].
  rewrite extractWithAxios_run.
  destruct (axios_get url (world s)) as [[[body responseUrl]|e] w]; cbn [is_ok].
  - destruct (deliver_trace url key (Some (m, body, or_else responseUrl url))
                (after s w (browser s) [(AxiosGet url, true)]))
      as (r & s' & Hd & _).
    unfold ret. rewrite Hd. reflexivity.
  - reflexivity.
Qed.

End TraceFacts.


(** * The claims of the specification *)

Section Claims.
Context `{P : Platform} `{R : Runtime}.

Ltac in_list := repeat first [apply list_elem_of_here | apply list_elem_of_further].

(** C1 (as amended).  When every strategy that the call runs fails and the
    cache has no fresh entry for the request, [extractData] returns the
    default record for the URL: tagged [fallback], carrying the requested
    URL, with its benefits and testimonials non-empty and its images and
    videos empty.  The failure is that of the strategies of this call, as it
    runs them: the same strategies may succeed at another time. *)
Theorem default_record_on_total_failure (u method : jsstring) (s : State) :
  miss u method s -> fails_in_call u method s ->
  exists s',
    extractData u method s = (Ok (getDefaultData u), s')
    /\ extractionMethod (getDefaultData u) = Some (js "fallback")
    /\ url (getDefaultData u) = u
    /\ length (benefits (getDefaultData u)) = 5
    /\ length (testimonials (getDefaultData u)) = 3
    /\ images (getDefaultData u) = []
    /\ videos (getDefaultData u) = [].
Proof.
  intros Hm Hf.
  destruct (extractData_fails u method s Hm Hf) as (w & b & t & H).
  exists (after s w b t). repeat split; try reflexivity. exact H.
Qed.

(** C2 (as amended).  When a call returns a record that is not tagged
    [fallback], a later call for the same URL and method, made with the cache
    as the first call left it and less than [CACHE_TTL] after the time of the
    cached entry, returns the same record and leaves the state as it is: it
    makes no library call, so it runs no strategy. *)
Theorem second_call_is_cache_hit (u method : jsstring) (s s1 s2 : State)
    (r : ContentRecord) :
  extractData u method s = (Ok r, s1) ->
  extractionMethod r <> Some (js "fallback") ->
  dataCache s2 = dataCache s1 ->
  (forall e, dataCache s1 !! cacheKey u method = Some e ->
             (clock (world s2) - timestamp e < CACHE_TTL)%Z) ->
  extractData u method s2 = (Ok r, s2).
Proof.
  intros H1 Hr Hc Ht.
  assert (Hentry : exists e, dataCache s1 !! cacheKey u method = Some e
                             /\ data e = r).
  { destruct (fresh (dataCache s !! cacheKey u method) (clock (world s)))
      as [c|] eqn:E.
    - rewrite (extractData_hit u method s c E) in H1.
      assert (r = data c) by congruence. assert (s1 = s) by congruence. subst.
      exists c. split; [|reflexivity]. unfold fresh in E.
      destruct (dataCache s !! cacheKey u method) as [c'|]; [|discriminate].
      destruct (_ <? _)%Z; congruence.
    - destruct (extractData_outcome u method s E)
        as (w & b & t & [H | (m & html & finalUrl & extracted & s0 & s0' & _ & _ & H)]);
        rewrite H in H1.
      + exfalso. apply Hr. assert (r = getDefaultData u) by congruence.
        subst r. reflexivity.
      + eexists. split.
        * assert (Hs : s1 = stored (after s w b t) (cacheKey u method)
                           {| data := set_extractionMethod extracted m;
                              timestamp := clock w |}) by congruence.
          rewrite Hs. unfold stored. cbn [dataCache]. apply lookup_insert_eq.
        * cbn [data]. congruence. }
  destruct Hentry as (e & He & Hd).
  specialize (Ht e He). rewrite <- Hd.
  apply extractData_hit. rewrite Hc, He. unfold fresh.
  destruct (Z.ltb_spec (clock (world s2) - timestamp e) CACHE_TTL);
    [reflexivity | lia].
Qed.

(** C3 (as amended).  For the method [auto] and for the four method names,
    on a request the cache does not answer, and when no strategy that the
    call runs throws, [extractData] is the orchestration of the
    specification: it runs the resolved strategy and then, while none has
    succeeded, the other strategies in the fixed order, stopping at the first
    success.  The strategies the trace shows are exactly those up to and
    with the first success, attempted by calls made on the library; and when
    the field extractor returns a record for the markup, the call returns
    that record tagged with the name of the strategy that fetched it. *)
Theorem fallback_chain_in_fixed_order (u method : jsstring) (first : Strategy)
    (s : State) :
  miss u method s -> resolves u method first ->
  no_throw (chain first) u s ->
  extractData u method s = orchestrate u (cacheKey u method) first s
  /\ (exists t,
        trace (snd (extractData u method s)) = trace s ++ t
        /\ attempts t = attempted (chain first) u s
        /\ replay t (world s) = Some (world (snd (extractData u method s))))
  /\ forall st html finalUrl extracted,
       fst (first_success (chain first) u s) = Some (st, html, finalUrl) ->
       processExtractedHTML html finalUrl = Ok extracted ->
       fst (extractData u method s)
       = Ok (set_extractionMethod extracted (name st)).
Proof.
  intros Hm Hr Hn.
  rewrite (extractData_orchestrate u method first s Hm Hr Hn).
  split; [reflexivity|]. unfold orchestrate.
  destruct (first_success_attempts (chain first) u s) as (w & b & t & Hs & Ha & Hp).
  destruct (first_success (chain first) u s) as [found s1]. cbn [fst snd] in *.
  subst s1. split.
  - exists t.
    destruct (deliver_world u (cacheKey u method) (tag <$> found) (after s w b t))
      as (Hw & Htr).
    rewrite Hw, Htr. repeat split; assumption.
  - intros st html finalUrl extracted -> He. cbn [fmap option_fmap option_map tag deliver].
    rewrite He. reflexivity.
Qed.

(** C4 (as amended).  [extractData] never fails outward, not even on a URL
    that does not parse: it returns a record.  For the method [auto] and no
    fresh cache entry, that record is the default record for the URL, and
    nothing is attempted nor cached. *)
Theorem invalid_url_gets_default_record (u method : jsstring) (s : State) :
  url_hostname u = None -> miss u (js "auto") s ->
  (exists r s', extractData u method s = (Ok r, s'))
  /\ extractData u (js "auto") s = (Ok (getDefaultData u), s).
Proof.
  intros Hu Hm. split; [apply extractData_total|].
  rewrite (extractData_miss_eq u (js "auto") s Hm).
  unfold try_catch, bind, lift, resolve, detectBestMethod.
  rewrite decide_True by reflexivity. rewrite Hu. reflexivity.
Qed.

(** C6.  Every run of [extractWithPuppeteer] and of [extractWithPlaywright],
    whatever each library call does and whether the function returns a
    success, returns a failure or throws, leaves in the trace either a failed
    launch alone (no browser to close) or a successful launch followed, as the
    last call of the run, by the one [browser.close()].  The calls of the
    trace are the calls made on the library: [close] is called on the library
    in the world that the calls before it left, and the world the run ends
    in is the one that call leaves. *)
Theorem browser_closed_on_every_exit (e : Engine) (u : jsstring) (s : State) :
  exists r s' t,
    run_browser e u s = (r, s')
    /\ trace s' = trace s ++ t
    /\ closed_run e t
    /\ replay t (world s) = Some (world s')
    /\ (t = [(Browser e Launch, false)]
        \/ exists ok w0 closed,
             last t = Some (Browser e Close, ok)
             /\ replay (removelast t) (world s) = Some w0
             /\ browser_call e Close w0 = (closed, world s')
             /\ ok = is_ok closed
             /\ (ok = false -> is_ok r = false)).
Proof.
  destruct (run_browser_shape e u s) as (r & w & b & t & H & _ & Hc & Hp & Hthrow).
  exists r, (after s w b t), t. cbn [after world trace].
  split; [exact H|]. split; [reflexivity|]. split; [exact Hc|].
  split; [exact Hp|].
  destruct Hc as [Hc | (_ & [ok Hl] & _)]; [left; exact Hc | right].
  destruct (replay_last t (world s) w (Browser e Close) ok Hp Hl) as (w0 & H0 & Ho).
  cbn [outcome] in Ho. destruct (browser_call e Close w0) as [closed w'] eqn:E.
  exists ok, w0, closed.
  assert (ok = is_ok closed /\ w' = w) as [-> ->] by (split; congruence).
  repeat split; try assumption. intros Hk. apply Hthrow. rewrite Hl, Hk. reflexivity.
Qed.

(** C7.  For a URL whose hostname parses, strategy selection lowercases the
    hostname and returns [playwright] when it has an entry of the JS-heavy
    list as a substring; otherwise [cloudscraper] when it has an entry of the
    Cloudflare list; otherwise [puppeteer] when it has an entry of the
    bot-blocking list; otherwise [axios]. *)
Theorem strategy_selection (u hostname : jsstring) :
  url_hostname u = Some hostname ->
  let domain := toLowerCase hostname in
  (contains_any domain jsHeavySites
   /\ detectBestMethod u = Ok (name FullBrowser))
  \/ (~ contains_any domain jsHeavySites
      /\ contains_any domain cloudflareSites
      /\ detectBestMethod u = Ok (name CloudflareHttp))
  \/ (~ contains_any domain jsHeavySites
      /\ ~ contains_any domain cloudflareSites
      /\ contains_any domain botBlockingSites
      /\ detectBestMethod u = Ok (name LightweightBrowser))
  \/ (~ contains_any domain jsHeavySites
      /\ ~ contains_any domain cloudflareSites
      /\ ~ contains_any domain botBlockingSites
      /\ detectBestMethod u = Ok (name Http)).
Proof.
  intros Hu domain. unfold detectBestMethod. rewrite Hu. fold domain.
  destruct (existsb _ jsHeavySites) eqn:E1.
  { left. split; [apply some_includes_spec; exact E1 | reflexivity]. }
  assert (N1 : ~ contains_any domain jsHeavySites).
  { intros H. apply some_includes_spec in H. congruence. }
  destruct (existsb _ cloudflareSites) eqn:E2.
  { right; left. repeat split;
      [exact N1 | apply some_includes_spec; exact E2]. }
  assert (N2 : ~ contains_any domain cloudflareSites).
  { intros H. apply some_includes_spec in H. congruence. }
  destruct (existsb _ botBlockingSites) eqn:E3.
  { right; right; left. repeat split;
      [exact N1 | exact N2 | apply some_includes_spec; exact E3]. }
  right; right; right. repeat split; [exact N1 | exact N2 |].
  intros H. apply some_includes_spec in H. congruence.
Qed.

(** C8.  When every strategy that the call runs fails, the default record
    goes to the caller and not into the cache: the cache after the call is
    the cache before it.  A later call for the same request, made with that
    cache, is not answered by the cache: it attempts the strategies again, from
    the first one, by calls made on the library (unless the method is [auto]
    and the URL does not parse: then there is nothing to attempt); and when
    the strategy it starts with now fetches markup from which the field
    extractor returns a record, the later call returns that record. *)
Theorem failed_extraction_is_not_cached (u method : jsstring) (s s2 : State) :
  miss u method s -> fails_in_call u method s ->
  dataCache s2 = dataCache (snd (extractData u method s)) ->
  (clock (world s) <= clock (world s2))%Z ->
  fst (extractData u method s) = Ok (getDefaultData u)
  /\ dataCache (snd (extractData u method s)) = dataCache s
  /\ miss u method s2
  /\ (exists t2,
        trace (snd (extractData u method s2)) = trace s2 ++ t2
        /\ replay t2 (world s2) = Some (world (snd (extractData u method s2)))
        /\ ((method = js "auto" /\ url_hostname u = None /\ t2 = [])
            \/ exists k, attempts t2 = take (S k) (planned u method)))
  /\ forall m html finalUrl extracted s',
       resolve u method = Ok m ->
       run_strategy (strategy_of m) u s2 = (Ok (Fetched html finalUrl), s') ->
       processExtractedHTML html finalUrl = Ok extracted ->
       fst (extractData u method s2) = Ok (set_extractionMethod extracted m).
Proof.
  intros Hm Hf Hc Ht.
  destruct (extractData_fails u method s Hm Hf) as (w & b & t & H).
  rewrite H in *. cbn [fst snd after dataCache] in *.
  assert (Hm2 : miss u method s2) by (eapply miss_later; eassumption).
  repeat split; [exact Hm2 | |].
  - destruct (resolve u method) as [m|e] eqn:Hr.
    + destruct (extractData_trace u method m s2 Hm2 Hr)
        as (out & w2 & b2 & t2 & k & _ & Htr & Hk & Hp).
      exists t2. split; [exact Htr|]. split; [exact Hp|]. right. exists k.
      unfold planned. rewrite Hr. exact Hk.
    + exists []. rewrite (extractData_miss_eq u method s2 Hm2).
      unfold try_catch, bind, lift. rewrite Hr. cbn [snd ret].
      rewrite app_nil_r. repeat split. left.
      unfold resolve in Hr. case_decide as Hauto; [|discriminate].
      unfold detectBestMethod in Hr.
      destruct (url_hostname u) as [h|]; [|auto].
      repeat (match type of Hr with context [if ?c then _ else _] => destruct c end);
        discriminate.
  - intros m html finalUrl extracted s' Hr Hrun He.
    rewrite (extractData_miss_eq u method s2 Hm2).
    unfold try_catch, bind, lift. rewrite Hr. cbn [try_methods]. unfold bind.
    rewrite run_method_strategy, Hrun. cbn [ret deliver]. rewrite He.
    reflexivity.
Qed.

(** C10.  For a method name that is none of [auto], [cloudscraper],
    [puppeteer] and [playwright], on a request the cache does not answer, the
    first library call of [extractData] is the request of the plain HTTP
    strategy.  When that request succeeds nothing else is called.  When it
    fails and the method name is not [axios], the next call is the same
    request again; when the name is [axios], the plain HTTP strategy is not
    attempted a second time. *)
Theorem unrecognized_method_runs_axios (u method : jsstring) (s : State) :
  method ∉ [js "auto"; js "cloudscraper"; js "puppeteer"; js "playwright"] ->
  miss u method s ->
  exists ok t,
    trace (snd (extractData u method s)) = trace s ++ (AxiosGet u, ok) :: t
    /\ ok = is_ok (fst (axios_get u (world s)))
    /\ ((ok = true /\ t = [])
        \/ (ok = false /\ method = js "axios" /\ Http ∉ attempts t)
        \/ (ok = false /\ method <> js "axios"
            /\ exists ok2 t', t = (AxiosGet u, ok2) :: t')).
Proof.
  intros Hn Hm.
  assert (Hres : resolve u method = Ok method).
  { unfold resolve. rewrite decide_False; [reflexivity|].
    intros ->. apply Hn. in_list. }
  assert (Hst : strategy_of method = Http).
  { unfold strategy_of. rewrite !decide_False; [reflexivity|..];
      intros ->; apply Hn; in_list. }
  rewrite (extractData_attempt_all u method method s Hm Hres).
  rewrite (attempt_all_axios u _ method _ s Hst).
  destruct (axios_get u (world s)) as [[[body responseUrl]|e] w]; cbn [fst is_ok].
  - destruct (deliver_trace u (cacheKey u method)
                (Some (method, body, or_else responseUrl u))
                (after s w (browser s) [(AxiosGet u, true)]))
      as (r & s' & Hd & Htr).
    rewrite Hd. exists true, []. repeat split; [exact Htr|]. left. split; reflexivity.
  - destruct (decide (method = js "axios")) as [-> | Hax].
    + destruct (attempt_all_trace u (cacheKey u (js "axios"))
                  (filter (fun m' => m' <> js "axios") allMethods)
                  (after s w (browser s) [(AxiosGet u, false)]))
        as (t & k & Htr & Hk).
      exists false, t. rewrite Htr. cbn [after trace].
      rewrite <- app_assoc. repeat split.
      right; left. repeat split. rewrite Hk.
      change (map strategy_of (filter (fun m' => m' <> js "axios") allMethods))
        with [CloudflareHttp; LightweightBrowser; FullBrowser].
      intros Hin. apply (subseteq_take k) in Hin.
      rewrite !elem_of_cons in Hin.
      destruct Hin as [Hin | [Hin | [Hin | Hin]]]; try discriminate Hin.
      apply elem_of_nil in Hin. exact Hin.
    + rewrite filter_unknown.
      2:{ intros Hin. unfold allMethods in Hin. rewrite !elem_of_cons in Hin.
          destruct Hin as [H1 | [H1 | [H1 | [H1 | H1]]]];
            [exact (Hax H1) | | | | apply elem_of_nil in H1; exact H1];
            apply Hn; rewrite H1; in_list. }
      unfold allMethods. rewrite (attempt_all_axios u _ (js "axios"));
        [|reflexivity].
      cbn [after world browser].
      destruct (axios_get u w) as [[[body responseUrl]|e2] w2].
      * destruct (deliver_trace u (cacheKey u method)
                    (Some (js "axios", body, or_else responseUrl u))
                    (after (after s w (browser s) [(AxiosGet u, false)]) w2
                       (browser s) [(AxiosGet u, true)]))
          as (r & s' & Hd & Htr).
        rewrite Hd. exists false, [(AxiosGet u, true)]. cbn [snd].
        rewrite Htr. cbn [after trace]. rewrite <- app_assoc.
        repeat split. right; right. repeat split; [exact Hax|]. eauto.
      * destruct (attempt_all_trace u (cacheKey u method)
                    [js "cloudscraper"; js "puppeteer"; js "playwright"]
                    (after (after s w (browser s) [(AxiosGet u, false)]) w2
                       (browser s) [(AxiosGet u, false)]))
          as (t & k & Htr & _).
        exists false, ((AxiosGet u, false) :: t). rewrite Htr.
        cbn [after trace]. rewrite <- !app_assoc.
        repeat split. right; right. repeat split; [exact Hax|]. eauto.
Qed.

End Claims.

(** * The claims on concrete runs *)

Import Sample.

(** The default record has no image and no video. *)
Lemma default_record_has_no_media :
  exists r s',
    extractData (P:=shop_platform) (R:=offline) product (js "auto")
      (start offline 0%Z) = (Ok r, s')
    /\ attempts (trace s') = [Http; CloudflareHttp; LightweightBrowser; FullBrowser]
    /\ extractionMethod r = Some (js "fallback")
    /\ images r = [] /\ videos r = [].
Proof. do 2 eexists. vm_compute. repeat split; reflexivity. Qed.

(** A call in which the four strategies fail, in a world where the next
    fetch would succeed. *)
Lemma default_record_on_total_failure_witness :
  let s := at_start [false; false; false; false; true] in
  miss product (js "auto") s
  /\ fails_in_call (P:=shop_platform) product (js "auto") s
  /\ attempts (trace (snd (extractData (P:=shop_platform) product (js "auto") s)))
     = [Http; CloudflareHttp; LightweightBrowser; FullBrowser]
  /\ exists s',
       extractData (P:=shop_platform) product (js "auto") s
       = (Ok (getDefaultData product), s')
       /\ extractionMethod (getDefaultData product) = Some (js "fallback")
       /\ url (getDefaultData product) = product
       /\ length (benefits (getDefaultData product)) = 5
       /\ length (testimonials (getDefaultData product)) = 3
       /\ images (getDefaultData product) = []
       /\ videos (getDefaultData product) = [].
Proof.
  cbv zeta. split; [reflexivity|]. split; [vm_compute; exact I|].
  split; [vm_compute; reflexivity|].
  apply (default_record_on_total_failure (P:=shop_platform) (R:=online) product
           (js "auto") (at_start [false; false; false; false; true]));
    [reflexivity | vm_compute; exact I].
Defined.

(** Two calls in a row in the offline world, well within the hour: the
    second one runs the four strategies again.  And a first call whose first
    strategy fails and whose second succeeds has issued two fetches before
    anything is cached. *)
Lemma second_call_may_fetch_again :
  (let s1 := snd (extractData (P:=shop_platform) (R:=offline) product (js "auto")
                    (start offline 0%Z)) in
   let s2 := snd (extractData (P:=shop_platform) (R:=offline) product (js "auto") s1) in
   (clock (world s2) - clock (world (start offline 0%Z)) < CACHE_TTL)%Z
   /\ length (attempts (trace s1)) = 4
   /\ length (attempts (trace s2)) = 8)
  /\ (let s1 := snd (extractData (P:=shop_platform) (R:=online) product (js "auto")
                       (at_start [false; true])) in
      attempts (trace s1) = [Http; CloudflareHttp]
      /\ is_Some (dataCache s1 !! cacheKey product (js "auto"))).
Proof.
  split.
  - vm_compute. repeat split; reflexivity.
  - cbv zeta. split; [vm_compute; reflexivity|].
    apply (bool_decide_unpack _). vm_compute. exact I.
Qed.

Lemma second_call_is_cache_hit_witness :
  let first := extractData (P:=shop_platform) (R:=online) product (js "auto")
                 (at_start [false; true]) in
  let r := match fst first with Ok r => r | Throw _ => getDefaultData [] end in
  let s1 := snd first in
  let s2 := at_time s1 [true] 3000000 in
  extractionMethod r = Some (js "cloudscraper")
  /\ extractData (P:=shop_platform) (R:=online) product (js "auto") s2 = (Ok r, s2).
Proof.
  cbv zeta. split; [vm_compute; reflexivity|].
  eapply (second_call_is_cache_hit (P:=shop_platform) (R:=online) product (js "auto")
            (at_start [false; true])).
  - vm_compute. reflexivity.
  - vm_compute. discriminate.
  - reflexivity.
  - intros e He. vm_compute in He. injection He as <-. vm_compute. reflexivity.
Defined.

(** With the method name [curl] the plain request runs, fails, and runs
    again; when it succeeds at once, the record is tagged [curl], the name
    of no strategy.  On a page with an image whose source does not resolve,
    the markup that the plain request fetched ends in the default record,
    tagged [fallback].  And when [browser.close()] throws, the lightweight
    browser, which had captured the markup, throws past its boundary: the
    call ends in the default record and the full browser, the strategy left
    in the chain, is never attempted. *)
Lemma chain_outside_the_method_names :
  (let run := extractData (P:=shop_platform) (R:=online) product (js "curl")
                (at_start [false; true]) in
   trace (snd run) = [(AxiosGet product, false); (AxiosGet product, true)]
   /\ attempts (trace (snd run)) = [Http; Http])
  /\ (let run := extractData (P:=shop_platform) (R:=online) product (js "curl")
                   (at_start [true]) in
      attempts (trace (snd run)) = [Http]
      /\ (extractionMethod <$> (match fst run with Ok r => Some r | Throw _ => None end))
         = Some (Some (js "curl")))
  /\ (let run := extractData (P:=broken_platform) (R:=online) product (js "axios")
                   (at_start [true]) in
      trace (snd run) = [(AxiosGet product, true)]
      /\ fst run = Ok (getDefaultData product))
  /\ (let s := start (runtime markup true)
                 {| script := [false; false; true; true]; time := 0 |} in
      let run := extractData (P:=shop_platform) (R:=runtime markup true) product
                   (js "axios") s in
      miss (R:=runtime markup true) product (js "axios") s
      /\ resolves (P:=shop_platform) product (js "axios") Http
      /\ attempts (trace (snd run)) = [Http; CloudflareHttp; LightweightBrowser]
      /\ ((Browser Puppeteer Content, true) ∈ trace (snd run))
      /\ last (trace (snd run)) = Some (Browser Puppeteer Close, false)
      /\ fst run = Ok (getDefaultData product)
      /\ attempted (R:=runtime markup true) (chain Http) product s
         = [Http; CloudflareHttp; LightweightBrowser; FullBrowser]).
Proof.
  split; [vm_compute; repeat split; reflexivity|].
  split; [vm_compute; repeat split; reflexivity|].
  split; [vm_compute; repeat split; reflexivity|].
  cbv zeta. split; [reflexivity|]. split; [vm_compute; reflexivity|].
  split; [vm_compute; reflexivity|].
  split; [vm_compute;
          repeat first [apply list_elem_of_here | apply list_elem_of_further]|].
  split; [vm_compute; reflexivity|]. split; [vm_compute; reflexivity|].
  vm_compute. reflexivity.
Qed.

Lemma fallback_chain_in_fixed_order_witness :
  let s := at_start [false; false; true] in
  let run := extractData (P:=shop_platform) amazon (js "auto") s in
  miss amazon (js "auto") s
  /\ resolves (P:=shop_platform) amazon (js "auto") LightweightBrowser
  /\ no_throw (chain LightweightBrowser) amazon s
  /\ run = orchestrate (P:=shop_platform) amazon (cacheKey amazon (js "auto"))
            LightweightBrowser s
  /\ (exists t,
        trace (snd run) = trace s ++ t
        /\ attempts t = [LightweightBrowser; Http; CloudflareHttp]
        /\ replay t (world s) = Some (world (snd run)))
  /\ (extractionMethod <$> (match fst run with Ok r => Some r | Throw _ => None end))
     = Some (Some (name CloudflareHttp)).
Proof.
  cbv zeta.
  assert (Hr : resolves (P:=shop_platform) amazon (js "auto") LightweightBrowser)
    by (vm_compute; reflexivity).
  assert (Hn : no_throw (chain LightweightBrowser) amazon
                 (at_start [false; false; true])) by (vm_compute; exact I).
  split; [reflexivity|]. split; [exact Hr|]. split; [exact Hn|].
  destruct (fallback_chain_in_fixed_order (P:=shop_platform) (R:=online) amazon
              (js "auto") LightweightBrowser (at_start [false; false; true])
              eq_refl Hr Hn) as (H1 & (t & Ht & Ha & Hp) & H3).
  split; [exact H1|]. split.
  - exists t. split; [exact Ht|]. split; [|exact Hp].
    rewrite Ha. vm_compute. reflexivity.
  - erewrite H3; [reflexivity | vm_compute; reflexivity | vm_compute; reflexivity].
Defined.

(** The run of the witness: the browser does not start, the plain request
    fails, the Cloudflare-tolerant one succeeds and tags the record. *)
Example fallback_chain_run :
  let run := extractData (P:=shop_platform) (R:=online) amazon (js "auto")
               (at_start [false; false; true]) in
  attempts (trace (snd run)) = [LightweightBrowser; Http; CloudflareHttp]
  /\ (extractionMethod <$> (match fst run with Ok r => Some r | Throw _ => None end))
     = Some (Some (js "cloudscraper")).
Proof. vm_compute. split; reflexivity. Qed.

(** A URL that does not parse gets a record, not an error. *)
Lemma invalid_url_is_not_an_error :
  url_hostname (Platform:=shop_platform) (js "not a url") = None
  /\ extractData (P:=shop_platform) (R:=offline) (js "not a url") (js "auto")
       (start offline 0%Z)
     = (Ok (getDefaultData (js "not a url")), start offline 0%Z)
  /\ fst (extractData (P:=shop_platform) (R:=offline) (js "not a url") (js "axios")
            (start offline 0%Z))
     = Ok (getDefaultData (js "not a url")).
Proof. vm_compute. repeat split; reflexivity. Qed.

Lemma invalid_url_gets_default_record_witness :
  url_hostname (Platform:=shop_platform) (js "not a url") = None
  /\ miss (R:=offline) (js "not a url") (js "auto") (start offline 0%Z)
  /\ (exists r s',
        extractData (P:=shop_platform) (R:=offline) (js "not a url")
          (js "playwright") (start offline 0%Z) = (Ok r, s'))
  /\ extractData (P:=shop_platform) (R:=offline) (js "not a url") (js "auto")
       (start offline 0%Z)
     = (Ok (getDefaultData (js "not a url")), start offline 0%Z).
Proof.
  split; [reflexivity|]. split; [reflexivity|].
  apply (invalid_url_gets_default_record (P:=shop_platform) (R:=offline)
           (js "not a url") (js "playwright") (start offline 0%Z));
    reflexivity.
Defined.

Lemma processExtractedHTML_bounds_witness :
  exists r,
    processExtractedHTML (P:=shop_platform) markup product = Ok r
    /\ length (benefits r) <= 8 /\ length (testimonials r) <= 5
    /\ length (images r) <= 10 /\ length (videos r) <= 5
    /\ length (description r) <= 500
    /\ NoDup (benefits r) /\ NoDup (testimonials r).
Proof.
  eexists. split; [vm_compute; reflexivity|].
  apply (processExtractedHTML_bounds (P:=shop_platform) markup product).
  vm_compute. reflexivity.
Defined.

(** On the product page the caps are reached: of the ten distinct list items
    eight are kept, of the twelve images ten. *)
Example shop_page_fields :
  ((fun r => (length (benefits r), length (images r), price r))
     <$> (match processExtractedHTML (P:=shop_platform) markup product with
          | Ok r => Some r | Throw _ => None end))
  = Some (8, 10, js "R$ 199,90").
Proof. vm_compute. reflexivity. Qed.

Lemma strategy_selection_witness :
  let domain := toLowerCase (Platform:=shop_platform) (js "www.amazon.com") in
  url_hostname (Platform:=shop_platform) amazon = Some (js "www.amazon.com")
  /\ ((contains_any domain jsHeavySites
       /\ detectBestMethod (P:=shop_platform) amazon = Ok (name FullBrowser))
      \/ (~ contains_any domain jsHeavySites
          /\ contains_any domain cloudflareSites
          /\ detectBestMethod (P:=shop_platform) amazon = Ok (name CloudflareHttp))
      \/ (~ contains_any domain jsHeavySites
          /\ ~ contains_any domain cloudflareSites
          /\ contains_any domain botBlockingSites
          /\ detectBestMethod (P:=shop_platform) amazon
             = Ok (name LightweightBrowser))
      \/ (~ contains_any domain jsHeavySites
          /\ ~ contains_any domain cloudflareSites
          /\ ~ contains_any domain botBlockingSites
          /\ detectBestMethod (P:=shop_platform) amazon = Ok (name Http))).
Proof.
  cbv zeta. split; [vm_compute; reflexivity|].
  apply (strategy_selection (P:=shop_platform) amazon (js "www.amazon.com")).
  vm_compute. reflexivity.
Defined.

(** The address of the witness goes to the lightweight browser. *)
Example strategy_selection_run :
  detectBestMethod (P:=shop_platform) amazon = Ok (js "puppeteer")
  /\ detectBestMethod (P:=shop_platform) (js "https://loja.myshopify.com/")
     = Ok (js "cloudscraper")
  /\ detectBestMethod (P:=shop_platform) (js "https://m.youtube.com/watch")
     = Ok (js "playwright")
  /\ detectBestMethod (P:=shop_platform) product = Ok (js "axios").
Proof. vm_compute. repeat split; reflexivity. Qed.

(** A call in which the four strategies fail caches nothing; the call
    after it goes to the network again and, the plain request now succeeding,
    returns the record extracted, tagged [axios]. *)
Lemma failed_extraction_is_not_cached_witness :
  let s := at_start [false; false; false; false; true] in
  let s2 := snd (extractData (P:=shop_platform) product (js "auto") s) in
  let again := extractData (P:=shop_platform) product (js "auto") s2 in
  miss product (js "auto") s
  /\ fails_in_call (P:=shop_platform) product (js "auto") s
  /\ fst (extractData (P:=shop_platform) product (js "auto") s)
     = Ok (getDefaultData product)
  /\ dataCache s2 = dataCache s
  /\ miss product (js "auto") s2
  /\ (exists t2,
        trace (snd again) = trace s2 ++ t2
        /\ replay t2 (world s2) = Some (world (snd again))
        /\ attempts t2 = [Http])
  /\ (extractionMethod <$> (match fst again with Ok r => Some r | Throw _ => None end))
     = Some (Some (js "axios")).
Proof.
  cbv zeta.
  assert (Hf : fails_in_call (P:=shop_platform) product (js "auto")
                 (at_start [false; false; false; false; true]))
    by (vm_compute; exact I).
  split; [reflexivity|]. split; [exact Hf|].
  destruct (failed_extraction_is_not_cached (P:=shop_platform) (R:=online) product
              (js "auto") (at_start [false; false; false; false; true])
              (snd (extractData (P:=shop_platform) product (js "auto")
                      (at_start [false; false; false; false; true])))
              eq_refl Hf eq_refl)
    as (H1 & H2 & H3 & (t2 & Ht & Hp & Ha) & H5); [vm_compute; discriminate|].
  split; [exact H1|]. split; [exact H2|]. split; [exact H3|]. split.
  - exists t2. split; [exact Ht|]. split; [exact Hp|].
    apply (f_equal attempts) in Ht. rewrite attempts_app in Ht.
    vm_compute in Ht. injection Ht as Ht. symmetry. exact Ht.
  - erewrite H5; [reflexivity | vm_compute; reflexivity | vm_compute; reflexivity
                 | vm_compute; reflexivity].
Defined.

Lemma unrecognized_method_runs_axios_witness :
  let s := at_start [false; true] in
  (js "curl" ∉ [js "auto"; js "cloudscraper"; js "puppeteer"; js "playwright"])
  /\ miss product (js "curl") s
  /\ exists ok t,
       trace (snd (extractData (P:=shop_platform) product (js "curl") s))
         = trace s ++ (AxiosGet product, ok) :: t
       /\ ok = is_ok (fst (axios_get product (world s)))
       /\ ((ok = true /\ t = [])
           \/ (ok = false /\ js "curl" = js "axios" /\ Http ∉ attempts t)
           \/ (ok = false /\ js "curl" <> js "axios"
               /\ exists ok2 t', t = (AxiosGet product, ok2) :: t')).
Proof.
  cbv zeta.
  assert (H : js "curl" ∉ [js "auto"; js "cloudscraper"; js "puppeteer";
                           js "playwright"])
    by (apply (bool_decide_unpack _); vm_compute; exact I).
  split; [exact H|]. split; [reflexivity|].
  apply (unrecognized_method_runs_axios (P:=shop_platform) (R:=online) product
           (js "curl") (at_start [false; true]) H).
  reflexivity.
Defined.

(** The three ways out of a browser strategy, on runs: a capture, a launch
    that fails, and a [close] that throws. *)
Example browser_runs :
  (let run := run_browser (R:=online) Puppeteer product (at_start [true]) in
   fst run = Ok (Fetched markup product)
   /\ last (trace (snd run)) = Some (Browser Puppeteer Close, true))
  /\ (let run := run_browser (R:=online) Playwright product (at_start [false]) in
      trace (snd run) = [(Browser Playwright Launch, false)])
  /\ (let run := run_browser (R:=runtime markup true) Playwright product
                   (start (runtime markup true) {| script := [true]; time := 0 |}) in
      fst run = Throw (js "Target closed")
      /\ last (trace (snd run)) = Some (Browser Playwright Close, false)).
Proof. vm_compute. repeat split; reflexivity. Qed.


(** * More of the extractor *)

(** ** The matcher against the words of a pattern *)

Lemma iterate_sound (a : regex) (m : jsstring -> list jsstring) :
  (forall s rest, In rest (m s) -> exists w, s = w ++ rest /\ lang a w) ->
  forall fuel lo hi s rest,
    In rest (iterate m lo hi fuel s) ->
    exists w, s = w ++ rest /\ lang (Repeat lo hi a) w.
Proof.
  intros Hm. induction fuel as [|f IH]; intros lo hi s rest H.
  - simpl in H. destruct lo; simpl in H; [|tauto].
    destruct H as [<-|[]]. exists []. split; [reflexivity | constructor].
  - simpl in H.
    assert (Hstop : In rest (stop_here lo s) ->
                    exists w, s = w ++ rest /\ lang (Repeat lo hi a) w).
    { destruct lo; simpl; [|tauto]. intros [<-|[]].
      exists []. split; [reflexivity | constructor]. }
    assert (Hmore : hi <> Some 0 ->
              In rest (flat_map
                         (fun s' => if length s' <? length s
                                    then iterate m (pred lo) (pred <$> hi) f s'
                                    else []) (m s)) ->
              exists w, s = w ++ rest /\ lang (Repeat lo hi a) w).
    { intros Hhi Hin. apply in_flat_map in Hin as [s' [Hs' Hin]].
      destruct (Nat.ltb_spec (length s') (length s)) as [Hlt|]; [|destruct Hin].
      apply Hm in Hs' as [u [-> Hu]].
      apply IH in Hin as [v [-> Hv]].
      exists (u ++ v). split; [apply app_assoc|].
      apply lang_rep_more; try assumption.
      intros ->. simpl in Hlt. lia. }
    destruct hi as [[|h]|]; [apply Hstop; exact H | |];
      (apply in_app_or in H as [H|H];
       [apply Hmore; [discriminate | exact H] | apply Hstop; exact H]).
Qed.

(** Whatever the matcher finds is a word of the pattern. *)
Lemma matches_sound (r : regex) : forall s rest,
  In rest (matches r s) -> exists w, s = w ++ rest /\ lang r w.
Proof.
  induction r as [p|a IHa b IHb|a IHa b IHb|lo hi a IHa]; intros s rest H.
  - destruct s as [|c t]; simpl in H; [tauto|].
    destruct (p c) eqn:E; simpl in H; [|tauto]. destruct H as [<-|[]].
    exists [c]. split; [reflexivity | constructor; exact E].
  - cbn [matches] in H. apply in_flat_map in H as [mid [H1 H2]].
    apply IHa in H1 as [u [-> Hu]]. apply IHb in H2 as [v [-> Hv]].
    exists (u ++ v). split; [apply app_assoc | constructor; assumption].
  - cbn [matches] in H. apply in_app_or in H as [H|H].
    + apply IHa in H as [w [-> Hw]]. exists w. split; [reflexivity|].
      apply lang_alt_l. exact Hw.
    + apply IHb in H as [w [-> Hw]]. exists w. split; [reflexivity|].
      apply lang_alt_r. exact Hw.
  - cbn [matches] in H. eapply iterate_sound; eassumption.
Qed.

(** [s.match(r)] returns a piece of [s] that is a word of [r]. *)
Lemma regex_match_sound (r : regex) (s m : jsstring) :
  regex_match r s = Some m ->
  exists pre post, s = pre ++ m ++ post /\ lang r m.
Proof.
  induction s as [|c t IH]; rewrite regex_match_eq.
  - destruct (matches r []) as [|rest l] eqn:E; [discriminate|].
    intros H. destruct (matches_sound r [] rest) as [w [Hs Hw]];
      [rewrite E; left; reflexivity|].
    assert (w = [] /\ rest = []) as [-> ->] by (destruct w; [auto | discriminate]).
    assert (m = []) by (simpl in H; congruence). subst m.
    exists [], []. split; [reflexivity | exact Hw].
  - destruct (matches r (c :: t)) as [|rest l] eqn:E.
    + intros H. destruct (IH H) as (pre & post & -> & Hm).
      exists (c :: pre), post. split; [reflexivity | exact Hm].
    + intros H. destruct (matches_sound r (c :: t) rest) as [w [Hs Hw]];
        [rewrite E; left; reflexivity|].
      exists [], rest. rewrite Hs in H |- *.
      rewrite length_app, Nat.add_sub, take_app_length in H.
      assert (m = w) by congruence. subst m. split; [reflexivity | exact Hw].
Qed.

Lemma iterate_stop (m : jsstring -> list jsstring) (hi : option nat) (fuel : nat)
    (s : jsstring) :
  In s (iterate m 0 hi fuel s).
Proof.
  destruct fuel as [|f]; simpl; [left; reflexivity|].
  destruct hi as [[|h]|]; try (left; reflexivity);
    apply in_or_app; right; left; reflexivity.
Qed.

(** Every word of the pattern at the start of the input is found. *)
Lemma matches_complete (r : regex) (w : jsstring) :
  lang r w -> forall rest, In rest (matches r (w ++ rest)).
Proof.
  induction 1 as [p c Hc|a b u v _ IHu _ IHv|a b u _ IH|a b u _ IH|hi a
                  |lo hi a u v Hhi Hu _ IHu _ IHv]; intros rest.
  - simpl. rewrite Hc. left. reflexivity.
  - cbn [matches]. apply in_flat_map. exists (v ++ rest).
    rewrite <- app_assoc. split; [apply IHu | apply IHv].
  - cbn [matches]. apply in_or_app. left. apply IH.
  - cbn [matches]. apply in_or_app. right. apply IH.
  - cbn [matches app]. apply iterate_stop.
  - cbn [matches]. rewrite <- app_assoc.
    destruct u as [|c u]; [contradiction|]. cbn [app length iterate].
    assert (Hin : In rest
              (flat_map
                 (fun s' => if length s' <? S (length (u ++ v ++ rest))
                            then iterate (matches a) (pred lo) (pred <$> hi)
                                   (length (u ++ v ++ rest)) s'
                            else [])
                 (matches a (c :: u ++ v ++ rest)))).
    { apply in_flat_map. exists (v ++ rest). split; [apply (IHu (v ++ rest))|].
      destruct (Nat.ltb_spec (length (v ++ rest)) (S (length (u ++ v ++ rest))))
        as [Hlt|Hge]; [|rewrite !length_app in Hge; lia].
      specialize (IHv rest). cbn [matches] in IHv.
      rewrite (iterate_fuel _ _ (length (v ++ rest))); [exact IHv | | lia].
      rewrite !length_app. lia. }
    destruct hi as [[|h]|]; [contradiction | |]; apply in_or_app; left; exact Hin.
Qed.

(** [s.match(r)] is [null] only when no piece of [s] is a word of [r]. *)
Lemma regex_match_complete (r : regex) (s : jsstring) :
  regex_match r s = None ->
  forall pre m post, s = pre ++ m ++ post -> ~ lang r m.
Proof.
  intros H pre. revert s H.
  induction pre as [|c pre IH]; intros s H m post -> Hm.
  - rewrite regex_match_eq in H.
    pose proof (matches_complete r m Hm post) as Hin. cbn [app] in H.
    destruct (matches r (m ++ post)); [destruct Hin | discriminate].
  - rewrite regex_match_eq in H. cbn [app] in H.
    destruct (matches r (c :: pre ++ m ++ post)); [|discriminate].
    exact (IH _ H m post eq_refl Hm).
Qed.

(** The match is a leftmost one: no word of the pattern starts in [s] before
    the piece that [s.match(r)] returns. *)
Lemma regex_match_leftmost (r : regex) (s m : jsstring) :
  regex_match r s = Some m ->
  exists pre post,
    s = pre ++ m ++ post /\ lang r m
    /\ forall pre' w post', s = pre' ++ w ++ post' -> lang r w ->
                            length pre <= length pre'.
Proof.
  induction s as [|c t IH]; rewrite regex_match_eq.
  - destruct (matches r []) as [|rest l] eqn:E; [discriminate|].
    intros H. destruct (matches_sound r [] rest) as [w [Hs Hw]];
      [rewrite E; left; reflexivity|].
    assert (w = [] /\ rest = []) as [-> ->] by (destruct w; [auto | discriminate]).
    assert (m = []) by (simpl in H; congruence). subst m.
    exists [], []. repeat split; [exact Hw | simpl; lia].
  - destruct (matches r (c :: t)) as [|rest l] eqn:E.
    + intros H. destruct (IH H) as (pre & post & -> & Hm & Hleft).
      exists (c :: pre), post. repeat split; [exact Hm|].
      intros pre' w post' Hs Hw. destruct pre' as [|c' pre'].
      * exfalso. cbn [app] in Hs. rewrite Hs in E.
        pose proof (matches_complete r w Hw post') as Hin.
        rewrite E in Hin. destruct Hin.
      * cbn [app] in Hs. injection Hs as _ Hs.
        specialize (Hleft pre' w post' Hs Hw). simpl. lia.
    + intros H. destruct (matches_sound r (c :: t) rest) as [w [Hs Hw]];
        [rewrite E; left; reflexivity|].
      exists [], rest. rewrite Hs in H |- *.
      rewrite length_app, Nat.add_sub, take_app_length in H.
      assert (m = w) by congruence. subst m.
      repeat split; [exact Hw | simpl; lia].
Qed.

Lemma lang_within (q : N -> bool) (r : regex) (w : jsstring) :
  classes_within q r -> lang r w -> Forall (fun c => q c = true) w.
Proof.
  intros Hq H. induction H as [p c Hc|a b u v _ IHu _ IHv|a b u _ IH|a b u _ IH|hi a
                               |lo hi a u v _ _ _ IHu _ IHv]; cbn in Hq.
  - constructor; [apply Hq; exact Hc | constructor].
  - apply Forall_app. split; [apply IHu | apply IHv]; tauto.
  - apply IH. tauto.
  - apply IH. tauto.
  - constructor.
  - apply Forall_app. split; [apply IHu | apply IHv]; assumption.
Qed.

Lemma lang_seq_inv (a b : regex) (w : jsstring) :
  lang (Seq a b) w -> exists u v, w = u ++ v /\ lang a u /\ lang b v.
Proof. inversion 1; subst. eauto. Qed.

Lemma lang_alt_inv (a b : regex) (w : jsstring) :
  lang (Alt a b) w -> lang a w \/ lang b w.
Proof. inversion 1; subst; auto. Qed.

Lemma lang_chr_inv (c : N) (chr : string) (w : jsstring) :
  js chr = [c] -> lang (Chr chr) w -> w = [c].
Proof.
  intros Hc. unfold Chr. inversion 1 as [p c' Hp| | | | |]; subst.
  unfold one_of in Hp. rewrite Hc in Hp. simpl in Hp.
  rewrite orb_false_r in Hp. apply N.eqb_eq in Hp. subst. reflexivity.
Qed.

(** A repetition of a character class: its words are made of the class and
    their length is within the bounds. *)
Lemma lang_repeat_class (p : N -> bool) (lo : nat) (hi : option nat) (w : jsstring) :
  lang (Repeat lo hi (Class p)) w ->
  Forall (fun c => p c = true) w
  /\ lo <= length w
  /\ forall h, hi = Some h -> length w <= h.
Proof.
  intros H. remember (Repeat lo hi (Class p)) as r eqn:E.
  revert lo hi E.
  induction H as [| | | |hi' a|lo' hi' a u v Hhi Hu Ha _ _ IHv]; intros lo hi E;
    try discriminate E.
  - injection E as <- <- ->. repeat split; [constructor | simpl; lia | simpl; lia].
  - injection E as <- <- ->.
    destruct (IHv (pred lo') (pred <$> hi') eq_refl) as (Hv & Hlo & Hhi').
    inversion Ha as [p' c Hc| | | | |]; subst.
    repeat split.
    + constructor; assumption.
    + simpl. lia.
    + intros h ->. destruct h as [|h]; [congruence|].
      specialize (Hhi' h eq_refl). simpl. lia.
Qed.

(** A repetition with a positive lower bound has no empty word. *)
Lemma lang_repeat_nonempty (lo : nat) (hi : option nat) (a : regex) (w : jsstring) :
  lang (Repeat (S lo) hi a) w -> w <> [].
Proof.
  inversion 1 as [| | | | |lo' hi' a' u v Hhi Hu Ha Hv]; subst.
  intros E. apply app_eq_nil in E as [E _]. contradiction.
Qed.

(** The shape of an address the email pattern matches. *)
Lemma email_shape (m : jsstring) :
  lang email_regex m ->
  exists local domain tld,
    m = local ++ js "@" ++ domain ++ js "." ++ tld
    /\ local <> [] /\ Forall (fun c => email_local c = true) local
    /\ domain <> [] /\ Forall (fun c => email_domain c = true) domain
    /\ 2 <= length tld /\ Forall (fun c => is_alpha c = true) tld.
Proof.
  unfold email_regex. cbn [Seqs]. intros H.
  apply lang_seq_inv in H as (local & r1 & -> & Hl & H).
  apply lang_seq_inv in H as (at_ & r2 & -> & Hat & H).
  apply lang_seq_inv in H as (domain & r3 & -> & Hd & H).
  apply lang_seq_inv in H as (dot & tld & -> & Hdot & Ht).
  apply (lang_chr_inv 64%N) in Hat; [|reflexivity].
  apply (lang_chr_inv 46%N) in Hdot; [|reflexivity]. subst.
  exists local, domain, tld.
  pose proof (lang_repeat_nonempty _ _ _ _ Hl).
  pose proof (lang_repeat_nonempty _ _ _ _ Hd).
  apply lang_repeat_class in Hl as (Hl & _ & _).
  apply lang_repeat_class in Hd as (Hd & _ & _).
  apply lang_repeat_class in Ht as (Ht & Hlen & _).
  repeat split; assumption.
Qed.

Lemma amount_tail_within :
  classes_within amount_char
    (Seqs [Star ws; Plus digit; Opt sep; Star digit])
  /\ classes_within amount_char
       (Seqs [Star ws; Repeat 1 (Some 3) digit;
              Star (Seq sep (Repeat 3 (Some 3) digit));
              Opt (Seq sep (Repeat 2 (Some 2) digit))]).
Proof.
  unfold amount_char, ws, digit, sep, Chr. cbn.
  repeat split; intros c Hc; rewrite Hc; rewrite ?orb_true_r; reflexivity.
Qed.

(** The shape of a price the price pattern matches: a currency mark, then
    white space, digits, [.] and [,] only, with a digit among them. *)
Lemma price_shape (m : jsstring) :
  lang price_regex m ->
  exists mark body,
    m = mark ++ body
    /\ mark ∈ [js "R$"; js "USD"; js "$"]
    /\ Forall (fun c => amount_char c = true) body
    /\ Exists (fun c => is_digit c = true) body.
Proof.
  destruct amount_tail_within as [Hw2 Hw1].
  assert (Hdigit : forall lo hi w,
            lang (Repeat (S lo) hi digit) w -> Exists (fun c => is_digit c = true) w).
  { intros lo hi w Hd. pose proof (lang_repeat_nonempty _ _ _ _ Hd) as Hne.
    apply lang_repeat_class in Hd as (Hd & _ & _).
    destruct w as [|c w]; [contradiction|]. inversion Hd; subst.
    left. assumption. }
  unfold price_regex. intros H.
  apply lang_alt_inv in H as [H|H]; [|apply lang_alt_inv in H as [H|H]].
  - cbn [Seqs] in H.
    apply lang_seq_inv in H as (c1 & r1 & -> & H1 & H).
    apply lang_seq_inv in H as (c2 & body & -> & H2 & H).
    apply (lang_chr_inv 82%N) in H1; [|reflexivity].
    apply (lang_chr_inv 36%N) in H2; [|reflexivity]. subst.
    exists (js "R$"), body. split; [reflexivity|]. split.
    { apply list_elem_of_here. }
    split; [exact (lang_within _ _ _ Hw1 H)|].
    apply lang_seq_inv in H as (sp & r2 & -> & _ & H).
    apply lang_seq_inv in H as (d & r3 & -> & Hd & _).
    apply Exists_app. right. apply Exists_app. left. eapply Hdigit; exact Hd.
  - cbn [Seqs] in H.
    apply lang_seq_inv in H as (c1 & r1 & -> & H1 & H).
    apply lang_seq_inv in H as (c2 & r2 & -> & H2 & H).
    apply lang_seq_inv in H as (c3 & body & -> & H3 & H).
    apply (lang_chr_inv 85%N) in H1; [|reflexivity].
    apply (lang_chr_inv 83%N) in H2; [|reflexivity].
    apply (lang_chr_inv 68%N) in H3; [|reflexivity]. subst.
    exists (js "USD"), body. split; [reflexivity|]. split.
    { apply list_elem_of_further, list_elem_of_here. }
    split; [exact (lang_within _ _ _ Hw2 H)|].
    apply lang_seq_inv in H as (sp & r4 & -> & _ & H).
    apply lang_seq_inv in H as (d & r5 & -> & Hd & _).
    apply Exists_app. right. apply Exists_app. left. eapply Hdigit; exact Hd.
  - cbn [Seqs] in H.
    apply lang_seq_inv in H as (c1 & body & -> & H1 & H).
    apply (lang_chr_inv 36%N) in H1; [|reflexivity]. subst.
    exists (js "$"), body. split; [reflexivity|]. split.
    { apply list_elem_of_further, list_elem_of_further, list_elem_of_here. }
    split; [exact (lang_within _ _ _ Hw2 H)|].
    apply lang_seq_inv in H as (sp & r4 & -> & _ & H).
    apply lang_seq_inv in H as (d & r5 & -> & Hd & _).
    apply Exists_app. right. apply Exists_app. left. eapply Hdigit; exact Hd.
Qed.

Lemma digits_all (w : jsstring) :
  Forall (fun c => is_digit c = true) w -> List.filter is_digit w = w.
Proof.
  induction 1 as [|c w Hc _ IH]; [reflexivity|]. simpl. rewrite Hc, IH. reflexivity.
Qed.

Lemma digits_none (w : jsstring) :
  Forall (fun c => is_digit c = false) w -> List.filter is_digit w = [].
Proof.
  induction 1 as [|c w Hc _ IH]; [reflexivity|]. simpl. rewrite Hc, IH. reflexivity.
Qed.

Lemma space_not_digit (c : N) : is_space c = true -> is_digit c = false.
Proof.
  unfold is_space, is_digit. intros H.
  destruct (N.leb_spec 48 c); [|reflexivity].
  destruct (N.leb_spec c 57); [|reflexivity]. exfalso.
  rewrite !orb_true_iff, !andb_true_iff, !N.leb_le, !N.eqb_eq in H. lia.
Qed.

Lemma one_of_single (x c : N) (chr : string) :
  js chr = [x] -> one_of chr c = true -> c = x.
Proof.
  intros Hx Hc. unfold one_of in Hc. rewrite Hx in Hc. simpl in Hc.
  rewrite orb_false_r in Hc. apply N.eqb_eq in Hc. exact Hc.
Qed.

(** The shape of a phone number the phone pattern matches: digits,
    parentheses, white space and [-] only, with ten or eleven digits. *)
Lemma phone_shape (m : jsstring) :
  lang phone_regex m ->
  Forall (fun c => phone_char c = true) m
  /\ 10 <= length (List.filter is_digit m) <= 11.
Proof.
  intros H. split.
  - apply (lang_within phone_char phone_regex); [|exact H].
    unfold phone_regex, ws, digit, Star, Opt, Chr. cbn [Seqs classes_within].
    repeat split; intros c Hc;
      try (unfold phone_char; rewrite Hc; rewrite ?orb_true_r; reflexivity).
    all: first [ apply (one_of_single 40%N) in Hc; [|reflexivity]
               | apply (one_of_single 41%N) in Hc; [|reflexivity]
               | apply (one_of_single 45%N) in Hc; [|reflexivity] ];
      subst; reflexivity.
  - assert (Hws : forall w, lang (Star ws) w -> List.filter is_digit w = []).
    { intros w Hw. apply lang_repeat_class in Hw as (Hw & _).
      apply digits_none. eapply Forall_impl; [exact Hw|].
      intros c. apply space_not_digit. }
    assert (Hhy : forall w, lang (Opt (Chr "-")) w -> List.filter is_digit w = []).
    { intros w Hw. apply lang_repeat_class in Hw as (Hw & _).
      apply digits_none. eapply Forall_impl; [exact Hw|].
      intros c Hc. apply (one_of_single 45%N) in Hc; [|reflexivity].
      subst. reflexivity. }
    assert (Hd : forall lo h w, lang (Repeat lo (Some h) digit) w ->
                   lo <= length (List.filter is_digit w) <= h).
    { intros lo h w Hw. apply lang_repeat_class in Hw as (Hw & Hlo & Hhi).
      rewrite digits_all by exact Hw. specialize (Hhi h eq_refl). lia. }
    unfold phone_regex in H. apply lang_alt_inv in H as [H|H]; cbn [Seqs] in H.
    + apply lang_seq_inv in H as (o & r1 & -> & Ho & H).
      apply lang_seq_inv in H as (d2 & r2 & -> & Hd2 & H).
      apply lang_seq_inv in H as (c & r3 & -> & Hc & H).
      apply lang_seq_inv in H as (sp & r4 & -> & Hsp & H).
      apply lang_seq_inv in H as (d45 & r5 & -> & Hd45 & H).
      apply lang_seq_inv in H as (hy & d4 & -> & Hh & Hd4).
      apply (lang_chr_inv 40%N) in Ho; [|reflexivity].
      apply (lang_chr_inv 41%N) in Hc; [|reflexivity]. subst.
      rewrite !List.filter_app, (Hws _ Hsp), (Hhy _ Hh). cbn [List.filter app].
      change (is_digit 40) with false. change (is_digit 41) with false.
      cbn [app]. rewrite !length_app.
      apply Hd in Hd2. apply Hd in Hd45. apply Hd in Hd4. simpl. lia.
    + apply lang_seq_inv in H as (d2 & r2 & -> & Hd2 & H).
      apply lang_seq_inv in H as (sp & r4 & -> & Hsp & H).
      apply lang_seq_inv in H as (d45 & r5 & -> & Hd45 & H).
      apply lang_seq_inv in H as (hy & d4 & -> & Hh & Hd4).
      rewrite !List.filter_app, (Hws _ Hsp), (Hhy _ Hh). cbn [app].
      rewrite !length_app.
      apply Hd in Hd2. apply Hd in Hd45. apply Hd in Hd4. simpl. lia.
Qed.

(** ** The price of the specification's example *)

Lemma mark_before_R (mark body q l : jsstring) :
  mark ∈ [js "R$"; js "USD"; js "$"] ->
  Forall (fun c => amount_char c = true) body ->
  q <> [] ->
  mark ++ body = q ++ 82%N :: l -> False.
Proof.
  intros Hm Hb Hq H.
  assert (Hbody : forall q', body = q' ++ 82%N :: l -> False).
  { intros q' ->. apply Forall_app in Hb as [_ Hb].
    apply Forall_cons in Hb as [Hb _]. vm_compute in Hb. discriminate. }
  assert (E1 : js "R$" = [82; 36]%N) by (vm_compute; reflexivity).
  assert (E2 : js "USD" = [85; 83; 68]%N) by (vm_compute; reflexivity).
  assert (E3 : js "$" = [36]%N) by (vm_compute; reflexivity).
  rewrite E1, E2, E3 in Hm. clear E1 E2 E3.
  destruct q as [|c1 q]; [contradiction|]. clear Hq.
  repeat (apply elem_of_cons in Hm as [->|Hm]);
    [..| apply elem_of_nil in Hm; exact Hm];
    cbn [app] in H; injection H as _ H.
  - destruct q as [|c2 q]; cbn [app] in H; [discriminate H|].
    injection H as _ H. exact (Hbody q H).
  - destruct q as [|c2 q]; cbn [app] in H; [discriminate H|].
    injection H as _ H.
    destruct q as [|c3 q]; cbn [app] in H; [discriminate H|].
    injection H as _ H. exact (Hbody q H).
  - exact (Hbody q H).
Qed.

(** No match of the price pattern starts before the [R] of an amount, in a
    text in which none starts. *)
Lemma price_not_from (q tl : jsstring) :
  q <> [] -> matches price_regex q = [] ->
  matches price_regex (q ++ 82%N :: tl) = [].
Proof.
  intros Hq Hn.
  destruct (matches price_regex (q ++ 82%N :: tl)) as [|rest l] eqn:E;
    [reflexivity | exfalso].
  destruct (matches_sound price_regex (q ++ 82%N :: tl) rest) as (w & Hs & Hw);
    [rewrite E; left; reflexivity|].
  destruct (price_shape w Hw) as (mark & body & -> & Hmark & Hbody & _).
  assert (Hpre : exists rest', q = (mark ++ body) ++ rest').
  { apply List.app_eq_app in Hs as [x [[H1 H2] | [H1 H2]]].
    - exists x. exact H1.
    - destruct x as [|c x].
      + exists []. rewrite app_nil_r in *. symmetry. exact H1.
      + cbn [app] in H2. injection H2 as <- _.
        exfalso. exact (mark_before_R mark body q x Hmark Hbody Hq H1). }
  destruct Hpre as [rest' Hq'].
  pose proof (matches_complete price_regex (mark ++ body) Hw rest') as Hin.
  rewrite <- Hq', Hn in Hin. exact Hin.
Qed.

(** In a text, [R$ 199,90] is what the price pattern matches when no match
    of the pattern lies in what comes before it, and no digit follows it. *)
Lemma price_in_text (pre post : jsstring) :
  regex_match price_regex pre = None ->
  match post with c :: _ => is_digit c = false | [] => True end ->
  regex_match price_regex (pre ++ sample_price ++ post) = Some sample_price.
Proof.
  intros Hpre Hpost. induction pre as [|c p IH]; cbn [app].
  - rewrite regex_match_eq. destruct (price_at_sample post Hpost) as [l ->].
    rewrite length_app, Nat.add_sub. rewrite take_app_length. reflexivity.
  - rewrite regex_match_eq in Hpre.
    destruct (matches price_regex (c :: p)) as [|? ?] eqn:E; [|discriminate].
    rewrite regex_match_eq.
    change (c :: p ++ sample_price ++ post)
      with ((c :: p) ++ 82%N :: (tail sample_price ++ post)).
    rewrite (price_not_from (c :: p) _ ltac:(discriminate) E).
    cbn [app]. apply IH. exact Hpre.
Qed.

Lemma star_opt_head (a b : regex) (hi1 hi2 : option nat) (s : jsstring) :
  exists y l,
    flat_map (matches (Repeat 0 hi2 b)) (matches (Repeat 0 hi1 a) s) = y :: l
    /\ length y <= length s.
Proof.
  destruct (matches (Repeat 0 hi1 a) s) as [|x xs] eqn:Ea.
  { pose proof (iterate_stop (matches a) hi1 (length s) s) as Hin.
    cbn [matches] in Ea. rewrite Ea in Hin. destruct Hin. }
  assert (Hx : length x <= length s).
  { apply (matches_length (Repeat 0 hi1 a)). rewrite Ea. left. reflexivity. }
  cbn [flat_map].
  destruct (matches (Repeat 0 hi2 b) x) as [|y ys] eqn:Eb.
  { pose proof (iterate_stop (matches b) hi2 (length x) x) as Hin.
    cbn [matches] in Eb. rewrite Eb in Hin. destruct Hin. }
  assert (Hy : length y <= length x).
  { apply (matches_length (Repeat 0 hi2 b)). rewrite Eb. left. reflexivity. }
  exists y, (ys ++ flat_map (matches (Repeat 0 hi2 b)) xs).
  split; [reflexivity | lia].
Qed.

Lemma price_longer_before_digit (d : N) (post' : jsstring) :
  is_digit d = true ->
  exists rest l,
    matches price_regex (sample_price ++ d :: post') = rest :: l
    /\ length rest <= length post'.
Proof.
  intros Hd.
  unfold price_regex, sample_price, Star, Plus, Opt, ws, digit, sep. unfold Chr.
  cbn [Seqs app].
  regex_eval. rewrite Hd.
  assert (Hz : forall a s, matches (Repeat 0 (Some 0%nat) a) s = [s])
    by (intros a s; cbn [matches]; destruct (length s); reflexivity).
  rewrite Hz. cbn [flat_map]. rewrite !app_nil_r.
  destruct (star_opt_head
              (Seq (Class (one_of ".,")) (Repeat 3 (Some 3%nat) (Class is_digit)))
              (Seq (Class (one_of ".,")) (Repeat 2 (Some 2%nat) (Class is_digit)))
              None (Some 1%nat) post') as (y & l' & E & Hy).
  rewrite E. cbn [app]. eexists _, _. split; [reflexivity | exact Hy].
Qed.

(** ... and it is not what the pattern matches when a digit follows: the
    match goes on. *)
Lemma price_in_text_digit (pre post : jsstring) (d : N) :
  regex_match price_regex pre = None ->
  is_digit d = true ->
  regex_match price_regex (pre ++ sample_price ++ d :: post) <> Some sample_price.
Proof.
  intros Hpre Hd. induction pre as [|c p IH]; cbn [app].
  - rewrite regex_match_eq.
    destruct (price_longer_before_digit d post Hd) as (rest & l & -> & Hl).
    intros H. assert (H' : take (length (sample_price ++ d :: post) - length rest)
                             (sample_price ++ d :: post) = sample_price)
      by congruence.
    apply (f_equal length) in H'. rewrite length_take, length_app in H'.
    cbn [length] in H'. change (length sample_price) with 9 in H'. lia.
  - rewrite regex_match_eq in Hpre.
    destruct (matches price_regex (c :: p)) as [|? ?] eqn:E; [|discriminate].
    rewrite regex_match_eq.
    change (c :: p ++ sample_price ++ d :: post)
      with ((c :: p) ++ 82%N :: (tail sample_price ++ d :: post)).
    rewrite (price_not_from (c :: p) _ ltac:(discriminate) E).
    cbn [app]. apply IH. exact Hpre.
Qed.

Section PriceExample.
Context `{P : Platform}.

(** C9 (as amended).  The price of the returned record is the first match of
    the price pattern among the elements the price selectors match, in
    selector order then element order (nothing after it is looked at).  When
    the first of these elements that has a match has a text in which
    [R$ 199,90] comes after a text where the pattern has no match, the price
    is exactly [R$ 199,90], and not the text of the element, if and only if
    no digit follows it. *)
Theorem price_is_first_match (html finalUrl : jsstring) (r : ContentRecord) :
  processExtractedHTML html finalUrl = Ok r ->
  price r = default [] (first_price (flat_map (query html) priceSelectors))
  /\ forall before element after pre post,
       flat_map (query html) priceSelectors = before ++ element :: after ->
       first_price before = None ->
       trim (el_text element) = pre ++ sample_price ++ post ->
       regex_match price_regex pre = None ->
       (price r = sample_price
        <-> match post with c :: _ => is_digit c = false | [] => True end).
Proof.
  intros H.
  destruct (processExtractedHTML_fields html finalUrl r H)
    as (_ & _ & Hp & _).
  rewrite Hp, price_loop_first. split; [reflexivity|].
  intros before element after pre post Hq Hb Ht Hpre.
  rewrite Hq, first_price_app, Hb.
  unfold first_price. cbn [omap list_omap]. rewrite Ht. split.
  - intros Hs. destruct post as [|c post']; [exact I|].
    destruct (is_digit c) eqn:Hc; [exfalso | reflexivity].
    pose proof (price_in_text_digit pre post' c Hpre Hc) as Hne.
    destruct (regex_match price_regex (pre ++ sample_price ++ c :: post'))
      as [m|] eqn:Em.
    + cbn [head from_option id] in Hs. congruence.
    + destruct (price_at_sample [] I) as [l Hl].
      destruct (matches_sound price_regex (sample_price ++ []) [])
        as (w & Hw & Hlang); [rewrite Hl; left; reflexivity|].
      rewrite !app_nil_r in Hw. subst w.
      exact (regex_match_complete _ _ Em pre sample_price (c :: post') eq_refl Hlang).
  - intros Hpost. rewrite (price_in_text pre post Hpre Hpost). reflexivity.
Qed.

End PriceExample.

(** A price after digits that are no amount, on a page whose first price
    element has no match. *)
Lemma price_is_first_match_witness :
  let page := platform (fun _ =>
    [ (js ".price, .valor, .preco, .cost, .amount",
       [ text_el "  Frete para todo o Brasil ";
         text_el " Em 12x de R$ 199,90 sem juros " ]) ]) in
  exists r,
    processExtractedHTML (P:=page) markup product = Ok r
    /\ regex_match price_regex (js "Em 12x de ") = None
    /\ price r = js "R$ 199,90"
    /\ price r <> trim (js " Em 12x de R$ 199,90 sem juros ").
Proof.
  cbv zeta. eexists. split; [vm_compute; reflexivity|].
  split; [vm_compute; reflexivity|].
  split; [|vm_compute; discriminate].
  refine (proj2 (proj2 (price_is_first_match
                          (P:=platform (fun _ =>
                             [ (js ".price, .valor, .preco, .cost, .amount",
                                [ text_el "  Frete para todo o Brasil ";
                                  text_el " Em 12x de R$ 199,90 sem juros " ]) ]))
                          markup product _ _)
                   [text_el "  Frete para todo o Brasil "]
                   (text_el " Em 12x de R$ 199,90 sem juros ") []
                   (js "Em 12x de ") (js " sem juros") _ _ _ _) _);
    vm_compute; reflexivity.
Defined.

(** The text of a price element may hold [R$ 199,90] and the price be
    something else: when a digit follows, when the pattern has a match
    earlier in the text, and when an element before has a match. *)
Lemma price_is_not_always_the_sample :
  let priced els :=
    platform (fun _ => [ (js ".price, .valor, .preco, .cost, .amount", els) ]) in
  let price_of els :=
    match processExtractedHTML (P:=priced els) markup product with
    | Ok r => Some (price r)
    | Throw _ => None
    end in
  (includes (js "R$ 199,900") (js "R$ 199,90") = true
   /\ price_of [text_el "R$ 199,900"] = Some (js "R$ 199,900"))
  /\ (includes (js "De US$ 50 por R$ 199,90") (js "R$ 199,90") = true
      /\ price_of [text_el "De US$ 50 por R$ 199,90"] = Some (js "$ 50"))
  /\ price_of [text_el "A partir de R$ 10"; text_el "R$ 199,90"]
     = Some (js "R$ 10").
Proof. vm_compute. repeat split; reflexivity. Qed.

(** ** More on the fields of the extracted record *)

Section MoreFields.
Context `{P : Platform}.

Lemma processExtractedHTML_other_fields (html finalUrl : jsstring) (r : ContentRecord) :
  processExtractedHTML html finalUrl = Ok r ->
  title r = first_accepted html titleSelectors accept_title
  /\ cta r = first_accepted html ctaSelectors accept_cta
  /\ email (contact r) = regex_match email_regex html
  /\ phone (contact r) = regex_match phone_regex html.
Proof.
  unfold processExtractedHTML. intros H.
  destruct (images_each _ finalUrl []) as [imgs|] eqn:Ei; [|discriminate].
  match type of H with Ok ?a = _ => assert (Hr : r = a) by congruence end.
  rewrite Hr. cbn [title cta contact email phone]. repeat split; reflexivity.
Qed.

(** X1.  The single-valued text fields are empty or within the band their
    acceptance test sets: a title has more than 5 code units, a description
    between 51 and 500, a call to action between 4 and 99. *)
Theorem text_fields_in_band (html finalUrl : jsstring) (r : ContentRecord) :
  processExtractedHTML html finalUrl = Ok r ->
  (title r = [] \/ 5 < length (title r))
  /\ (description r = [] \/ 50 < length (description r) <= 500)
  /\ (cta r = [] \/ 3 < length (cta r) < 100).
Proof.
  intros H.
  destruct (processExtractedHTML_fields html finalUrl r H) as (_ & Hd & _).
  destruct (processExtractedHTML_other_fields html finalUrl r H) as (Ht & Hc & _).
  rewrite Ht, Hd, Hc. repeat split.
  - destruct (first_accepted_cases html titleSelectors accept_title)
      as [E | [element E]]; [left; exact E | right].
    revert E. generalize (first_accepted html titleSelectors accept_title).
    intros v. unfold accept_title.
    destruct (truthy _ && (5 <? _) && _) eqn:B; [|discriminate].
    intros E. assert (Hv : v = trim (or_else (el_attr element (js "content"))
                                             (el_text element))) by congruence.
    rewrite Hv. apply andb_true_iff in B as [B _].
    apply andb_true_iff in B as [_ B]. apply Nat.ltb_lt in B. exact B.
  - destruct (first_accepted_cases html descSelectors accept_description)
      as [E | [element E]]; [left; exact E | right].
    revert E. generalize (first_accepted html descSelectors accept_description).
    intros v. unfold accept_description.
    destruct (truthy _ && (50 <? _)) eqn:B; [|discriminate].
    intros E.
    assert (Hv : v = substring0 500 (trim (or_else (el_attr element (js "content"))
                                                    (el_text element))))
      by congruence.
    rewrite Hv. apply andb_true_iff in B as [_ B]. apply Nat.ltb_lt in B.
    unfold substring0. rewrite length_take. lia.
  - destruct (first_accepted_cases html ctaSelectors accept_cta)
      as [E | [element E]]; [left; exact E | right].
    revert E. generalize (first_accepted html ctaSelectors accept_cta).
    intros v. unfold accept_cta.
    destruct (truthy _ && (3 <? _) && (_ <? 100)) eqn:B; [|discriminate].
    intros E. assert (Hv : v = trim (el_text element)) by congruence.
    rewrite Hv. apply andb_true_iff in B as [B B2].
    apply andb_true_iff in B as [_ B1].
    apply Nat.ltb_lt in B1. apply Nat.ltb_lt in B2. lia.
Qed.

Lemma collect_step_band lo hi cap acc el :
  Forall (fun x => lo < length x < hi) acc ->
  Forall (fun x => lo < length x < hi) (collect_step lo hi cap acc el).
Proof.
  intros H. unfold collect_step.
  destruct (truthy _ && (lo <? _) && (_ <? hi) && _) eqn:B; [|exact H].
  destruct (array_includes _ _); [exact H|].
  apply andb_true_iff in B as [B _]. apply andb_true_iff in B as [B B2].
  apply andb_true_iff in B as [_ B1].
  apply Nat.ltb_lt in B1. apply Nat.ltb_lt in B2.
  apply Forall_app. split; [exact H|]. constructor; [lia | constructor].
Qed.

Lemma collect_loop_band lo hi cap html sels acc :
  Forall (fun x => lo < length x < hi) acc ->
  Forall (fun x => lo < length x < hi) (collect_loop lo hi cap html sels acc).
Proof.
  revert acc. induction sels as [|sel sels IH]; intros acc H; simpl; [exact H|].
  assert (H' : Forall (fun x => lo < length x < hi)
                 (fold_left (collect_step lo hi cap) (query html sel) acc)).
  { revert acc H. induction (query html sel) as [|el els IHe]; intros acc H;
      simpl; [exact H|]. apply IHe, collect_step_band, H. }
  destruct (cap <=? _); [exact H' | apply IH, H'].
Qed.

(** X2.  Every benefit kept has between 11 and 199 code units, every testimonial
    between 21 and 299. *)
Theorem list_fields_in_band (html finalUrl : jsstring) (r : ContentRecord) :
  processExtractedHTML html finalUrl = Ok r ->
  Forall (fun b => 10 < length b < 200) (benefits r)
  /\ Forall (fun t => 20 < length t < 300) (testimonials r).
Proof.
  intros H.
  destruct (processExtractedHTML_fields html finalUrl r H)
    as (_ & _ & _ & Hb & Ht & _).
  rewrite Hb, Ht. split; apply collect_loop_band; constructor.
Qed.

Lemma first_price_source (els : list Elem) (m : jsstring) :
  first_price els = Some m ->
  exists element, element ∈ els
                  /\ regex_match price_regex (trim (el_text element)) = Some m.
Proof.
  unfold first_price. induction els as [|e els IH]; [discriminate|].
  cbn [omap list_omap].
  destruct (regex_match price_regex (trim (el_text e))) as [m'|] eqn:E.
  - cbn [head]. intros H. assert (m' = m) by congruence. subst.
    exists e. split; [apply list_elem_of_here | exact E].
  - intros H. destruct (IH H) as (e' & Hin & He').
    exists e'. split; [apply list_elem_of_further; exact Hin | exact He'].
Qed.

(** X3.  The price is empty, or a piece of the trimmed text of an element that a
    price selector matches: a currency mark ([R$], [USD] or [$]) followed by
    white space, digits, [.] and [,] only, with at least one digit. *)
Theorem price_is_an_amount (html finalUrl : jsstring) (r : ContentRecord) :
  processExtractedHTML html finalUrl = Ok r ->
  price r = []
  \/ exists element pre post mark body,
       element ∈ flat_map (query html) priceSelectors
       /\ trim (el_text element) = pre ++ price r ++ post
       /\ price r = mark ++ body
       /\ mark ∈ [js "R$"; js "USD"; js "$"]
       /\ Forall (fun c => amount_char c = true) body
       /\ Exists (fun c => is_digit c = true) body.
Proof.
  intros H.
  destruct (processExtractedHTML_fields html finalUrl r H) as (_ & _ & Hp & _).
  rewrite Hp, price_loop_first.
  destruct (first_price (flat_map (query html) priceSelectors)) as [m|] eqn:E;
    [right | left; reflexivity].
  cbn [from_option id].
  destruct (first_price_source _ _ E) as (element & Hin & Hm).
  destruct (regex_match_sound _ _ _ Hm) as (pre & post & Ht & Hl).
  destruct (price_shape m Hl) as (mark & body & Hb & Hmark & Hall & Hex).
  exists element, pre, post, mark, body. repeat split; assumption.
Qed.

(** X4.  The email of the contact is the leftmost piece of the markup that the
    email pattern matches, of the form local@domain.tld with a top-level
    part of at least two letters; it is absent only when no piece of the
    markup is matched by the pattern. *)
Theorem contact_email_is_an_address (html finalUrl : jsstring) (r : ContentRecord) :
  processExtractedHTML html finalUrl = Ok r ->
  match email (contact r) with
  | Some m =>
    exists pre post local domain tld,
      html = pre ++ m ++ post
      /\ m = local ++ js "@" ++ domain ++ js "." ++ tld
      /\ local <> [] /\ Forall (fun c => email_local c = true) local
      /\ domain <> [] /\ Forall (fun c => email_domain c = true) domain
      /\ 2 <= length tld /\ Forall (fun c => is_alpha c = true) tld
      /\ forall pre' w post', html = pre' ++ w ++ post' -> lang email_regex w ->
                              length pre <= length pre'
  | None => forall pre w post, html = pre ++ w ++ post -> ~ lang email_regex w
  end.
Proof.
  intros H.
  destruct (processExtractedHTML_other_fields html finalUrl r H) as (_ & _ & He & _).
  rewrite He. destruct (regex_match email_regex html) as [m|] eqn:E.
  - destruct (regex_match_leftmost _ _ _ E) as (pre & post & Hs & Hl & Hleft).
    destruct (email_shape m Hl) as (local & domain & tld & Hm & Hrest).
    exists pre, post, local, domain, tld.
    split; [exact Hs|]. split; [exact Hm|].
    destruct Hrest as (? & ? & ? & ? & ? & ?). repeat split; assumption.
  - apply regex_match_complete. exact E.
Qed.

(** X5.  The phone of the contact is the leftmost piece of the markup that the
    phone pattern matches: digits, parentheses, white space and [-] only,
    with ten or eleven digits; it is absent only when the pattern matches no
    piece of the markup. *)
Theorem contact_phone_is_a_number (html finalUrl : jsstring) (r : ContentRecord) :
  processExtractedHTML html finalUrl = Ok r ->
  match phone (contact r) with
  | Some m =>
    exists pre post,
      html = pre ++ m ++ post
      /\ Forall (fun c => phone_char c = true) m
      /\ 10 <= length (List.filter is_digit m) <= 11
      /\ forall pre' w post', html = pre' ++ w ++ post' -> lang phone_regex w ->
                              length pre <= length pre'
  | None => forall pre w post, html = pre ++ w ++ post -> ~ lang phone_regex w
  end.
Proof.
  intros H.
  destruct (processExtractedHTML_other_fields html finalUrl r H) as (_ & _ & _ & Hp).
  rewrite Hp. destruct (regex_match phone_regex html) as [m|] eqn:E.
  - destruct (regex_match_leftmost _ _ _ E) as (pre & post & Hs & Hl & Hleft).
    destruct (phone_shape m Hl) as (Hc & Hn).
    exists pre, post. repeat split; try assumption; apply Hn.
  - apply regex_match_complete. exact E.
Qed.

End MoreFields.

(** ** More on the cache and the orchestrator *)

(** A method name with an underscore makes the key of another request. *)
Lemma cacheKey_shift (u x m : jsstring) :
  cacheKey (u ++ js "_" ++ x) m = cacheKey u (x ++ js "_" ++ m).
Proof. unfold cacheKey. rewrite <- !app_assoc. reflexivity. Qed.

(** Without an underscore in the method names, the key tells the request. *)
Lemma cacheKey_inj (u u' m m' : jsstring) :
  95%N ∉ m -> 95%N ∉ m' ->
  cacheKey u m = cacheKey u' m' -> u = u' /\ m = m'.
Proof.
  unfold cacheKey. change (js "_") with [95%N]. intros Hm Hm'.
  revert u'. induction u as [|c u IH]; intros [|c' u'] H; cbn [app] in H.
  - injection H as ->. split; reflexivity.
  - injection H as <- ->. exfalso. apply Hm.
    apply elem_of_app. right. apply list_elem_of_here.
  - injection H as -> <-. exfalso. apply Hm'.
    apply elem_of_app. right. apply list_elem_of_here.
  - injection H as -> H. destruct (IH u' H) as [-> ->]. split; reflexivity.
Qed.

Section MoreCache.
Context `{P : Platform} `{R : Runtime}.

(** A call that returns a record not tagged [fallback] leaves that record in
    the cache under the key of the request. *)
Lemma extractData_leaves_entry (u method : jsstring) (s s1 : State)
    (r : ContentRecord) :
  extractData u method s = (Ok r, s1) ->
  extractionMethod r <> Some (js "fallback") ->
  exists e, dataCache s1 !! cacheKey u method = Some e /\ data e = r.
Proof.
  intros H1 Hr.
  destruct (fresh (dataCache s !! cacheKey u method) (clock (world s)))
    as [c|] eqn:E.
  - rewrite (extractData_hit u method s c E) in H1.
    assert (r = data c) by congruence. assert (s1 = s) by congruence. subst.
    exists c. split; [|reflexivity]. unfold fresh in E.
    destruct (dataCache s !! cacheKey u method) as [c'|]; [|discriminate].
    destruct (_ <? _)%Z; congruence.
  - destruct (extractData_outcome u method s E)
      as (w & b & t & [H | (m & html & finalUrl & extracted & s0 & s0' & _ & _ & H)]);
      rewrite H in H1.
    + exfalso. apply Hr. assert (r = getDefaultData u) by congruence.
      subst r. reflexivity.
    + eexists. split.
      * assert (Hs : s1 = stored (after s w b t) (cacheKey u method)
                         {| data := set_extractionMethod extracted m;
                            timestamp := clock w |}) by congruence.
        rewrite Hs. unfold stored. cbn [dataCache]. apply lookup_insert_eq.
      * cbn [data]. congruence.
Qed.

(** X6.  The key is the URL, an underscore and the method glued together, so two
    requests can share it: the record extracted for the URL [u_x] with the
    method [m] is what a call for the URL [u] with the method [x_m] returns
    within the hour, without fetching anything. *)
Theorem cache_key_confuses_requests (u x m : jsstring) (s s1 s2 : State)
    (r : ContentRecord) :
  extractData (u ++ js "_" ++ x) m s = (Ok r, s1) ->
  extractionMethod r <> Some (js "fallback") ->
  dataCache s2 = dataCache s1 ->
  (forall e, dataCache s1 !! cacheKey (u ++ js "_" ++ x) m = Some e ->
             (clock (world s2) - timestamp e < CACHE_TTL)%Z) ->
  extractData u (x ++ js "_" ++ m) s2 = (Ok r, s2).
Proof.
  intros H1 Hr Hc Ht.
  destruct (extractData_leaves_entry _ _ _ _ _ H1 Hr) as (e & He & Hd).
  specialize (Ht e He). rewrite <- Hd.
  apply extractData_hit. rewrite <- cacheKey_shift, Hc, He. unfold fresh.
  destruct (Z.ltb_spec (clock (world s2) - timestamp e) CACHE_TTL);
    [reflexivity | lia].
Qed.

(** X7.  For method names without an underscore, as [auto] and the four
    strategy names are, the entry a call reads and writes belongs to no other
    request: a call changes no entry of a request with another URL or another
    such method. *)
Theorem cache_entries_are_separate (u method u' method' : jsstring) (s : State) :
  95%N ∉ method -> 95%N ∉ method' ->
  (u, method) <> (u', method') ->
  dataCache (snd (extractData u method s)) !! cacheKey u' method'
  = dataCache s !! cacheKey u' method'.
Proof.
  intros Hm Hm' Hne.
  assert (Hk : cacheKey u method <> cacheKey u' method').
  { intros E. apply cacheKey_inj in E as [-> ->]; [|assumption..].
    apply Hne. reflexivity. }
  destruct (fresh (dataCache s !! cacheKey u method) (clock (world s)))
    as [c|] eqn:E.
  - rewrite (extractData_hit u method s c E). reflexivity.
  - destruct (extractData_outcome u method s E)
      as (w & b & t & [H | (m & html & finalUrl & extracted & s0 & s0' & _ & _ & H)]);
      rewrite H; cbn [snd after stored dataCache]; [reflexivity|].
    apply lookup_insert_ne. exact Hk.
Qed.

(** X8.  A record fetched by the Cloudflare-tolerant strategy carries the URL
    that was requested, whatever address the request ended at. *)
Theorem cloudscraper_record_has_requested_url (u method : jsstring) (s s1 : State)
    (r : ContentRecord) :
  miss u method s ->
  extractData u method s = (Ok r, s1) ->
  extractionMethod r = Some (js "cloudscraper") ->
  url r = u.
Proof.
  intros Hm H Htag.
  destruct (extractData_outcome u method s Hm)
    as (w & b & t & [H' | (m & html & finalUrl & extracted & s0 & s0' & Hrun & Hp & H')]);
    rewrite H' in H.
  - assert (r = getDefaultData u) by congruence. subst r. reflexivity.
  - assert (Hr : r = set_extractionMethod extracted m) by congruence.
    rewrite Hr in Htag |- *. cbn [set_extractionMethod extractionMethod url] in *.
    assert (m = js "cloudscraper") by congruence. subst m.
    change (strategy_of (js "cloudscraper")) with CloudflareHttp in Hrun.
    cbn [run_strategy] in Hrun. rewrite extractWithCloudscraper_run in Hrun.
    destruct (cloudscraper_get u (world s0)) as [[response|e] w0];
      [|discriminate].
    assert (finalUrl = u) by congruence. subst finalUrl.
    destruct (processExtractedHTML_fields html u extracted Hp) as (Hu & _).
    exact Hu.
Qed.

(** X9.  [GET /extract] answers 400 when the [url] parameter is absent or empty
    and 200 with the record of [extractData] otherwise; it never answers
    500, not even for a URL that does not parse. *)
Theorem route_extract_replies (url method : option jsstring) (s : State) :
  exists reply s',
    route_extract url method s = (Ok reply, s')
    /\ ((truthy_opt url = false /\ s' = s
         /\ reply = ReplyError 400 (js "URL é obrigatória"))
        \/ (exists u r,
              url = Some u /\ truthy u = true
              /\ extractData u (default (js "auto") method) s = (Ok r, s')
              /\ reply = ReplyData 200 r (clock (world s')))).
Proof.
  unfold route_extract, try_catch, bind, ret, now.
  destruct url as [u|]; [|do 2 eexists; split; [reflexivity|]; left; auto].
  destruct (truthy u) eqn:Eu; [|do 2 eexists; split; [reflexivity|]; left; auto].
  destruct (extractData_total u (default (js "auto") method) s) as (r & s' & Hr).
  rewrite Hr. do 2 eexists. split; [reflexivity|].
  right. exists u, r. repeat split; assumption.
Qed.

End MoreCache.

(** * The conversational engine: intents *)

Lemma includes_trans (l p q : jsstring) :
  includes l p = true -> includes p q = true -> includes l q = true.
Proof.
  rewrite !includes_spec. intros [pre [post ->]] [pre' [post' ->]].
  exists (pre ++ pre'), (post' ++ post). rewrite <- !app_assoc. reflexivity.
Qed.

Lemma first_intent_none (l : jsstring) (entries : list (Intent * list jsstring)) :
  Forall (fun e => existsb (fun p => includes l p) e.2 = false) entries ->
  first_intent l entries = General.
Proof.
  induction 1 as [|[i ps] rest H _ IH]; cbn [first_intent]; [reflexivity|].
  cbn [snd] in H. rewrite H. exact IH.
Qed.

Lemma first_intent_prefix (l : jsstring) before i ps rest :
  existsb (fun p => includes l p) ps = true ->
  first_intent l (before ++ (i, ps) :: rest) ∈ (fst <$> before) ++ [i].
Proof.
  intros H. induction before as [|[j qs] before IH]; cbn [app first_intent fmap list_fmap].
  - rewrite H. apply list_elem_of_here.
  - destruct (existsb _ qs).
    + apply list_elem_of_here.
    + apply list_elem_of_further. exact IH.
Qed.

Lemma first_intent_first (l : jsstring) before i ps rest :
  Forall (fun e => existsb (fun p => includes l p) e.2 = false) before ->
  existsb (fun p => includes l p) ps = true ->
  first_intent l (before ++ (i, ps) :: rest) = i.
Proof.
  intros Hb H. induction Hb as [|[j qs] before Hj _ IH]; cbn [app first_intent].
  - rewrite H. reflexivity.
  - cbn [snd] in Hj. rewrite Hj. exact IH.
Qed.

Lemma existsb_includes (l p : jsstring) (ps : list jsstring) :
  p ∈ ps -> includes l p = true ->
  existsb (fun q => includes l q) ps = true.
Proof.
  intros Hin H. apply existsb_exists. exists p.
  split; [apply list_elem_of_In; exact Hin | exact H].
Qed.

Section Intents.
Context `{P : Platform}.

(** X10.  The answer is [general] exactly when no pattern of the table occurs in
    the lower-cased message. *)
Theorem general_iff_no_pattern (message : jsstring) :
  analyzeIntent message = General
  <-> forall i ps p, (i, ps) ∈ intentPatterns -> p ∈ ps ->
        includes (toLowerCase message) p = false.
Proof.
  unfold analyzeIntent. split.
  - intros HG i ps p Hin Hp.
    destruct (includes (toLowerCase message) p) eqn:Hinc; [exfalso | reflexivity].
    apply list_elem_of_split in Hin as [before [rest Heq]].
    pose proof (first_intent_prefix (toLowerCase message) before i ps rest
                  (existsb_includes _ _ _ Hp Hinc)) as Hpre.
    rewrite <- Heq, HG in Hpre.
    assert (Hall : General ∈ fst <$> intentPatterns).
    { rewrite Heq, fmap_app. apply elem_of_app in Hpre as [H|H].
      - apply elem_of_app. left. exact H.
      - apply elem_of_app. right. apply list_elem_of_singleton in H. subst i.
        apply list_elem_of_here. }
    revert Hall. apply (bool_decide_unpack _). vm_compute. exact I.
  - intros H. apply first_intent_none. apply Forall_forall.
    intros [i ps] Hin. cbn [snd].
    destruct (existsb _ ps) eqn:He; [|reflexivity].
    apply existsb_exists in He as [p [Hp Hinc]].
    apply list_elem_of_In in Hp. rewrite (H i ps p Hin Hp) in Hinc. discriminate.
Qed.

(** A message in which a pattern occurs gets the intent of that pattern or
    one listed before it, never [general] nor a later one. *)
Lemma pattern_gives_intent_or_earlier (message : jsstring) before i ps rest p :
  intentPatterns = before ++ (i, ps) :: rest ->
  p ∈ ps ->
  includes (toLowerCase message) p = true ->
  analyzeIntent message ∈ (fst <$> before) ++ [i].
Proof.
  intros Heq Hp Hinc. unfold analyzeIntent. rewrite Heq.
  apply first_intent_prefix. exact (existsb_includes _ _ _ Hp Hinc).
Qed.

(** X11.  [depoimento] contains [oi], [funciona mesmo] and [não funciona] contain
    [funciona]: a message with one of them gets an earlier intent, never the
    one the pattern is listed under. *)
Theorem shadowed_pattern_never_wins (message : jsstring) (i : Intent) (p : jsstring) :
  (i, p) ∈ shadowed ->
  includes (toLowerCase message) p = true ->
  analyzeIntent message <> i
  /\ analyzeIntent message ∈ [Greeting; Price; Benefits; HowItWorks].
Proof.
  intros Hin Hinc.
  assert (Hpre : forall q, includes p q = true -> q ∈ [js "oi"; js "funciona"] ->
            analyzeIntent message ∈ [Greeting; Price; Benefits; HowItWorks]).
  { intros q Hq Hq'. pose proof (includes_trans _ _ _ Hinc Hq) as Hl.
    apply elem_of_cons in Hq' as [->|Hq'].
    - apply (pattern_gives_intent_or_earlier message [] Greeting
               [js "olá"; js "oi"; js "bom dia"; js "boa tarde"; js "boa noite";
                js "hey"; js "e aí"] (tail intentPatterns) (js "oi")) in Hl.
      + apply list_elem_of_singleton in Hl. rewrite Hl. apply list_elem_of_here.
      + reflexivity.
      + apply list_elem_of_further, list_elem_of_here.
    - apply list_elem_of_singleton in Hq'. subst q.
      apply (pattern_gives_intent_or_earlier message (take 3 intentPatterns)
               HowItWorks
               [js "como funciona"; js "funciona"; js "método"; js "processo";
                js "como é"] (drop 4 intentPatterns) (js "funciona")) in Hl.
      + exact Hl.
      + reflexivity.
      + apply list_elem_of_further, list_elem_of_here. }
  assert (H : analyzeIntent message ∈ [Greeting; Price; Benefits; HowItWorks]
              /\ i ∉ [Greeting; Price; Benefits; HowItWorks]).
  { unfold shadowed in Hin.
    repeat (apply elem_of_cons in Hin as [Hin|Hin]);
      [..| apply elem_of_nil in Hin; contradiction];
      injection Hin as -> ->.
    - split; [apply (Hpre (js "oi")); [vm_compute; reflexivity|]|].
      + apply list_elem_of_here.
      + apply (bool_decide_unpack _). vm_compute. exact I.
    - split; [apply (Hpre (js "funciona")); [vm_compute; reflexivity|]|].
      + apply list_elem_of_further, list_elem_of_here.
      + apply (bool_decide_unpack _). vm_compute. exact I.
    - split; [apply (Hpre (js "funciona")); [vm_compute; reflexivity|]|].
      + apply list_elem_of_further, list_elem_of_here.
      + apply (bool_decide_unpack _). vm_compute. exact I. }
  destruct H as [H1 H2]. split; [|exact H1].
  intros E. rewrite E in H1. exact (H2 H1).
Qed.

(** X12.  Every other pattern does give its intent: a message that lower-cases to
    the pattern itself is classified under it. *)
Theorem other_patterns_win (message : jsstring) (i : Intent) ps (p : jsstring) :
  (i, ps) ∈ intentPatterns -> p ∈ ps -> (i, p) ∉ shadowed ->
  toLowerCase message = p ->
  analyzeIntent message = i.
Proof.
  intros Hin Hp Hns Hl. unfold analyzeIntent. rewrite Hl. clear Hl message.
  revert p Hp Hns. unfold intentPatterns in Hin.
  repeat (apply elem_of_cons in Hin as [Hin|Hin]);
    [..| apply elem_of_nil in Hin; contradiction];
    injection Hin as -> ->; intros p Hp Hns;
    repeat (apply elem_of_cons in Hp as [->|Hp]);
    try (apply elem_of_nil in Hp; contradiction);
    try (vm_compute; reflexivity);
    exfalso; apply Hns; unfold shadowed;
    repeat first [apply list_elem_of_here | apply list_elem_of_further].
Qed.

End Intents.

(** * Deep links *)

Lemma hex_digit_unreserved (n : N) : (n < 16)%N -> unreserved (hex_digit n) = true.
Proof.
  intros H. unfold hex_digit. destruct (N.ltb_spec n 10).
  - unfold unreserved, is_digit.
    replace (48 <=? 48 + n)%N with true by (symmetry; apply N.leb_le; lia).
    replace (48 + n <=? 57)%N with true by (symmetry; apply N.leb_le; lia).
    rewrite orb_true_r. reflexivity.
  - unfold unreserved, is_alpha, is_upper.
    replace (65 <=? 55 + n)%N with true by (symmetry; apply N.leb_le; lia).
    replace (55 + n <=? 90)%N with true by (symmetry; apply N.leb_le; lia).
    reflexivity.
Qed.

Lemma utf8_octets (cp : N) :
  (cp < 1114112)%N -> Forall (fun o => (o < 256)%N) (utf8 cp).
Proof.
  intros H. unfold utf8.
  assert (H64 : (cp mod 64 < 64)%N) by (apply N.mod_lt; lia).
  assert (H64' : ((cp / 64) mod 64 < 64)%N) by (apply N.mod_lt; lia).
  assert (H64'' : ((cp / 4096) mod 64 < 64)%N) by (apply N.mod_lt; lia).
  destruct (N.ltb_spec cp 128); [repeat constructor; lia|].
  destruct (N.ltb_spec cp 2048).
  { assert (cp / 64 < 32)%N by (apply N.Div0.div_lt_upper_bound; lia).
    repeat constructor; lia. }
  destruct (N.ltb_spec cp 65536).
  { assert (cp / 4096 < 16)%N by (apply N.Div0.div_lt_upper_bound; lia).
    repeat constructor; lia. }
  assert (cp / 262144 < 5)%N by (apply N.Div0.div_lt_upper_bound; lia).
  repeat constructor; lia.
Qed.

(** Induction on a string two code units at a time, as [encodeURIComponent]
    reads it. *)
Lemma jsstring_pair_ind (Q : jsstring -> Prop) :
  Q [] -> (forall c t, Q t -> (forall c2 t', t = c2 :: t' -> Q t') -> Q (c :: t)) ->
  forall s, Q s.
Proof.
  intros H0 Hs s.
  assert (H : Q s /\ forall c2 t', s = c2 :: t' -> Q t').
  { induction s as [|c t [IH1 IH2]].
    - split; [exact H0 | discriminate].
    - split; [apply Hs; assumption|].
      intros c2 t' E. injection E as -> ->. exact IH1. }
  exact (proj1 H).
Qed.

Lemma is_trail_bounds (c : N) : is_trail c = true <-> (56320 <= c <= 57343)%N.
Proof. unfold is_trail. rewrite andb_true_iff, !N.leb_le. reflexivity. Qed.

Lemma is_lead_bounds (c : N) : is_lead c = true <-> (55296 <= c <= 56319)%N.
Proof. unfold is_lead. rewrite andb_true_iff, !N.leb_le. reflexivity. Qed.

Lemma unreserved_not_surrogate (c : N) :
  unreserved c = true -> is_trail c = false /\ is_lead c = false.
Proof.
  intros H. assert (Hc : (c < 128)%N).
  { unfold unreserved, is_alpha, is_upper, is_lower, is_digit, one_of in H.
    cbn [existsb] in H. vm_compute js in H. cbn [existsb] in H.
    rewrite !orb_true_iff, !andb_true_iff, !N.leb_le, !N.eqb_eq in H. lia. }
  split.
  - destruct (is_trail c) eqn:E; [apply is_trail_bounds in E; lia | reflexivity].
  - destruct (is_lead c) eqn:E; [apply is_lead_bounds in E; lia | reflexivity].
Qed.

(** [encodeURIComponent] throws [URIError] exactly on the strings that are
    not well formed, and returns otherwise. *)
Lemma encodeURIComponent_throws_iff (s : jsstring) :
  (well_formed s = false -> encodeURIComponent s = Throw (js "URI malformed"))
  /\ (well_formed s = true -> exists out, encodeURIComponent s = Ok out).
Proof.
  induction s as [|c t IH IH2] using jsstring_pair_ind;
    cbn [well_formed encodeURIComponent].
  - split; [discriminate | intros _; exists []; reflexivity].
  - destruct (unreserved c) eqn:Hu.
    { destruct (unreserved_not_surrogate c Hu) as [-> ->].
      destruct IH as [IHf IHt]. split; intros H.
      - rewrite (IHf H). reflexivity.
      - destruct (IHt H) as [out ->]. eexists; reflexivity. }
    destruct (is_trail c); [split; [reflexivity | discriminate]|].
    destruct (is_lead c).
    + destruct t as [|c2 t']; [split; [reflexivity | discriminate]|].
      destruct (is_trail c2); cbn [andb]; [|split; [reflexivity | discriminate]].
      destruct (IH2 c2 t' eq_refl) as [IHf IHt]. split; intros H.
      * rewrite (IHf H). reflexivity.
      * destruct (IHt H) as [out ->]. eexists; reflexivity.
    + destruct IH as [IHf IHt]. split; intros H.
      * rewrite (IHf H). reflexivity.
      * destruct (IHt H) as [out ->]. eexists; reflexivity.
Qed.

Lemma escape_unreserved (cp : N) :
  (cp < 1114112)%N ->
  Forall (fun c => unreserved c || (c =? 37)%N = true)
         (flat_map percent (utf8 cp)).
Proof.
  intros Hcp. pose proof (utf8_octets cp Hcp) as Ho.
  induction Ho as [|o os Ho _ IH]; cbn [flat_map]; [apply Forall_nil_2|].
  apply Forall_app. split; [|exact IH]. unfold percent.
  repeat apply Forall_cons_2; try apply Forall_nil_2.
  - reflexivity.
  - rewrite hex_digit_unreserved; [reflexivity|].
    apply N.Div0.div_lt_upper_bound. lia.
  - rewrite hex_digit_unreserved; [reflexivity|]. apply N.mod_lt. lia.
Qed.

Lemma encodeURIComponent_chars_aux (s out : jsstring) :
  Forall (fun c => (c < 65536)%N) s ->
  encodeURIComponent s = Ok out ->
  Forall (fun c => unreserved c || (c =? 37)%N = true) out.
Proof.
  revert out.
  induction s as [|c t IH IH2] using jsstring_pair_ind;
    intros out Hb; cbn [encodeURIComponent].
  - intros E. injection E as <-. apply Forall_nil_2.
  - apply Forall_cons in Hb as [Hc Hb]. destruct (unreserved c) eqn:Hu.
    { destruct (encodeURIComponent t) as [o|] eqn:Et; [|discriminate].
      intros E. injection E as <-.
      apply Forall_cons. split; [rewrite Hu; reflexivity | apply IH; auto]. }
    destruct (is_trail c); [discriminate|].
    destruct (is_lead c) eqn:Hl.
    + destruct t as [|c2 t']; [discriminate|].
      destruct (is_trail c2) eqn:Ht; [|discriminate].
      destruct (encodeURIComponent t') as [o|] eqn:Et; [|discriminate].
      intros E. injection E as <-.
      apply Forall_cons in Hb as [Hc2 Hb].
      apply is_lead_bounds in Hl. apply is_trail_bounds in Ht.
      apply Forall_app. split; [apply escape_unreserved; lia|].
      apply (IH2 c2 t' eq_refl); auto.
    + destruct (encodeURIComponent t) as [o|] eqn:Et; [|discriminate].
      intros E. injection E as <-.
      apply Forall_app. split; [apply escape_unreserved; lia | apply IH; auto].
Qed.

(** What [encodeURIComponent] returns holds only unreserved characters and
    [%], for a string of 16-bit code units. *)
Lemma encodeURIComponent_chars (s out : jsstring) :
  Forall (fun c => (c < 65536)%N) s ->
  encodeURIComponent s = Ok out ->
  Forall (fun c => unreserved c || (c =? 37)%N = true) out.
Proof. exact (encodeURIComponent_chars_aux s out). Qed.

(** A string of unreserved characters is returned as it is. *)
Lemma encodeURIComponent_unreserved (s : jsstring) :
  Forall (fun c => unreserved c = true) s -> encodeURIComponent s = Ok s.
Proof.
  induction 1 as [|c t Hc _ IH]; cbn [encodeURIComponent]; [reflexivity|].
  rewrite Hc, IH. reflexivity.
Qed.

(** The escape of a character that is not unreserved and below 128 is three
    code units; in particular a space becomes [%20], never [+]. *)
Lemma encodeURIComponent_ascii (c : N) (t out : jsstring) :
  unreserved c = false -> (c < 128)%N ->
  encodeURIComponent t = Ok out ->
  encodeURIComponent (c :: t)
  = Ok (37%N :: hex_digit (c / 16) :: hex_digit (c mod 16) :: out).
Proof.
  intros Hu Hc Et. cbn [encodeURIComponent]. rewrite Hu, Et.
  replace (is_trail c) with false
    by (symmetry; destruct (is_trail c) eqn:E;
        [apply is_trail_bounds in E; lia | reflexivity]).
  replace (is_lead c) with false
    by (symmetry; destruct (is_lead c) eqn:E;
        [apply is_lead_bounds in E; lia | reflexivity]).
  unfold utf8. replace (c <? 128)%N with true by (symmetry; apply N.ltb_lt; lia).
  reflexivity.
Qed.

Lemma Forall_forallb {A} (f : A -> bool) (l : list A) :
  forallb f l = true -> Forall (fun c => f c = true) l.
Proof.
  induction l as [|a l IH]; cbn [forallb]; intros H; [apply Forall_nil_2|].
  apply andb_true_iff in H as [Ha Hl]. apply Forall_cons_2; auto.
Qed.

Lemma encoded_link_chars (s out : jsstring) :
  Forall (fun c => (c < 65536)%N) s ->
  encodeURIComponent s = Ok out ->
  Forall (fun c => link_char c = true) out.
Proof.
  intros Hb E. eapply Forall_impl; [exact (encodeURIComponent_chars_aux s out Hb E)|].
  intros c Hc. unfold link_char. apply orb_true_iff in Hc as [Hc|Hc].
  - rewrite Hc. reflexivity.
  - apply N.eqb_eq in Hc. subst c. reflexivity.
Qed.

Lemma platformLinks_unknown (platform e : jsstring) :
  platform ∉ platforms -> platformLinks platform e = None.
Proof.
  intros H. unfold platformLinks.
  repeat (case_decide;
          [exfalso; apply H; subst platform; unfold platforms;
           repeat first [apply list_elem_of_here | apply list_elem_of_further]|]).
  reflexivity.
Qed.

Lemma platformLinks_known (platform e : jsstring) :
  platform ∈ platforms ->
  Forall (fun c => link_char c = true) e ->
  exists m w, platformLinks platform e = Some (m, w)
    /\ Forall (fun c => link_char c = true) m
    /\ Forall (fun c => link_char c = true) w.
Proof.
  intros H He. unfold platforms in H.
  repeat (apply elem_of_cons in H as [->|H]);
    [..| apply elem_of_nil in H; contradiction];
    unfold platformLinks;
    repeat first [ rewrite decide_True by reflexivity
                 | rewrite decide_False by (vm_compute; discriminate) ];
    cbv beta iota;
    (eexists _, _; split; [reflexivity|]);
    split;
    repeat (apply Forall_app; split);
    first [exact He | apply Forall_forallb; vm_compute; reflexivity].
Qed.

Lemma generateDeepLinks_outcome (platform content : jsstring) (mobile_device : bool) :
  (well_formed content = false ->
   generateDeepLinks platform content mobile_device = Throw (js "URI malformed"))
  /\ (well_formed content = true ->
      exists links, generateDeepLinks platform content mobile_device = Ok links).
Proof.
  unfold generateDeepLinks.
  destruct (encodeURIComponent_throws_iff content) as [Hf Ht]. split; intros H.
  - rewrite (Hf H). reflexivity.
  - destruct (Ht H) as [out ->].
    destruct (platformLinks platform out) as [[m w]|]; [eexists; reflexivity|].
    case_bool_decide; eexists; reflexivity.
Qed.

(** X13.  [generateDeepLinks] returns exactly when the content is well formed, and
    throws [URIError] otherwise, whatever the platform: also for a platform
    whose links do not hold the content, and for one that is not in the
    table. *)
Theorem generateDeepLinks_throws_iff (platform content : jsstring) (mobile_device : bool) :
  is_ok (generateDeepLinks platform content mobile_device) = well_formed content
  /\ forall e, generateDeepLinks platform content mobile_device = Throw e ->
               e = js "URI malformed".
Proof.
  destruct (generateDeepLinks_outcome platform content mobile_device) as [Hf Ht].
  destruct (well_formed content).
  - destruct (Ht eq_refl) as [links ->]. split; [reflexivity | discriminate].
  - rewrite (Hf eq_refl). split; [reflexivity|]. intros e E. congruence.
Qed.

(** X14.  For a platform of the table both links are there, they are made of
    URL characters only, and the preferred one is the mobile link exactly
    for a mobile device. *)
Theorem generateDeepLinks_known (platform content : jsstring) (mobile_device : bool)
    (links : Links) :
  platform ∈ platforms ->
  Forall (fun c => (c < 65536)%N) content ->
  generateDeepLinks platform content mobile_device = Ok links ->
  exists m w,
    mobile links = Some m /\ web links = Some w
    /\ preferred links = Some (if mobile_device then m else w)
    /\ Forall (fun c => link_char c = true) m
    /\ Forall (fun c => link_char c = true) w.
Proof.
  intros Hp Hb. unfold generateDeepLinks.
  destruct (encodeURIComponent content) as [out|] eqn:E; [|discriminate].
  destruct (platformLinks_known platform out Hp (encoded_link_chars _ _ Hb E))
    as [m [w [-> [Hm Hw]]]].
  intros H. injection H as <-. exists m, w. cbn [mobile web preferred]. auto.
Qed.

(** X15.  For any other platform there is no preferred link, and the two links
    are empty strings, unless the name is one every object inherits: then
    they are [undefined]. *)
Theorem generateDeepLinks_unknown (platform content : jsstring) (mobile_device : bool)
    (links : Links) :
  platform ∉ platforms ->
  generateDeepLinks platform content mobile_device = Ok links ->
  preferred links = None
  /\ mobile links = web links
  /\ (mobile links = if bool_decide (platform ∈ objectPrototypeKeys)
                     then None else Some []).
Proof.
  intros Hp. unfold generateDeepLinks.
  destruct (encodeURIComponent content) as [out|]; [|discriminate].
  rewrite (platformLinks_unknown platform out Hp).
  case_bool_decide; intros E; injection E as <-; auto.
Qed.

Section DeepLinkRouteFacts.
Context `{P : Platform} `{R : Runtime} `{D : Device}.


End DeepLinkRouteFacts.

(** * The conversational engine: replies *)

Lemma lastn_fmap {A B} (f : A -> B) (n : nat) (l : list A) :
  lastn n (f <$> l) = f <$> lastn n l.
Proof. unfold lastn. rewrite length_fmap, fmap_drop. reflexivity. Qed.

Lemma lastn_snoc {A} (n : nat) (l : list A) (x : A) :
  lastn (S n) (l ++ [x]) = lastn n l ++ [x].
Proof.
  unfold lastn. rewrite length_app. cbn [length].
  replace (length l + 1 - S n) with (length l - n) by lia.
  rewrite drop_app.
  replace (length l - n - length l) with 0 by lia. reflexivity.
Qed.

Lemma lastn_lastn {A} (m n : nat) (l : list A) :
  m <= n -> lastn m (lastn n l) = lastn m l.
Proof.
  intros H. unfold lastn. rewrite length_drop, drop_drop. f_equal. lia.
Qed.

Lemma includes_concat (l : list jsstring) (x : jsstring) :
  x ∈ l -> includes (concat l) x = true.
Proof.
  intros H. apply list_elem_of_split in H as [l1 [l2 ->]].
  apply includes_spec. exists (concat l1), (concat l2).
  rewrite concat_app. reflexivity.
Qed.

Ltac in_template :=
  apply includes_concat;
  repeat first [apply list_elem_of_here | apply list_elem_of_further].

Section EngineFacts.
Context `{P : Platform} `{R : Runtime} `{V : Service}.

Lemma greeting_drawn (pageData : ContentRecord) (w : World) :
  exists greeting,
    greeting ∈ greetings pageData
    /\ (generateGreetingResponse pageData w).1 = greetingBody pageData greeting.
Proof.
  unfold generateGreetingResponse.
  pose proof (random_floor_lt (length (greetings pageData)) w) as Hlt.
  destruct (random_floor (length (greetings pageData)) w) as [i w'].
  cbn [fst] in *.
  destruct (lookup_lt_is_Some_2 (greetings pageData) i) as [g Hg].
  { apply Hlt. cbn. lia. }
  exists g. rewrite Hg. split; [|reflexivity].
  eapply list_elem_of_lookup_2. exact Hg.
Qed.

(** X17.  Whatever the intent and the greeting drawn, the reply of a strategy
    holds the title of the page and its call to action; so does the
    fallback reply. *)
Theorem replies_name_title_and_cta (intent : Intent) (pageData : ContentRecord)
    (context : Context.t) (w : World) :
  let reply := (generateWithStrategy intent pageData context w).1 in
  includes reply (title pageData) = true
  /\ includes reply (cta pageData) = true
  /\ includes (generateFallbackResponse pageData) (title pageData) = true
  /\ includes (generateFallbackResponse pageData) (cta pageData) = true.
Proof.
  cbv zeta. split; [|split; [|split]].
  - destruct intent; unfold generateWithStrategy, salesStrategies, reads_page;
      cbn [default from_option id fst];
      try (unfold generatePriceResponse, generateBenefitsResponse,
             generateHowItWorksResponse, generateGuaranteeResponse,
             generateTestimonialsResponse, generateBonusResponse,
             generatePurchaseResponse, generateDoubtResponse,
             generateObjectionResponse; cbv zeta; in_template).
    destruct (greeting_drawn pageData w) as [g [Hg ->]].
    apply (includes_trans _ g).
    + unfold greetingBody. in_template.
    + unfold greetings in Hg.
      repeat (apply elem_of_cons in Hg as [->|Hg]);
        [..| apply elem_of_nil in Hg; contradiction]; in_template.
  - destruct intent; unfold generateWithStrategy, salesStrategies, reads_page;
      cbn [default from_option id fst];
      try (unfold generatePriceResponse, generateBenefitsResponse,
             generateHowItWorksResponse, generateGuaranteeResponse,
             generateTestimonialsResponse, generateBonusResponse,
             generatePurchaseResponse, generateDoubtResponse,
             generateObjectionResponse; cbv zeta; in_template).
    destruct (greeting_drawn pageData w) as [g [Hg ->]].
    unfold greetingBody. in_template.
  - unfold generateFallbackResponse. in_template.
  - unfold generateFallbackResponse. in_template.
Qed.

Lemma generateResponse_text (m : jsstring) (pageData : ContentRecord)
    (i : jsstring) (st : ServerState) :
  exists response w,
    generateResponse (Text m) pageData i st =
    (response,
     {| ext := set_world (ext st) w;
        conversationCache :=
          <[i := kept st i ++ [asked st m; answered st m response]]>
            (conversationCache st) |}).
Proof.
  unfold generateResponse, kept, asked, answered.
  destruct (truthy_opt OPENROUTER_API_KEY).
  - destruct (generateWithAPI _ _ _ _) as [[r|e] w].
    + exists r, w. rewrite <- app_assoc. reflexivity.
    + destruct (generateWithStrategy _ _ _ _) as [r w'].
      exists r, w'. rewrite <- app_assoc. reflexivity.
  - destruct (generateWithStrategy _ _ _ _) as [r w'].
    exists r, w'. rewrite <- app_assoc. reflexivity.
Qed.

(** X18.  However the reply to a text message is produced, the conversation is
    stored as the turns younger than two hours, then the message, then the
    reply with the intent, both stamped with the time of the call; no turn
    stored is older than two hours; the other conversations and the cache of
    the extractor are as before. *)
Theorem generateResponse_history (m : jsstring) (pageData : ContentRecord)
    (i : jsstring) (st : ServerState) :
  let response := (generateResponse (Text m) pageData i st).1 in
  let st' := (generateResponse (Text m) pageData i st).2 in
  conversationCache st' !! i
  = Some (kept st i ++ [asked st m; answered st m response])
  /\ (forall c, c ∈ kept st i ++ [asked st m; answered st m response] ->
        (clock (world (ext st)) - Turn.timestamp c < CONVERSATION_TTL)%Z)
  /\ (forall j, j <> i -> conversationCache st' !! j = conversationCache st !! j)
  /\ dataCache (ext st') = dataCache (ext st)
  /\ trace (ext st') = trace (ext st).
Proof.
  destruct (generateResponse_text m pageData i st) as (response & w & E).
  rewrite E. cbn [fst snd conversationCache ext set_world dataCache trace].
  split; [apply lookup_insert_eq|].
  split.
  { intros c Hc. apply elem_of_app in Hc as [Hc|Hc].
    - unfold kept in Hc. apply list_elem_of_filter in Hc as [Hc _]. exact Hc.
    - unfold CONVERSATION_TTL.
      apply elem_of_cons in Hc as [->|Hc];
        [|apply list_elem_of_singleton in Hc; subst c];
        cbn [asked answered Turn.timestamp]; lia. }
  split; [|split; reflexivity].
  intros j Hj. apply lookup_insert_ne. congruence.
Qed.

(** X19.  What is sent to the completion service: the system prompt, the last two
    turns kept, and the message of the user twice, once as the last turn of
    the history and once on its own. *)
Theorem request_repeats_message (m : jsstring) (pageData : ContentRecord)
    (i : jsstring) (st : ServerState) (n : nat) :
  messages (apiRequest m pageData
              {| Context.previousMessages := lastn 5 (kept st i ++ [asked st m]);
                 Context.intent := analyzeIntent m;
                 Context.conversationLength := n |})
  = (js "system", systemPrompt pageData)
    :: (sent <$> lastn 2 (kept st i)) ++ [(js "user", m); (js "user", m)].
Proof.
  unfold apiRequest. cbn [messages Context.previousMessages app].
  f_equal. rewrite lastn_fmap, lastn_lastn by lia.
  rewrite lastn_snoc, fmap_app, <- app_assoc. reflexivity.
Qed.

(** X20.  The reply to a text message is the answer of the completion service
    when a key is set, the service returns with status 200 and a content that
    is not empty; otherwise it is the reply of the strategy of the intent, and
    without a key the service is not called. *)
Theorem generateResponse_reply (m : jsstring) (pageData : ContentRecord)
    (i : jsstring) (st : ServerState) :
  let context :=
    {| Context.previousMessages := lastn 5 (kept st i ++ [asked st m]);
       Context.intent := analyzeIntent m;
       Context.conversationLength := length (kept st i ++ [asked st m]) |} in
  let out := generateResponse (Text m) pageData i st in
  let called := axios_post (apiRequest m pageData context) (world (ext st)) in
  if truthy_opt OPENROUTER_API_KEY then
    match called with
    | (Ok answer, w) =>
      if (status answer =? 200)%Z && truthy_opt (content answer)
      then content answer = Some out.1 /\ world (ext out.2) = w
      else (out.1, world (ext out.2))
           = generateWithStrategy (analyzeIntent m) pageData context w
    | (Throw _, w) =>
      (out.1, world (ext out.2))
      = generateWithStrategy (analyzeIntent m) pageData context w
    end
  else (out.1, world (ext out.2))
       = generateWithStrategy (analyzeIntent m) pageData context (world (ext st)).
Proof.
  cbv zeta. unfold generateResponse, generateWithAPI. fold (kept st i). fold (asked st m).
  destruct (truthy_opt OPENROUTER_API_KEY).
  - destruct (axios_post _ _) as [[answer|e] w].
    + destruct ((status answer =? 200)%Z && truthy_opt (content answer)) eqn:E.
      * apply andb_true_iff in E as [_ E].
        destruct (content answer) as [c|]; [|discriminate].
        cbn [fst snd ext set_world world default from_option id]. auto.
      * destruct (generateWithStrategy _ _ _ _) as [r w']. reflexivity.
    + destruct (generateWithStrategy _ _ _ _) as [r w']. reflexivity.
  - destruct (generateWithStrategy _ _ _ _) as [r w']. reflexivity.
Qed.


(** X22.  After [/clear-cache] no request is answered from the cache, whatever
    was stored, and every conversation starts anew: the next text message
    leaves exactly its two turns. *)
Theorem clear_cache_forgets (st : ServerState) :
  (forall u method, miss u method (ext (route_clear_cache st)))
  /\ (forall m pageData i,
        let out := generateResponse (Text m) pageData i (route_clear_cache st) in
        conversationCache out.2 !! i
        = Some [asked (route_clear_cache st) m;
                answered (route_clear_cache st) m out.1])
  /\ world (ext (route_clear_cache st)) = world (ext st).
Proof.
  split; [|split; [|reflexivity]].
  - intros u method. unfold miss, route_clear_cache. cbn [ext dataCache].
    rewrite lookup_empty. reflexivity.
  - intros m pageData i. cbv zeta.
    destruct (generateResponse_text m pageData i (route_clear_cache st))
      as (response & w & E). rewrite E. cbn [fst snd conversationCache].
    rewrite lookup_insert_eq. unfold kept, route_clear_cache.
    cbn [conversationCache]. rewrite lookup_empty. reflexivity.
Qed.

End EngineFacts.

(** * Runs on a landing page *)

Lemma text_fields_in_band_witness :
  processExtractedHTML (P:=Landing.platform) Landing.markup product
  = Ok Landing.record
  /\ title Landing.record = js "Curso de Violão para Iniciantes"
  /\ cta Landing.record = js "QUERO COMEÇAR AGORA"
  /\ (title Landing.record = [] \/ 5 < length (title Landing.record))
  /\ (description Landing.record = []
      \/ 50 < length (description Landing.record) <= 500)
  /\ (cta Landing.record = [] \/ 3 < length (cta Landing.record) < 100).
Proof.
  split; [vm_compute; reflexivity|].
  split; [vm_compute; reflexivity|].
  split; [vm_compute; reflexivity|].
  apply (text_fields_in_band (P:=Landing.platform) Landing.markup product
           Landing.record).
  vm_compute. reflexivity.
Defined.

Lemma list_fields_in_band_witness :
  processExtractedHTML (P:=Landing.platform) Landing.markup product
  = Ok Landing.record
  /\ length (benefits Landing.record) = 3
  /\ length (testimonials Landing.record) = 1
  /\ Forall (fun b => 10 < length b < 200) (benefits Landing.record)
  /\ Forall (fun t => 20 < length t < 300) (testimonials Landing.record).
Proof.
  split; [vm_compute; reflexivity|].
  split; [vm_compute; reflexivity|].
  split; [vm_compute; reflexivity|].
  apply (list_fields_in_band (P:=Landing.platform) Landing.markup product
           Landing.record).
  vm_compute. reflexivity.
Defined.

Lemma price_is_an_amount_witness :
  processExtractedHTML (P:=Landing.platform) Landing.markup product
  = Ok Landing.record
  /\ price Landing.record = js "R$ 29,90"
  /\ exists mark body,
       price Landing.record = mark ++ body
       /\ mark ∈ [js "R$"; js "USD"; js "$"]
       /\ Forall (fun c => amount_char c = true) body
       /\ Exists (fun c => is_digit c = true) body.
Proof.
  assert (H : processExtractedHTML (P:=Landing.platform) Landing.markup product
              = Ok Landing.record) by (vm_compute; reflexivity).
  split; [exact H|]. split; [vm_compute; reflexivity|].
  destruct (price_is_an_amount (P:=Landing.platform) Landing.markup product
              Landing.record H)
    as [E | (element & pre & post & mark & body & _ & _ & Hp & Hm & Hall & Hex)].
  - exfalso. vm_compute in E. discriminate.
  - exists mark, body. repeat split; assumption.
Defined.

Lemma contact_email_is_an_address_witness :
  processExtractedHTML (P:=Landing.platform) Landing.markup product
  = Ok Landing.record
  /\ email (contact Landing.record) = Some (js "vendas@loja.example")
  /\ exists pre post local domain tld,
       Landing.markup = pre ++ js "vendas@loja.example" ++ post
       /\ js "vendas@loja.example" = local ++ js "@" ++ domain ++ js "." ++ tld
       /\ 2 <= length tld.
Proof.
  assert (H : processExtractedHTML (P:=Landing.platform) Landing.markup product
              = Ok Landing.record) by (vm_compute; reflexivity).
  assert (E : email (contact Landing.record) = Some (js "vendas@loja.example"))
    by (vm_compute; reflexivity).
  split; [exact H|]. split; [exact E|].
  pose proof (contact_email_is_an_address (P:=Landing.platform) Landing.markup
                product Landing.record H) as T.
  rewrite E in T.
  destruct T as (pre & post & local & domain & tld & Hs & Hm & _ & _ & _ & _ & Ht & _).
  exists pre, post, local, domain, tld. repeat split; assumption.
Defined.

Lemma contact_phone_is_a_number_witness :
  processExtractedHTML (P:=Landing.platform) Landing.markup product
  = Ok Landing.record
  /\ phone (contact Landing.record) = Some (js "(11) 98765-4321")
  /\ exists pre post,
       Landing.markup = pre ++ js "(11) 98765-4321" ++ post
       /\ Forall (fun c => phone_char c = true) (js "(11) 98765-4321").
Proof.
  assert (H : processExtractedHTML (P:=Landing.platform) Landing.markup product
              = Ok Landing.record) by (vm_compute; reflexivity).
  assert (E : phone (contact Landing.record) = Some (js "(11) 98765-4321"))
    by (vm_compute; reflexivity).
  split; [exact H|]. split; [exact E|].
  pose proof (contact_phone_is_a_number (P:=Landing.platform) Landing.markup
                product Landing.record H) as T.
  rewrite E in T. destruct T as (pre & post & Hs & Hc & _).
  exists pre, post. split; assumption.
Defined.

Lemma cache_key_confuses_requests_witness :
  let first :=
    extractData (P:=shop_platform) (R:=online)
      (js "https://loja.example/a" ++ js "_" ++ js "b") (js "axios")
      (at_start [true]) in
  let r := match fst first with Ok r => r | Throw _ => getDefaultData [] end in
  extractionMethod r = Some (js "axios")
  /\ url r = js "https://loja.example/a_b"
  /\ extractData (P:=shop_platform) (R:=online) (js "https://loja.example/a")
       (js "b" ++ js "_" ++ js "axios") (snd first)
     = (Ok r, snd first).
Proof.
  cbv zeta. split; [vm_compute; reflexivity|]. split; [vm_compute; reflexivity|].
  eapply (cache_key_confuses_requests (P:=shop_platform) (R:=online)
            (js "https://loja.example/a") (js "b") (js "axios")
            (at_start [true])).
  - vm_compute. reflexivity.
  - vm_compute. discriminate.
  - reflexivity.
  - intros e He. vm_compute in He. injection He as <-. vm_compute. reflexivity.
Defined.

Lemma cache_entries_are_separate_witness :
  let s := at_start [true] in
  let s1 := snd (extractData (P:=shop_platform) (R:=online) product (js "auto") s) in
  (95%N ∉ js "auto")
  /\ (product, js "auto") <> (amazon, js "auto")
  /\ dataCache s1 !! cacheKey product (js "auto") <> None
  /\ dataCache s1 !! cacheKey amazon (js "auto")
     = dataCache s !! cacheKey amazon (js "auto").
Proof.
  cbv zeta.
  assert (Hm : 95%N ∉ js "auto") by (apply (bool_decide_unpack _); vm_compute; exact I).
  assert (Hne : (product, js "auto") <> (amazon, js "auto"))
    by (vm_compute; discriminate).
  split; [exact Hm|]. split; [exact Hne|]. split; [vm_compute; discriminate|].
  exact (cache_entries_are_separate (P:=shop_platform) (R:=online) product
           (js "auto") amazon (js "auto") (at_start [true]) Hm Hm Hne).
Defined.

Lemma cloudscraper_record_has_requested_url_witness :
  let s := at_start [false; true] in
  let first := extractData (P:=shop_platform) (R:=online) product (js "auto") s in
  let r := match fst first with Ok r => r | Throw _ => getDefaultData [] end in
  miss product (js "auto") s
  /\ extractionMethod r = Some (js "cloudscraper")
  /\ url r = product.
Proof.
  cbv zeta. split; [reflexivity|]. split; [vm_compute; reflexivity|].
  eapply (cloudscraper_record_has_requested_url (P:=shop_platform) (R:=online)
            product (js "auto") (at_start [false; true])).
  - reflexivity.
  - vm_compute. reflexivity.
  - vm_compute. reflexivity.
Defined.

Lemma shadowed_pattern_never_wins_witness :
  let message := js "Tem depoimento de clientes?" in
  ((Testimonials, js "depoimento") ∈ shadowed)
  /\ includes (toLowerCase (Platform:=Landing.platform) message) (js "depoimento")
     = true
  /\ analyzeIntent (P:=Landing.platform) message = Greeting
  /\ analyzeIntent (P:=Landing.platform) message <> Testimonials
  /\ analyzeIntent (P:=Landing.platform) message
       ∈ [Greeting; Price; Benefits; HowItWorks].
Proof.
  cbv zeta.
  assert (Hs : (Testimonials, js "depoimento") ∈ shadowed)
    by apply list_elem_of_here.
  assert (Hi : includes (toLowerCase (Platform:=Landing.platform)
                           (js "Tem depoimento de clientes?"))
                 (js "depoimento") = true) by (vm_compute; reflexivity).
  split; [exact Hs|]. split; [exact Hi|]. split; [vm_compute; reflexivity|].
  exact (shadowed_pattern_never_wins (P:=Landing.platform)
           (js "Tem depoimento de clientes?") Testimonials (js "depoimento") Hs Hi).
Defined.

Lemma other_patterns_win_witness :
  let patterns :=
    [js "garantia"; js "seguro"; js "risco"; js "devolução"; js "reembolso"] in
  ((Guarantee, patterns) ∈ intentPatterns)
  /\ ((Guarantee, js "garantia") ∉ shadowed)
  /\ toLowerCase (Platform:=Landing.platform) (js "GARANTIA") = js "garantia"
  /\ analyzeIntent (P:=Landing.platform) (js "GARANTIA") = Guarantee.
Proof.
  cbv zeta.
  assert (Hin : (Guarantee,
                 [js "garantia"; js "seguro"; js "risco"; js "devolução";
                  js "reembolso"]) ∈ intentPatterns)
    by (unfold intentPatterns;
        repeat first [apply list_elem_of_here | apply list_elem_of_further]).
  assert (Hns : (Guarantee, js "garantia") ∉ shadowed)
    by (apply (bool_decide_unpack _); vm_compute; exact I).
  assert (Hl : toLowerCase (Platform:=Landing.platform) (js "GARANTIA")
               = js "garantia") by (vm_compute; reflexivity).
  split; [exact Hin|]. split; [exact Hns|]. split; [exact Hl|].
  exact (other_patterns_win (P:=Landing.platform) (js "GARANTIA") Guarantee _
           (js "garantia") Hin (list_elem_of_here _ _) Hns Hl).
Defined.

Lemma generateDeepLinks_known_witness :
  exists links,
    generateDeepLinks (js "whatsapp") (js "Olá mundo 😀") true = Ok links
    /\ preferred links
       = Some (js "whatsapp://send?text=Ol%C3%A1%20mundo%20%F0%9F%98%80")
    /\ exists m w,
         mobile links = Some m /\ web links = Some w
         /\ preferred links = Some m
         /\ Forall (fun c => link_char c = true) m
         /\ Forall (fun c => link_char c = true) w.
Proof.
  eexists. split; [vm_compute; reflexivity|]. split; [vm_compute; reflexivity|].
  apply (generateDeepLinks_known (js "whatsapp") (js "Olá mundo 😀") true).
  - apply list_elem_of_here.
  - vm_compute. repeat (apply Forall_cons_2; [reflexivity|]). apply Forall_nil_2.
  - vm_compute. reflexivity.
Defined.

Lemma generateDeepLinks_unknown_witness :
  exists links,
    generateDeepLinks (js "constructor") (js "Olá") true = Ok links
    /\ (js "constructor" ∉ platforms)
    /\ mobile links = None
    /\ preferred links = None
    /\ mobile links = web links.
Proof.
  eexists. split; [vm_compute; reflexivity|].
  assert (Hp : js "constructor" ∉ platforms)
    by (apply (bool_decide_unpack _); vm_compute; exact I).
  split; [exact Hp|]. split; [reflexivity|].
  destruct (generateDeepLinks_unknown (js "constructor") (js "Olá") true
              {| mobile := None; web := None; preferred := None |} Hp)
    as (H1 & H2 & _); [vm_compute; reflexivity|].
  split; assumption.
Defined.

(** A name that no object inherits gives two empty links. *)
Example generateDeepLinks_snapchat :
  generateDeepLinks (js "snapchat") (js "Olá") false
  = Ok {| mobile := Some []; web := Some []; preferred := None |}.
Proof. vm_compute. reflexivity. Qed.

(** A lone surrogate in the content ends the request with status 500, also
    for a platform whose links do not hold the content. *)
Example route_deeplink_lone_surrogate :
  fst (route_deeplink (R:=online) (D:=Landing.device)
         (Some (js "instagram")) (Some [55357%N]) None None (at_start []))
  = Ok (LinkError 500 (js "Erro interno do servidor")).
Proof. vm_compute. reflexivity. Qed.

(** Without a key the question about the price is answered by the price
    template, and the conversation [default] holds the two turns. *)
Example route_chat_price :
  let out :=
    route_chat (P:=Landing.platform) (V:=Landing.service None None)
      (Some (Text (js "Quanto custa?"))) None None (Landing.server []) in
  fst out = ChatData 200 (generatePriceResponse (getDefaultData [])) (js "default") 0
  /\ (Turn.role <$> default [] (conversationCache (snd out) !! js "default"))
     = [User; Assistant].
Proof. vm_compute. split; reflexivity. Qed.

(** With a key the answer of the service is the reply; when the service
    fails, the strategy of the intent answers. *)
Example route_chat_service :
  let ask fetches :=
    fst (route_chat (P:=Landing.platform)
           (V:=Landing.service (Some (js "sk-or-v1")) (Some (js "Claro!")))
           (Some (Text (js "Quanto custa?"))) None (Some (js "c1"))
           (Landing.server fetches)) in
  ask [true] = ChatData 200 (js "Claro!") (js "c1") 1000
  /\ ask [false]
     = ChatData 200 (generatePriceResponse (getDefaultData [])) (js "c1") 1000.
Proof. vm_compute. split; reflexivity. Qed.
